(** * The Ganache Ethereum JSON-RPC API ([src/chains/ethereum/ethereum/src/api.ts])

    A shallow embedding of the [EthereumApi] class and of the parts of the
    blockchain engine it drives, together with the properties stated for
    them.  JavaScript values are embedded as follows:

    - a [Buffer] is a [list byte]; a [Data]/hash rendered with [toString()]
      is a [string]; a [Quantity] is an [N];
    - [null]/[undefined] is [None];
    - a [Map]/[Set]/plain object used as a dictionary is a [gmap]/[gset];
    - an [async] method is a computation in the monad [M]: it threads the
      whole engine state and either resolves with a value or rejects with an
      error (mutations made before a [throw] are kept, as in JavaScript);
    - objects that are shared by reference (trie handles) live in a store
      addressed by [Ref], so that [copy()] is an allocation and aliasing is
      visible. *)

From Stdlib Require Import ZArith NArith String Ascii List Lia Bool.
From Stdlib.Strings Require Import Byte.
From stdpp Require Import base gmap strings pretty list fin_maps.

Set Default Proof Using "Type".

(** ** Bytes as map keys *)

#[global] Instance byte_eq_dec : EqDecision byte.
Proof.
  intros a b. destruct (Byte.eqb a b) eqn:E.
  - left. by apply Byte.byte_dec_bl.
  - right. intros ->. rewrite Byte.byte_dec_lb in E; done.
Defined.

#[global] Instance byte_countable : Countable byte :=
  inj_countable Byte.to_N Byte.of_N Byte.of_to_N.

Abbreviation Buffer := (list byte).
Abbreviation Address := (list byte).
Abbreviation Root := (list byte).
Abbreviation Hash := string.
Abbreviation Ref := positive.

(** ** JavaScript strings *)

Module Js.

(** Truthiness of a string that may be [null]: [null] and the empty string
    are falsy. *)
Definition truthy (s : option string) : bool :=
  match s with
  | None => false
  | Some EmptyString => false
  | Some (String _ _) => true
  end.

(** [Array.prototype.join]. *)
Definition join (sep : string) (l : list string) : string :=
  String.concat sep l.

(** [m] occurs in [s] as a contiguous piece of text. *)
Definition occurs_in (m s : string) : Prop :=
  ∃ pre post, s = pre +:+ m +:+ post.

(** The value of a decimal digit, by its character code. *)
Definition digitValue (c : ascii) : option N :=
  let code := N_of_ascii c in
  if (48 <=? code)%N && (code <=? 57)%N then Some (code - 48)%N else None.

Fixpoint leadingDigits (s : string) (acc : option N) : option N :=
  match s with
  | EmptyString => acc
  | String c s' =>
      match digitValue c with
      | Some d => leadingDigits s' (Some (10 * default 0 acc + d))%N
      | None => acc
      end
  end.

(** [parseInt(s, 10)] for a string that starts with neither blanks nor a
    sign: the number spelled by its leading decimal digits, reading stops
    at the first other character; [NaN], here [None], when there is no
    leading digit. *)
Definition parseInt (s : string) : option N := leadingDigits s None.

End Js.

(** ** Errors and execution exceptions *)

(** The [data] object carried by a VM runtime error; [ed_hash] is the hash of
    the transaction whose execution raised it. *)
Record ExceptionData := {
  ed_hash : Hash;
  ed_programCounter : N;
  ed_reason : option string;
  ed_message : string
}.

(** [transaction.execException]: an [Error] object with a [data] field. *)
Record RuntimeError := {
  exc_name : string;
  exc_message : string;
  exc_data : ExceptionData
}.

(** [Error.prototype.toString], used when an exception is interpolated into a
    template literal. *)
Definition RuntimeError_toString (e : RuntimeError) : string :=
  match exc_name e, exc_message e with
  | EmptyString, msg => msg
  | nm, EmptyString => nm
  | nm, msg => nm +:+ ": " +:+ msg
  end.

Inductive ErrorKind := PlainError | TypeError | ReferenceError.

(** An error as thrown by the API: its class, its [message] and, for the
    aggregated VM error, the attached [data] dictionary. *)
Record JsError := {
  err_kind : ErrorKind;
  err_message : string;
  err_data : gmap string ExceptionData
}.

Definition new_Error (msg : string) : JsError :=
  {| err_kind := PlainError; err_message := msg; err_data := ∅ |}.

Definition new_TypeError (msg : string) : JsError :=
  {| err_kind := TypeError; err_message := msg; err_data := ∅ |}.

Definition new_ReferenceError (msg : string) : JsError :=
  {| err_kind := ReferenceError; err_message := msg; err_data := ∅ |}.

Inductive Outcome (A : Type) :=
  | Resolved (a : A)
  | Rejected (e : JsError).
Arguments Resolved {A} a.
Arguments Rejected {A} e.

(** ** Transactions, blocks and logs *)

(** The transaction call object received over RPC ([transaction: any]); every
    field is optional. *)
Record RpcTransaction := {
  rpc_from : option Address;
  rpc_to : option Address;
  rpc_gas : option N;
  rpc_gasLimit : option N;
  rpc_gasPrice : option N;
  rpc_value : option N;
  rpc_data : option Buffer;
  rpc_input : option Buffer;
  rpc_nonce : option N
}.

(** A transaction object.  [tx_gas = None] is a null quantity ([isNull()]);
    [tx_hash] is [hash.toString()], set when the transaction is signed;
    [tx_execException] is the execution outcome recorded by the miner. *)
Record Transaction := {
  tx_from : option Address;
  tx_to : option Address;
  tx_nonce : option N;
  tx_gas : option N;
  tx_gasPrice : option N;
  tx_value : option N;
  tx_data : option Buffer;
  tx_hash : Hash;
  tx_execException : option RuntimeError
}.

Definition tx_with_from (a : Address) (tx : Transaction) : Transaction :=
  {| tx_from := Some a; tx_to := tx_to tx; tx_nonce := tx_nonce tx;
     tx_gas := tx_gas tx; tx_gasPrice := tx_gasPrice tx;
     tx_value := tx_value tx; tx_data := tx_data tx; tx_hash := tx_hash tx;
     tx_execException := tx_execException tx |}.

Definition tx_with_gas (g : N) (tx : Transaction) : Transaction :=
  {| tx_from := tx_from tx; tx_to := tx_to tx; tx_nonce := tx_nonce tx;
     tx_gas := Some g; tx_gasPrice := tx_gasPrice tx;
     tx_value := tx_value tx; tx_data := tx_data tx; tx_hash := tx_hash tx;
     tx_execException := tx_execException tx |}.

Definition tx_with_gasPrice (g : N) (tx : Transaction) : Transaction :=
  {| tx_from := tx_from tx; tx_to := tx_to tx; tx_nonce := tx_nonce tx;
     tx_gas := tx_gas tx; tx_gasPrice := Some g;
     tx_value := tx_value tx; tx_data := tx_data tx; tx_hash := tx_hash tx;
     tx_execException := tx_execException tx |}.

Definition tx_with_nonce (n : N) (tx : Transaction) : Transaction :=
  {| tx_from := tx_from tx; tx_to := tx_to tx; tx_nonce := Some n;
     tx_gas := tx_gas tx; tx_gasPrice := tx_gasPrice tx;
     tx_value := tx_value tx; tx_data := tx_data tx; tx_hash := tx_hash tx;
     tx_execException := tx_execException tx |}.

Definition tx_with_hash (h : Hash) (tx : Transaction) : Transaction :=
  {| tx_from := tx_from tx; tx_to := tx_to tx; tx_nonce := tx_nonce tx;
     tx_gas := tx_gas tx; tx_gasPrice := tx_gasPrice tx;
     tx_value := tx_value tx; tx_data := tx_data tx; tx_hash := h;
     tx_execException := tx_execException tx |}.

Definition tx_with_execException (e : option RuntimeError) (tx : Transaction)
  : Transaction :=
  {| tx_from := tx_from tx; tx_to := tx_to tx; tx_nonce := tx_nonce tx;
     tx_gas := tx_gas tx; tx_gasPrice := tx_gasPrice tx;
     tx_value := tx_value tx; tx_data := tx_data tx; tx_hash := tx_hash tx;
     tx_execException := e |}.

Record Log := {
  log_address : Address;
  log_topics : list Buffer;
  log_data : Buffer
}.

Record Header := {
  hd_number : N;
  hd_parentHash : Hash;
  hd_stateRoot : Root;
  hd_miner : Address;
  hd_gasUsed : N;
  hd_timestamp : N;
  hd_totalDifficulty : N
}.

Record Block := {
  blk_header : Header;
  blk_hash : Hash;
  blk_transactions : list Transaction
}.

(** The block context handed to the EVM ([new RuntimeBlock(...)]). *)
Record RuntimeBlock := {
  rb_number : N;
  rb_parentHash : Hash;
  rb_coinbase : Address;
  rb_gasLimit : N;
  rb_gasUsed : N;
  rb_timestamp : N;
  rb_difficulty : N;
  rb_totalDifficulty : N
}.

Record Receipt := {
  rc_status : bool;
  rc_gasUsed : N;
  rc_logs : list Log;
  rc_blockNumber : N
}.

(** The [blockLogs] event payload. *)
Record BlockLogs := {
  bl_blockNumber : N;
  bl_logs : list Log
}.

(** Block references: the tags and explicit numbers. *)
Inductive Tag := EARLIEST | LATEST | PENDING.

Inductive BlockRef :=
  | ByTag (t : Tag)
  | ByNumber (n : N).

(** ** The state trie

    Account records are 4-tuples (nonce, balance, storage root, code hash);
    the byte-level encoding is a codec outside the engine, so the trie holds
    decoded values. *)

Record Account := {
  acc_nonce : N;
  acc_balance : N;
  acc_stateRoot : Root;
  acc_codeHash : Buffer
}.

Inductive TrieValue :=
  | AccountValue (a : Account)
  | StorageValue (v : Buffer).

(** Modelled from the spec: the trie class is not part of [api.ts].  Section
    4.1 describes a versioned key/value store addressed by root: a trie
    handle is a current [root] together with the key/value contents stored
    under every root it retains, and [copy] yields an independent mutable
    view. *)
Record Trie := {
  trie_root : Root;
  trie_db : gmap Root (gmap Buffer TrieValue)
}.

Definition Trie_contents (t : Trie) : gmap Buffer TrieValue :=
  default ∅ (trie_db t !! trie_root t).

Definition Trie_get (key : Buffer) (t : Trie) : option TrieValue :=
  Trie_contents t !! key.

Definition Trie_setRoot (r : Root) (t : Trie) : Trie :=
  {| trie_root := r; trie_db := trie_db t |}.

(** ** The EVM as a black box *)

Record RunArgs := {
  run_tx : Transaction;
  run_block : RuntimeBlock;
  run_skipBalance : bool;
  run_skipNonce : bool
}.

Record ExecResult := {
  res_returnValue : Buffer;
  res_gasUsed : N;
  res_exception : option RuntimeError;
  res_outOfGas : bool;
  res_logs : list Log
}.

(** Log filter options ([RangeFilterArgs]). *)
Record FilterArgs := {
  fa_fromBlock : option BlockRef;
  fa_toBlock : option BlockRef;
  fa_address : list Address;
  fa_topics : list (list Buffer)
}.

(** ** External collaborators

    What the API uses but does not define: hashing, the EVM interpreter, the
    message constants of [@ganache/ethereum-utils], and the filter-parsing
    helpers.  [runTx] returns [None] when the VM refuses to run the
    transaction against the given state (it fails validation); otherwise it
    returns the execution result and the state it leaves behind. *)
Class Collaborators := {
  rootOf : gmap Buffer TrieValue → Root;
  runTx : RunArgs → Trie → option (ExecResult * Trie);
  hashHeader : Header → Hash;
  signAndHash : Transaction → option Buffer → Hash;
  VM_EXCEPTION : string;
  VM_EXCEPTIONS : string;
  BlockLogs_filter : list Address → list (list Buffer) → BlockLogs → list Log;
  parseFilterRange : FilterArgs → N → N * N;
  (** what [blocks.get]/[blocks.getByHash] do for a missing block: reject
      with this error, or resolve with [null] when there is none *)
  headerNotFound : option JsError
}.

(** ** Engine state *)

(** Miner states of section 4.4. *)
Inductive MinerStatus := Idle | Mining | Paused.

(** A snapshot records (chain head, trie root, pool contents, clock). *)
Record Snapshot := {
  snap_head : nat;
  snap_root : Root;
  snap_pool : list Transaction;
  snap_clock : N
}.

(** The [Blockchain] object.  [heap] is the store of trie objects and [trie]
    the reference held in [blockchain.trie] (the canonical handle, which is
    also the state the VM commits to); [blocks] is the committed chain,
    genesis first, so that a block's number is its position; [inFlight] is
    the batch a mining operation has drained but not yet committed. *)
Record Blockchain := {
  heap : gmap Ref Trie;
  trie : Ref;
  coinbase : Address;
  blocks : list Block;
  pool : list Transaction;
  transactions : gmap Hash (Transaction * N);
  transactionReceipts : gmap Hash Receipt;
  snapshots : gmap N Snapshot;
  snapshotCounter : N;
  clock : N;
  status : MinerStatus;
  inFlight : option (list Transaction * option N)
}.

Record Wallet := {
  knownAccounts : gset Address;
  unlockedAccounts : gmap Address Buffer
}.

Record Options := {
  vmErrorsOnRPCResponse : bool;
  legacyInstamine : bool;
  blockTime : Z;
  callGasLimit : N;
  blockGasLimit : N;
  defaultTransactionGasLimit : option N;
  gasPrice : N;
  difficulty : N
}.

Inductive FilterTypes := FilterBlock | FilterPendingTransaction | FilterLog.

Inductive Update :=
  | UpdateHash (h : Hash)
  | UpdateLog (l : Log).

(** A registered filter: [{ updates, unsubscribe, filter, type }].  The
    [unsubscribe] closure is represented by membership in the filter table:
    events are delivered to the filters that are registered. *)
Record Filter := {
  flt_updates : list Update;
  flt_filter : option FilterArgs;
  flt_type : FilterTypes
}.

(** Everything an API call can read or write.  [filters] is keyed by the
    numeric value of the filter id (its hexadecimal rendering is one-to-one
    with it); [lastId] is the counter behind [#getId]; [logger] collects what
    is written to [options.logging.logger]. *)
Record World := {
  options : Options;
  wallet : Wallet;
  blockchain : Blockchain;
  filters : gmap N Filter;
  lastId : N;
  logger : list string
}.

Definition set_heap (h : gmap Ref Trie) (bc : Blockchain) : Blockchain :=
  {| heap := h; trie := trie bc; coinbase := coinbase bc; blocks := blocks bc;
     pool := pool bc; transactions := transactions bc;
     transactionReceipts := transactionReceipts bc;
     snapshots := snapshots bc; snapshotCounter := snapshotCounter bc;
     clock := clock bc; status := status bc; inFlight := inFlight bc |}.

Definition set_blocks (b : list Block) (bc : Blockchain) : Blockchain :=
  {| heap := heap bc; trie := trie bc; coinbase := coinbase bc; blocks := b;
     pool := pool bc; transactions := transactions bc;
     transactionReceipts := transactionReceipts bc;
     snapshots := snapshots bc; snapshotCounter := snapshotCounter bc;
     clock := clock bc; status := status bc; inFlight := inFlight bc |}.

Definition set_pool (p : list Transaction) (bc : Blockchain) : Blockchain :=
  {| heap := heap bc; trie := trie bc; coinbase := coinbase bc;
     blocks := blocks bc; pool := p; transactions := transactions bc;
     transactionReceipts := transactionReceipts bc;
     snapshots := snapshots bc; snapshotCounter := snapshotCounter bc;
     clock := clock bc; status := status bc; inFlight := inFlight bc |}.

Definition set_transactions (t : gmap Hash (Transaction * N))
    (r : gmap Hash Receipt) (bc : Blockchain) : Blockchain :=
  {| heap := heap bc; trie := trie bc; coinbase := coinbase bc;
     blocks := blocks bc; pool := pool bc; transactions := t;
     transactionReceipts := r;
     snapshots := snapshots bc; snapshotCounter := snapshotCounter bc;
     clock := clock bc; status := status bc; inFlight := inFlight bc |}.

Definition set_snapshots (s : gmap N Snapshot) (c : N) (bc : Blockchain)
  : Blockchain :=
  {| heap := heap bc; trie := trie bc; coinbase := coinbase bc;
     blocks := blocks bc; pool := pool bc; transactions := transactions bc;
     transactionReceipts := transactionReceipts bc;
     snapshots := s; snapshotCounter := c;
     clock := clock bc; status := status bc; inFlight := inFlight bc |}.

Definition set_clock (c : N) (bc : Blockchain) : Blockchain :=
  {| heap := heap bc; trie := trie bc; coinbase := coinbase bc;
     blocks := blocks bc; pool := pool bc; transactions := transactions bc;
     transactionReceipts := transactionReceipts bc;
     snapshots := snapshots bc; snapshotCounter := snapshotCounter bc;
     clock := c; status := status bc; inFlight := inFlight bc |}.

Definition set_status (s : MinerStatus) (bc : Blockchain) : Blockchain :=
  {| heap := heap bc; trie := trie bc; coinbase := coinbase bc;
     blocks := blocks bc; pool := pool bc; transactions := transactions bc;
     transactionReceipts := transactionReceipts bc;
     snapshots := snapshots bc; snapshotCounter := snapshotCounter bc;
     clock := clock bc; status := s; inFlight := inFlight bc |}.

Definition set_inFlight (j : option (list Transaction * option N))
    (bc : Blockchain) : Blockchain :=
  {| heap := heap bc; trie := trie bc; coinbase := coinbase bc;
     blocks := blocks bc; pool := pool bc; transactions := transactions bc;
     transactionReceipts := transactionReceipts bc;
     snapshots := snapshots bc; snapshotCounter := snapshotCounter bc;
     clock := clock bc; status := status bc; inFlight := j |}.

Definition set_blockchain (bc : Blockchain) (w : World) : World :=
  {| options := options w; wallet := wallet w; blockchain := bc;
     filters := filters w; lastId := lastId w; logger := logger w |}.

Definition set_filters (f : gmap N Filter) (w : World) : World :=
  {| options := options w; wallet := wallet w; blockchain := blockchain w;
     filters := f; lastId := lastId w; logger := logger w |}.

Definition set_lastId (i : N) (w : World) : World :=
  {| options := options w; wallet := wallet w; blockchain := blockchain w;
     filters := filters w; lastId := i; logger := logger w |}.

Definition set_logger (l : list string) (w : World) : World :=
  {| options := options w; wallet := wallet w; blockchain := blockchain w;
     filters := filters w; lastId := lastId w; logger := l |}.

(** ** The monad of API calls *)

Definition M (A : Type) : Type := World → Outcome A * World.

Definition ret {A} (a : A) : M A := λ w, (Resolved a, w).

Definition throw {A} (e : JsError) : M A := λ w, (Rejected e, w).

Definition bind {A B} (m : M A) (k : A → M B) : M B :=
  λ w, match m w with
       | (Resolved a, w') => k a w'
       | (Rejected e, w') => (Rejected e, w')
       end.

(** [promise.catch(_ => v)] *)
Definition catch {A} (m : M A) (v : A) : M A :=
  λ w, match m w with
       | (Resolved a, w') => (Resolved a, w')
       | (Rejected _, w') => (Resolved v, w')
       end.

Definition get_world : M World := λ w, (Resolved w, w).

Definition reads {A} (f : World → A) : M A := λ w, (Resolved (f w), w).

Definition modify (f : World → World) : M unit := λ w, (Resolved tt, f w).

Definition modify_bc (f : Blockchain → Blockchain) : M unit :=
  modify (λ w, set_blockchain (f (blockchain w)) w).

Declare Scope api_scope.
Delimit Scope api_scope with api.
Notation "x <- c1 ;; c2" := (bind c1 (λ x, c2))
  (at level 100, c1 at next level, right associativity) : api_scope.
Notation "c1 ;;; c2" := (bind c1 (λ _, c2))
  (at level 100, right associativity) : api_scope.
Open Scope api_scope.

(** The value an API call resolves with, and the state it leaves. *)
Definition result_of {A} (r : Outcome A * World) : Outcome A := fst r.
Definition world_of {A} (r : Outcome A * World) : World := snd r.

Definition lift {A} (o : Outcome A) : M A := λ w, (o, w).

(** [Array.prototype.forEach] with a callback that may throw, threading the
    variables the callback closes over. *)
Fixpoint forEach {S A} (f : S → A → Outcome S) (l : list A) (st : S)
  : Outcome S :=
  match l with
  | [] => Resolved st
  | x :: l' =>
      match f st x with
      | Resolved st' => forEach f l' st'
      | Rejected e => Rejected e
      end
  end.

(** The line feed character of the JavaScript literals. *)
Definition nl : string := String (ascii_of_nat 10) EmptyString.

(** [Quantity.from(n).toString()]: the hexadecimal rendering of a number. *)
Definition hexDigit (d : N) : ascii :=
  match d with
  | 0 => "0" | 1 => "1" | 2 => "2" | 3 => "3" | 4 => "4" | 5 => "5"
  | 6 => "6" | 7 => "7" | 8 => "8" | 9 => "9" | 10 => "a" | 11 => "b"
  | 12 => "c" | 13 => "d" | 14 => "e" | _ => "f"
  end%N%char.

Fixpoint hexDigits (fuel : nat) (n : N) (acc : string) : string :=
  match fuel with
  | O => acc
  | S fuel' =>
      let acc' := String (hexDigit (n mod 16)) acc in
      if (n / 16 =? 0)%N then acc' else hexDigits fuel' (n / 16) acc'
  end.

Definition Quantity_toString (n : N) : string :=
  "0x" +:+ hexDigits (S (N.to_nat (N.log2 n))) n EmptyString.

(** An identifier that [api.ts] uses but neither imports nor declares:
    evaluating it throws. *)
Definition undeclared {A} (name : string) : M A :=
  throw (new_ReferenceError (name +:+ " is not defined")).

(** [rlpDecode] is such an identifier: the import of [api.ts] from
    [@ganache/rlp] is of [decode] only.  A call throws when the callee is
    evaluated, before the argument is looked at. *)
Definition rlpDecode {A B} (data : A) : M B := undeclared "rlpDecode".

Section Engine.
Context {collab : Collaborators}.

(** *** Helpers of [api.ts] *)

(** The local variables of [assertExceptionalTransactions]; [errors] is
    declared without an initial value. *)
Record AssertVars := {
  baseError : option string;
  errors : option (list string);
  data : gmap string ExceptionData
}.

Definition assert_callback (v : AssertVars) (transaction : Transaction)
  : Outcome AssertVars :=
  match tx_execException transaction with
  | Some execException =>
      if Js.truthy (baseError v) then
        match errors v with
        | Some es =>
            Resolved
              {| baseError := Some VM_EXCEPTIONS;
                 errors := Some (es ++ [tx_hash transaction +:+ ": " +:+
                               RuntimeError_toString execException +:+ nl]);
                 data := <[ed_hash (exc_data execException) :=
                             exc_data execException]> (data v) |}
        | None =>
            Rejected (new_TypeError "Cannot read properties of undefined")
        end
      else
        Resolved
          {| baseError := Some VM_EXCEPTION;
             errors := Some [exc_message execException];
             data := <[ed_hash (exc_data execException) :=
                         exc_data execException]> (data v) |}
  | None => Resolved v
  end.

Definition assertExceptionalTransactions (transactions : list Transaction)
  : Outcome unit :=
  match forEach assert_callback transactions
          {| baseError := None; errors := None; data := ∅ |} with
  | Rejected e => Rejected e
  | Resolved v =>
      if Js.truthy (baseError v) then
        match baseError v, errors v with
        | Some b, Some es =>
            Rejected {| err_kind := PlainError;
                        err_message := b +:+ Js.join nl es;
                        err_data := data v |}
        | _, _ =>
            Rejected (new_TypeError "Cannot read properties of undefined")
        end
      else Resolved tt
  end.

(** *** The event bus and the listeners registered by the filter methods *)

Definition push (us : list Update) (f : Filter) : Filter :=
  {| flt_updates := flt_updates f ++ us;
     flt_filter := flt_filter f;
     flt_type := flt_type f |}.

(** Listener of [eth_newBlockFilter]: [value.updates.push(block.hash())]. *)
Definition on_block (block : Block) (f : Filter) : Filter :=
  match flt_type f with
  | FilterBlock => push [UpdateHash (blk_hash block)] f
  | _ => f
  end.

(** Listener of [eth_newPendingTransactionFilter]. *)
Definition on_pendingTransaction (transaction : Transaction) (f : Filter)
  : Filter :=
  match flt_type f with
  | FilterPendingTransaction => push [UpdateHash (tx_hash transaction)] f
  | _ => f
  end.

(** Listener of [eth_newFilter]: the range is re-read at every event. *)
Definition on_blockLogs (latest : N) (blockLogs : BlockLogs) (f : Filter)
  : Filter :=
  match flt_type f, flt_filter f with
  | FilterLog, Some filter =>
      let blockNumber := bl_blockNumber blockLogs in
      let '(fromBlock, toBlock) := parseFilterRange filter latest in
      if (fromBlock <=? blockNumber)%N && (blockNumber <=? toBlock)%N then
        push (UpdateLog <$>
                BlockLogs_filter (fa_address filter) (fa_topics filter)
                  blockLogs) f
      else f
  | _, _ => f
  end.

(** Events of the bus, delivered to every registered listener. *)
Inductive ChainEvent :=
  | EvBlock (b : Block)
  | EvBlockLogs (bl : BlockLogs)
  | EvPendingTransaction (tx : Transaction).

Definition latestNumber (bc : Blockchain) : N :=
  N.of_nat (length (blocks bc)) - 1.

Definition deliver (ev : ChainEvent) (w : World) (f : Filter) : Filter :=
  match ev with
  | EvBlock b => on_block b f
  | EvBlockLogs bl => on_blockLogs (latestNumber (blockchain w)) bl f
  | EvPendingTransaction tx => on_pendingTransaction tx f
  end.

Definition emit (ev : ChainEvent) : M unit :=
  modify (λ w, set_filters (deliver ev w <$> filters w) w).

(** *** The trie store *)

Definition Trie_empty : Trie := {| trie_root := []; trie_db := ∅ |}.

(** The object a reference points to. *)
Definition deref (r : Ref) (bc : Blockchain) : Trie :=
  default Trie_empty (heap bc !! r).

(** Modelled from the spec: the trie class is not part of [api.ts].
    [put(key, value, at-root) → new-root] of section 4.1: the contents
    under the current root, updated at [key], are stored under their own
    root, which becomes the current one; older roots stay readable. *)
Definition Trie_put (key : Buffer) (v : TrieValue) (t : Trie) : Trie :=
  let contents := <[key := v]> (Trie_contents t) in
  let r := rootOf contents in
  {| trie_root := r; trie_db := <[r := contents]> (trie_db t) |}.

(** Modelled from the spec: the trie class is not part of [api.ts].
    [copy] of section 4.1 returns an independent mutable view: a new
    object, with the root and contents of the original. *)
Definition Trie_copy (r : Ref) : M Ref :=
  λ w, let bc := blockchain w in
       let r' := fresh (dom (heap bc)) in
       (Resolved r',
        set_blockchain (set_heap (<[r' := deref r bc]> (heap bc)) bc) w).

(** Mutation of the object behind a reference. *)
Definition Trie_update (r : Ref) (f : Trie → Trie) : M unit :=
  modify_bc (λ bc, set_heap (<[r := f (deref r bc)]> (heap bc)) bc).

Definition Trie_read {A} (r : Ref) (f : Trie → A) : M A :=
  reads (λ w, f (deref r (blockchain w))).

(** Modelled from the spec: section 5 requires a view obtained by [copy]
    to be discarded after the call that requested it; the object leaves
    the store. *)
Definition Trie_discard (r : Ref) : M unit :=
  modify_bc (λ bc, set_heap (delete r (heap bc)) bc).

(** Modelled from the spec: the VM class is not part of [api.ts].  A VM is
    identified with the trie object holding its state; [blockchain.vm]
    commits to [blockchain.trie], and [vm.copy()] is a VM over a copy of
    that state (section 4.3). *)
Definition vm (bc : Blockchain) : Ref := trie bc.

Definition VM_copy (v : Ref) : M Ref := Trie_copy v.

(** Modelled from the spec: the VM class is not part of [api.ts].
    [vm.runTx(runArgs)] is the black box [execute(tx, state)] of section 1:
    the interpreter runs against, and mutates, the state object of this VM
    only. *)
Definition VM_runTx (v : Ref) (runArgs : RunArgs) : M (option ExecResult) :=
  t <- Trie_read v id;;
  match runTx runArgs t with
  | Some (res, t') => Trie_update v (λ _, t');;; ret (Some res)
  | None => ret None
  end.

(** *** The block, transaction and account managers *)

(** Modelled from the spec: the block manager is not part of [api.ts].
    Blocks are numbered contiguously from genesis; [pending] is served
    from the latest committed block. *)
Definition getEffectiveNumber (number : BlockRef) (bc : Blockchain) : N :=
  match number with
  | ByTag EARLIEST => 0
  | ByTag LATEST | ByTag PENDING => latestNumber bc
  | ByNumber n => n
  end.

Definition getRawByBlockNumber (n : N) : M (option Block) :=
  reads (λ w, blocks (blockchain w) !! N.to_nat n).

Definition blocks_getRaw (number : BlockRef) : M (option Block) :=
  n <- reads (λ w, getEffectiveNumber number (blockchain w));;
  getRawByBlockNumber n.

(** Modelled from the spec: the block manager is not part of [api.ts].
    [getBlock(number|hash) → header+body | absent] of section 6:
    [blocks.get] resolves with the block, and for a missing block either
    rejects or resolves with [null], as [headerNotFound] says. *)
Definition missingBlock : M (option Block) :=
  match headerNotFound with
  | Some e => throw e
  | None => ret None
  end.

Definition blocks_get (number : BlockRef) : M (option Block) :=
  block <- blocks_getRaw number;;
  match block with
  | Some b => ret (Some b)
  | None => missingBlock
  end.

Definition blocks_getByHash (hash : Hash) : M (option Block) :=
  block <- reads (λ w, List.find (λ b, bool_decide (blk_hash b = hash))
                         (blocks (blockchain w)));;
  match block with
  | Some b => ret (Some b)
  | None => missingBlock
  end.

(** Modelled from the spec: the transaction manager is not part of
    [api.ts].  [transactions.get(hash)] is the mined transaction with its
    block number, or [null]; receipts are kept one per mined transaction
    (section 3). *)
Definition transactions_get (hash : Hash) : M (option (Transaction * N)) :=
  reads (λ w, transactions (blockchain w) !! hash).

Definition transactionReceipts_get (hash : Hash) : M (option Receipt) :=
  reads (λ w, transactionReceipts (blockchain w) !! hash).

Definition transactionPool_find (hash : Hash) : M (option Transaction) :=
  reads (λ w, List.find (λ tx, bool_decide (tx_hash tx = hash))
                (pool (blockchain w))).

(** The account stored for [address] under state root [root]. *)
Definition accountAt (root : Root) (address : Address) (bc : Blockchain)
  : option Account :=
  match trie_db (deref (trie bc) bc) !! root ≫= (.!! address) with
  | Some (AccountValue a) => Some a
  | _ => None
  end.

(** Modelled from the spec: the account manager is not part of [api.ts].
    [getAccount(address, block-ref) → {balance, nonce}] of section 6 reads
    the account under the state root of the referenced block; an account
    that was never created reads as zero. *)
Definition accounts_get (address : Address) (blockNumber : BlockRef)
  : M (option Account) :=
  block <- blocks_getRaw blockNumber;;
  match block with
  | None => throw (new_Error "header not found")
  | Some b =>
      reads (λ w, accountAt (hd_stateRoot (blk_header b)) address
                    (blockchain w))
  end.

Definition accounts_getBalance (address : Address) (blockNumber : BlockRef)
  : M N :=
  a <- accounts_get address blockNumber;;
  ret (from_option acc_balance 0%N a).

Definition accounts_getNonce (address : Address) (blockNumber : BlockRef)
  : M N :=
  a <- accounts_get address blockNumber;;
  ret (from_option acc_nonce 0%N a).

(** *** The block producer *)

(** Modelled from the spec: the miner is not part of [api.ts].
    [drain(max_count) → ordered batch] of section 4.2; a negative count
    (the [-1] passed by [evm_mine]) takes everything the pool holds. *)
Definition drain (maxTransactions : Z) (p : list Transaction)
  : list Transaction * list Transaction :=
  if (maxTransactions <? 0)%Z then (p, [])
  else (take (Z.to_nat maxTransactions) p, drop (Z.to_nat maxTransactions) p).

(** Modelled from the spec: the miner is not part of [api.ts].  Steps
    (2)-(4) of section 4.4: each transaction of the batch is executed
    against the working state; one that fails validation is skipped and
    goes back to the pool; one that reverts is included, with its
    exception recorded. *)
Fixpoint processBatch (blk : RuntimeBlock) (batch : list Transaction)
    (working : Trie)
  : list (Transaction * ExecResult) * list Transaction * Trie :=
  match batch with
  | [] => ([], [], working)
  | tx :: rest =>
      match runTx {| run_tx := tx; run_block := blk;
                     run_skipBalance := false; run_skipNonce := false |}
              working with
      | None =>
          let '(included, skipped, final) := processBatch blk rest working in
          (included, tx :: skipped, final)
      | Some (res, working') =>
          let '(included, skipped, final) :=
            processBatch blk rest working' in
          ((tx_with_execException (res_exception res) tx, res) :: included,
           skipped, final)
      end
  end.

Definition receiptOf (number : N) (r : ExecResult) : Receipt :=
  {| rc_status := bool_decide (res_exception r = None);
     rc_gasUsed := res_gasUsed r;
     rc_logs := res_logs r;
     rc_blockNumber := number |}.

(** Modelled from the spec: the miner is not part of [api.ts].  Step (1)
    of section 4.4: the mining operation takes its batch from the pool. *)
Definition startMining (maxTransactions : Z) (timestamp : option N)
  : M unit :=
  modify_bc (λ bc,
    let '(batch, rest) := drain maxTransactions (pool bc) in
    set_inFlight (Some (batch, timestamp)) (set_pool rest bc)).

(** Modelled from the spec: the miner is not part of [api.ts].  Step (5)
    of section 4.4, after the batch has run: the header is assembled with
    timestamp [max(clock, parent.timestamp + 1)], the block is committed,
    the head advances, and [block] and [blockLogs] are published.  The
    operation resolves with the transactions of the block. *)
Definition finishMining : M (list Transaction) :=
  w <- get_world;;
  let bc := blockchain w in
  match inFlight bc with
  | None => ret []
  | Some (batch, timestamp) =>
      let parent := last (blocks bc) in
      let number := N.of_nat (length (blocks bc)) in
      let parentTimestamp :=
        from_option (λ b, hd_timestamp (blk_header b) + 1)%N 0%N parent in
      let ts := N.max (default (clock bc) timestamp) parentTimestamp in
      let parentHash := from_option blk_hash EmptyString parent in
      let rb := {| rb_number := number; rb_parentHash := parentHash;
                   rb_coinbase := coinbase bc;
                   rb_gasLimit := blockGasLimit (options w);
                   rb_gasUsed := 0; rb_timestamp := ts;
                   rb_difficulty := difficulty (options w);
                   rb_totalDifficulty :=
                     from_option (λ b, hd_totalDifficulty (blk_header b))
                       0%N parent |} in
      let '(included, skipped, final) :=
        processBatch rb batch (deref (trie bc) bc) in
      let header :=
        {| hd_number := number; hd_parentHash := parentHash;
           hd_stateRoot := trie_root final; hd_miner := coinbase bc;
           hd_gasUsed := foldr (λ ir g, res_gasUsed ir.2 + g)%N 0%N included;
           hd_timestamp := ts;
           hd_totalDifficulty :=
             (rb_totalDifficulty rb + difficulty (options w))%N |} in
      let block := {| blk_header := header; blk_hash := hashHeader header;
                      blk_transactions := included.*1 |} in
      modify_bc (λ bc,
        set_inFlight None
          (set_transactions
             (foldr (λ ir m, <[tx_hash ir.1 := (ir.1, number)]> m)
                (transactions bc) included)
             (foldr (λ ir m, <[tx_hash ir.1 := receiptOf number ir.2]> m)
                (transactionReceipts bc) included)
             (set_pool (skipped ++ pool bc)
                (set_blocks (blocks bc ++ [block])
                   (set_heap (<[trie bc := final]> (heap bc)) bc)))));;;
      emit (EvBlock block);;;
      emit (EvBlockLogs {| bl_blockNumber := number;
                           bl_logs := included ≫= (λ ir, res_logs ir.2) |});;;
      ret (included.*1)
  end.

(** [blockchain.mine(maxTransactions, timestamp, true)]: one block. *)
Definition mine (maxTransactions : Z) (timestamp : option N)
  : M (list Transaction) :=
  startMining maxTransactions timestamp;;;
  finishMining.

(** Modelled from the spec: the miner is not part of [api.ts].  Section
    4.4: [start] takes the miner from idle or paused to mining, and a
    second [start] while mining does nothing.  With immediate mining
    ([blockTime <= 0]) the transactions queued meanwhile are mined at once
    and handed back. *)
Definition resume (threads : N) : M (option (list Transaction)) :=
  w <- get_world;;
  match status (blockchain w) with
  | Mining => ret None
  | _ =>
      modify_bc (set_status Mining);;;
      match pool (blockchain w) with
      | _ :: _ =>
          if (blockTime (options w) <=? 0)%Z then
            txs <- mine (-1) None;;
            ret (Some txs)
          else ret None
      | [] => ret None
      end
  end.

(** Modelled from the spec: the miner is not part of [api.ts].  Section
    4.4: [stop] takes the miner from mining to paused; it only prevents
    future triggers, so an operation in flight is left alone. *)
Definition pause : M unit :=
  modify_bc (λ bc,
    match status bc with
    | Mining => set_status Paused bc
    | _ => bc
    end).

Definition isStarted : M bool :=
  reads (λ w, match status (blockchain w) with Mining => true | _ => false end).

(** *** The snapshot manager *)

(** Modelled from the spec: the snapshot manager is not part of [api.ts].
    Section 4.5: the id is the next value of a monotonically increasing
    counter, and the snapshot records (head, root, pool contents, clock). *)
Definition snapshot : M N :=
  w <- get_world;;
  let bc := blockchain w in
  let id := (snapshotCounter bc + 1)%N in
  modify_bc (set_snapshots
               (<[id := {| snap_head := length (blocks bc);
                           snap_root := trie_root (deref (trie bc) bc);
                           snap_pool := pool bc;
                           snap_clock := clock bc |}]> (snapshots bc))
               id);;;
  ret id.

(** Modelled from the spec: the snapshot manager is not part of [api.ts].
    What a successful revert does to the engine: the recorded tuple is put
    back, the chain is cut at the recorded head together with the
    transactions and receipts of the blocks cut off, and the snapshots from
    [id] on are dropped. *)
Definition restore (id : N) (s : Snapshot) (bc : Blockchain) : Blockchain :=
  let head := N.of_nat (snap_head s) in
  set_snapshots (filter (λ kv, (kv.1 < id)%N) (snapshots bc))
    (snapshotCounter bc)
    (set_clock (snap_clock s)
       (set_transactions
          (filter (λ kv, (kv.2.2 < head)%N) (transactions bc))
          (filter (λ kv, (rc_blockNumber kv.2 < head)%N)
             (transactionReceipts bc))
          (set_pool (snap_pool s)
             (set_blocks (take (snap_head s) (blocks bc))
                (set_heap
                   (<[trie bc := Trie_setRoot (snap_root s)
                                   (deref (trie bc) bc)]> (heap bc))
                   bc))))).

(** Modelled from the spec: the snapshot manager is not part of [api.ts].
    Section 4.5: [revert] returns [false] for an unknown id; otherwise it
    restores the recorded tuple, discards every snapshot with an id at
    least the reverted one and the blocks mined after the snapshot. *)
Definition revert (id : N) : M bool :=
  w <- get_world;;
  match snapshots (blockchain w) !! id with
  | None => ret false
  | Some s => modify_bc (restore id s);;; ret true
  end.

(** *** The transaction pool *)

Definition latestStateRoot (bc : Blockchain) : Root :=
  from_option (λ b, hd_stateRoot (blk_header b))
    (trie_root (deref (trie bc) bc)) (last (blocks bc)).

(** Modelled from the spec: the pool is not part of [api.ts].  Section
    4.2, validation on submit: the sender must be known, the nonce must not
    be below the sender's next nonce in the committed state, the gas price
    must meet the floor, the gas limit must not exceed the block gas limit
    and the balance must cover the cost.  A rejected transaction never
    enters the pool.  An accepted one is appended, [pendingTransaction] is
    published, and, by section 5, the call returns the hash as soon as the
    transaction is queued, not after it is mined. *)
Definition queueTransaction (transaction : Transaction)
    (secretKey : option Buffer) : M Hash :=
  w <- get_world;;
  let bc := blockchain w in
  match tx_from transaction with
  | None => throw (new_Error "invalid-signature")
  | Some sender =>
      let account := accountAt (latestStateRoot bc) sender bc in
      let expected := from_option acc_nonce 0%N account in
      let balance := from_option acc_balance 0%N account in
      let nonce := default expected (tx_nonce transaction) in
      let gas := default 0%N (tx_gas transaction) in
      let price := default 0%N (tx_gasPrice transaction) in
      let value := default 0%N (tx_value transaction) in
      if (nonce <? expected)%N then throw (new_Error "nonce-too-low")
      else if (price <? gasPrice (options w))%N then
        throw (new_Error "transaction underpriced")
      else if (blockGasLimit (options w) <? gas)%N then
        throw (new_Error "gas-limit-exceeded")
      else if (balance <? gas * price + value)%N then
        throw (new_Error "insufficient-funds")
      else
        let tx := tx_with_nonce nonce transaction in
        let tx := tx_with_hash (signAndHash tx secretKey) tx in
        modify_bc (λ bc, set_pool (pool bc ++ [tx]) bc);;;
        emit (EvPendingTransaction tx);;;
        ret (tx_hash tx)
  end.

(** *** The execution simulator *)

(** The object literal built by [eth_call]. *)
Record SimulatedTransaction := {
  sim_gas : N;
  sim_from : Address;
  sim_to : option Address;
  sim_gasPrice : N;
  sim_value : option N;
  sim_data : option Buffer;
  sim_block : RuntimeBlock
}.

Definition runArgsOf (s : SimulatedTransaction) : RunArgs :=
  {| run_tx := {| tx_from := Some (sim_from s); tx_to := sim_to s;
                  tx_nonce := None; tx_gas := Some (sim_gas s);
                  tx_gasPrice := Some (sim_gasPrice s);
                  tx_value := sim_value s; tx_data := sim_data s;
                  tx_hash := EmptyString; tx_execException := None |};
     run_block := sim_block s;
     run_skipBalance := true; run_skipNonce := true |}.

Definition errorOf (e : RuntimeError) : JsError :=
  {| err_kind := PlainError; err_message := exc_message e;
     err_data := {[ ed_hash (exc_data e) := exc_data e ]} |}.

(** Modelled from the spec: the simulator is not part of [api.ts].
    Section 4.3: [call] operates on a private copy of the trie, set to the
    state of the parent block, and discards it after use; it returns the
    return data or fails with the revert reason. *)
Definition simulateTransaction (transaction : SimulatedTransaction)
    (parentBlock : Block) : M Buffer :=
  bc <- reads blockchain;;
  stateTrie <- Trie_copy (trie bc);;
  Trie_update stateTrie
    (Trie_setRoot (hd_stateRoot (blk_header parentBlock)));;;
  result <- VM_runTx stateTrie (runArgsOf transaction);;
  Trie_discard stateTrie;;;
  match result with
  | None => throw (new_Error "invalid transaction")
  | Some res =>
      match res_exception res with
      | Some e => throw (errorOf e)
      | None => ret (res_returnValue res)
      end
  end.

Definition runArgs_with_gas (g : N) (a : RunArgs) : RunArgs :=
  {| run_tx := tx_with_gas g (run_tx a); run_block := run_block a;
     run_skipBalance := run_skipBalance a;
     run_skipNonce := run_skipNonce a |}.

(** Modelled from the spec: [helpers/gas-estimator] is not under [src/].
    One trial of the estimator: a VM from [generateVM], one execution at
    the candidate gas limit, and the VM is discarded. *)
Definition trial (generateVM : M Ref) (runArgs : RunArgs) (g : N)
  : M (option ExecResult) :=
  v <- generateVM;;
  result <- VM_runTx v (runArgs_with_gas g runArgs);;
  Trie_discard v;;;
  ret result.

Definition ranOutOfGas (result : option ExecResult) : bool :=
  match result with
  | Some res => res_outOfGas res
  | None => true
  end.

(** Modelled from the spec: [helpers/gas-estimator] is not under [src/].
    Section 4.3: a binary search over candidate gas limits, re-running the
    execution at each candidate; [lo] is known to run out of gas and [hi]
    is known not to. *)
Fixpoint binarySearch (fuel : nat) (generateVM : M Ref) (runArgs : RunArgs)
    (lo hi : N) : M N :=
  match fuel with
  | O => ret hi
  | S fuel' =>
      if (lo + 1 <? hi)%N then
        let mid := ((lo + hi) / 2)%N in
        result <- trial generateVM runArgs mid;;
        if ranOutOfGas result
        then binarySearch fuel' generateVM runArgs mid hi
        else binarySearch fuel' generateVM runArgs lo mid
      else ret hi
  end.

(** Modelled from the spec: [helpers/gas-estimator] is not under [src/].
    The first run, at the gas ceiling of the transaction, surfaces a
    revert (its reason) or an out-of-gas failure; otherwise the search
    narrows down the least sufficient limit. *)
Definition estimateGas (generateVM : M Ref) (runArgs : RunArgs) : M N :=
  let ceiling := default 0%N (tx_gas (run_tx runArgs)) in
  result <- trial generateVM runArgs ceiling;;
  match result with
  | None => throw (new_Error "invalid transaction")
  | Some res =>
      match res_exception res with
      | Some e => throw (errorOf e)
      | None =>
          if res_outOfGas res then throw (new_Error "out of gas")
          else binarySearch (S (N.to_nat (N.log2 ceiling) + 1))
                 generateVM runArgs 0 ceiling
      end
  end.

(** *** Codecs used by the API *)

(** Modelled from the spec: the transaction factory is not part of
    [api.ts].  It builds the transaction object of section 3 from the RPC
    call object; an absent [gas] leaves a null gas quantity. *)
Definition TransactionFactory_fromRpc (t : RpcTransaction) : Transaction :=
  {| tx_from := rpc_from t; tx_to := rpc_to t; tx_nonce := rpc_nonce t;
     tx_gas := match rpc_gas t with Some g => Some g | None => rpc_gasLimit t end;
     tx_gasPrice := rpc_gasPrice t; tx_value := rpc_value t;
     tx_data := match rpc_data t with Some d => Some d | None => rpc_input t end;
     tx_hash := EmptyString; tx_execException := None |}.

(** The root under which nothing is stored. *)
Definition EMPTY_TRIE_ROOT : Root := rootOf ∅.

(** [decode(addressData)[2]] assigned to a trie root: the storage root
    of the account record; decoding a missing record yields no third
    entry, and a trie given no root falls back to the empty one. *)
Definition decodeStateRoot (addressData : option TrieValue) : Root :=
  match addressData with
  | Some (AccountValue a) => acc_stateRoot a
  | _ => EMPTY_TRIE_ROOT
  end.

(** [Data.from(decode(value))] for a storage word; nothing stored decodes
    to the empty buffer. *)
Definition decodeWord (value : option TrieValue) : Buffer :=
  match value with
  | Some (StorageValue v) => v
  | _ => []
  end.

(** Storage locations are 32 bytes wide: a shorter position is padded on
    the left with zeros, a longer one keeps its last 32 bytes. *)
Definition padPosition (posBuff : Buffer) : Buffer :=
  let len := length posBuff in
  if len <? 32 then replicate (32 - len) x00 ++ posBuff
  else if len =? 32 then posBuff
  else drop (len - 32) posBuff.

Inductive TransactionJSON :=
  | FullTransaction (tx : Transaction)
  | TransactionHash (h : Hash).

(** [block.toJSON(includeFullTransactions)] *)
Record BlockJSON := {
  json_header : Header;
  json_hash : Hash;
  json_transactions : list TransactionJSON
}.

Definition Block_toJSON (includeFullTransactions : bool) (b : Block)
  : BlockJSON :=
  {| json_header := blk_header b; json_hash := blk_hash b;
     json_transactions :=
       if includeFullTransactions
       then FullTransaction <$> blk_transactions b
       else (λ tx, TransactionHash (tx_hash tx)) <$> blk_transactions b |}.

(** [receipt.toJSON(block, transaction)] *)
Record ReceiptJSON := {
  rj_receipt : Receipt;
  rj_block : option Block;
  rj_transaction : Transaction
}.

(** A call that is not awaited: its effects happen, its outcome is
    dropped. *)
Definition detached {A} (m : M A) : M unit :=
  λ w, (Resolved tt, snd (m w)).

(** *** [evm] namespace *)

(** The argument of [evm_mine]: absent, a timestamp, or an options
    object. *)
Inductive MineArg :=
  | NoArg
  | TimestampArg (timestamp : N)
  | OptionsArg (timestamp : option N) (blocks : option Z).

(** The body of the [for] loop of [evm_mine], [n] iterations to go. *)
Fixpoint mineLoop (vmErrorsOnRPCResponse : bool) (timestamp : option N)
    (n : nat) : M unit :=
  match n with
  | O => ret tt
  | S n' =>
      transactions <- mine (-1) timestamp;;
      (if vmErrorsOnRPCResponse
       then lift (assertExceptionalTransactions transactions)
       else ret tt);;;
      mineLoop vmErrorsOnRPCResponse timestamp n'
  end.

Definition evm_mine (arg : MineArg) : M string :=
  w <- get_world;;
  let vmErrorsOnRPCResponse := vmErrorsOnRPCResponse (options w) in
  match arg with
  | OptionsArg timestamp blocks =>
      let blocks := default 1%Z blocks in
      mineLoop vmErrorsOnRPCResponse timestamp (Z.to_nat blocks);;;
      ret "0x0"
  | _ =>
      let timestamp :=
        match arg with TimestampArg t => Some t | _ => None end in
      transactions <- mine (-1) timestamp;;
      (if vmErrorsOnRPCResponse
       then lift (assertExceptionalTransactions transactions)
       else ret tt);;;
      ret "0x0"
  end.

(** [blockchain.getFromTrie(trie, address)] *)
Definition getFromTrie (t : Ref) (address : Address) : M (option TrieValue) :=
  Trie_read t (Trie_get address).

(** The local variable [trie] of the source, the private copy, is
    [trieCopy] here; [trie bc] is [this.#blockchain.trie]. *)
Definition evm_setStorageAt (address : Address) (position : Buffer)
    (storage : Buffer) (blockNumber : BlockRef) : M unit :=
  bc <- reads blockchain;;
  trieCopy <- Trie_copy (trie bc);;
  block <- blocks_getRaw blockNumber;;
  match block with
  | None => throw (new_Error "header not found")
  | Some block =>
      blockData <- rlpDecode block;;
      let blockStateRoot := hd_stateRoot (blk_header blockData) in
      Trie_update trieCopy (Trie_setRoot blockStateRoot);;;
      addressData <- getFromTrie trieCopy address;;
      let paddedPosBuff := padPosition position in
      addressData <- rlpDecode addressData;;
      Trie_update (trie bc) (Trie_setRoot (decodeStateRoot addressData));;;
      Trie_update (trie bc) (Trie_put paddedPosBuff (StorageValue storage))
  end.

Definition evm_revert (snapshotId : N) : M bool := revert snapshotId.

Definition evm_snapshot : M N := snapshot.

(** *** [miner] namespace *)

Definition miner_start (threads : N) : M bool :=
  w <- get_world;;
  (if legacyInstamine (options w) then
     transactions <- resume threads;;
     match transactions with
     | Some txs =>
         if vmErrorsOnRPCResponse (options w)
         then lift (assertExceptionalTransactions txs)
         else ret tt
     | None => ret tt
     end
   else detached (resume threads));;;
  ret true.

Definition miner_stop : M bool :=
  pause;;;
  ret true.

(** *** [eth] namespace *)

Definition nullHeader {A} : M A :=
  throw (new_TypeError "Cannot read properties of null (reading 'header')").

Definition eth_estimateGas (transaction : RpcTransaction)
    (blockNumber : BlockRef) : M N :=
  w <- get_world;;
  let bc := blockchain w in
  parentBlock <- blocks_get blockNumber;;
  match parentBlock with
  | None => nullHeader
  | Some parentBlock =>
      let parentHeader := blk_header parentBlock in
      let options := options w in
      let generateVM := (b <- reads blockchain;; VM_copy (vm b)) in
      let tx := TransactionFactory_fromRpc transaction in
      let tx := match tx_from tx with
                | None => tx_with_from (coinbase bc) tx
                | Some _ => tx
                end in
      let tx := match tx_gas tx with
                | None => tx_with_gas (callGasLimit options) tx
                | Some _ => tx
                end in
      let block :=
        {| rb_number := (hd_number parentHeader + 1)%N;
           rb_parentHash := hd_parentHash parentHeader;
           rb_coinbase := hd_miner parentHeader;
           rb_gasLimit := default 0%N (tx_gas tx);
           rb_gasUsed := hd_gasUsed parentHeader;
           rb_timestamp := hd_timestamp parentHeader;
           rb_difficulty := difficulty options;
           rb_totalDifficulty := hd_totalDifficulty parentHeader |} in
      let runArgs := {| run_tx := tx; run_block := block;
                        run_skipBalance := true; run_skipNonce := true |} in
      estimateGas generateVM runArgs
  end.

Definition eth_getBlockByNumber (number : BlockRef) (transactions : bool)
  : M (option BlockJSON) :=
  block <- catch (blocks_get number) None;;
  ret (match block with
       | Some block => Some (Block_toJSON transactions block)
       | None => None
       end).

Definition eth_getBlockByHash (hash : Hash) (transactions : bool)
  : M (option BlockJSON) :=
  block <- catch (blocks_getByHash hash) None;;
  ret (match block with
       | Some block => Some (Block_toJSON transactions block)
       | None => None
       end).

Definition eth_getTransactionByBlockHashAndIndex (hash : Hash) (index : N)
  : M (option TransactionJSON) :=
  block <- eth_getBlockByHash hash true;;
  match block with
  | Some block =>
      match json_transactions block !! N.to_nat index with
      | Some tx => ret (Some tx)
      | None => ret None
      end
  | None => ret None
  end.

Definition eth_getTransactionByBlockNumberAndIndex (number : BlockRef)
    (index : N) : M (option TransactionJSON) :=
  block <- eth_getBlockByNumber number true;;
  match block with
  | Some block =>
      ret (match Js.parseInt (Quantity_toString index) with
           | Some i => json_transactions block !! N.to_nat i
           | None => None
           end)
  | None =>
      throw (new_TypeError
               "Cannot read properties of null (reading 'transactions')")
  end.

Definition eth_getBalance (address : Address) (blockNumber : BlockRef)
  : M N :=
  accounts_getBalance address blockNumber.

Definition eth_getTransactionCount (address : Address)
    (blockNumber : BlockRef) : M N :=
  accounts_getNonce address blockNumber.

Definition eth_getStorageAt (address : Address) (position : Buffer)
    (blockNumber : BlockRef) : M Buffer :=
  bc <- reads blockchain;;
  let blockNum := getEffectiveNumber blockNumber bc in
  block <- getRawByBlockNumber blockNum;;
  match block with
  | None => throw (new_Error "header not found")
  | Some block =>
      let blockStateRoot := hd_stateRoot (blk_header block) in
      trieCopy <- Trie_copy (trie bc);;
      Trie_update trieCopy (Trie_setRoot blockStateRoot);;;
      let paddedPosBuff := padPosition position in
      addressData <- Trie_read trieCopy (Trie_get address);;
      let addressStateRoot := decodeStateRoot addressData in
      Trie_update trieCopy (Trie_setRoot addressStateRoot);;;
      value <- Trie_read trieCopy (Trie_get paddedPosBuff);;
      ret (decodeWord value)
  end.

Definition notMinedNotice (hash : Hash) : string :=
  " > Ganache `eth_getTransactionReceipt` notice: the transaction with hash"
  +:+ nl +:+ " > `" +:+ hash +:+ "` has not" +:+ nl +:+
  " > yet been mined. See https://trfl.co/v7-instamine for additional information.".

Definition eth_getTransactionReceipt (transactionHash : Hash)
  : M (option ReceiptJSON) :=
  let txHash := transactionHash in
  transaction <- transactions_get txHash;;
  receipt <- transactionReceipts_get txHash;;
  block <- match transaction with
           | Some t => blocks_get (ByNumber t.2)
           | None => ret None
           end;;
  match transaction with
  | Some t =>
      match receipt with
      | Some r =>
          ret (Some {| rj_receipt := r; rj_block := block;
                       rj_transaction := t.1 |})
      | None =>
          throw (new_TypeError
                   "Cannot read properties of null (reading 'toJSON')")
      end
  | None =>
      w <- get_world;;
      let options := options w in
      started <- isStarted;;
      (if (blockTime options <=? 0)%Z && negb (legacyInstamine options)
          && started then
         tx <- transactionPool_find txHash;;
         match tx with
         | Some _ =>
             modify (λ w, set_logger
                            (logger w ++ [notMinedNotice transactionHash]) w)
         | None => ret tt
         end
       else ret tt);;;
      ret None
  end.

Definition eth_sendTransaction (transaction : RpcTransaction) : M Hash :=
  let tx := TransactionFactory_fromRpc transaction in
  match tx_from tx with
  | None => throw (new_Error "from not found; is required")
  | Some fromString =>
      w <- get_world;;
      let wallet := wallet w in
      let isKnownAccount := bool_decide (fromString ∈ knownAccounts wallet) in
      let isUnlockedAccount :=
        bool_decide (is_Some (unlockedAccounts wallet !! fromString)) in
      if negb isUnlockedAccount then
        let msg := if isKnownAccount
                   then "authentication needed: password or unlock"
                   else "sender account not recognized" in
        throw (new_Error msg)
      else
        tx <- match tx_gas tx with
              | None =>
                  match defaultTransactionGasLimit (options w) with
                  | None =>
                      g <- eth_estimateGas transaction (ByTag LATEST);;
                      ret (tx_with_gas g tx)
                  | Some defaultLimit => ret (tx_with_gas defaultLimit tx)
                  end
              | Some _ => ret tx
              end;;
        let tx := match tx_gasPrice tx with
                  | None => tx_with_gasPrice (gasPrice (options w)) tx
                  | Some _ => tx
                  end in
        if isUnlockedAccount then
          let secretKey := unlockedAccounts wallet !! fromString in
          queueTransaction tx secretKey
        else queueTransaction tx None
  end.

(** [#getId]: pre-increment of the shared counter. *)
Definition getId : M N :=
  modify (λ w, set_lastId (lastId w + 1)%N w);;;
  reads lastId.

Definition registerFilter (value : Filter) : M N :=
  filterId <- getId;;
  modify (λ w, set_filters (<[filterId := value]> (filters w)) w);;;
  ret filterId.

Definition eth_newBlockFilter : M N :=
  registerFilter {| flt_updates := []; flt_filter := None;
                    flt_type := FilterBlock |}.

Definition eth_newPendingTransactionFilter : M N :=
  registerFilter {| flt_updates := []; flt_filter := None;
                    flt_type := FilterPendingTransaction |}.

Definition eth_newFilter (filter : FilterArgs) : M N :=
  registerFilter {| flt_updates := []; flt_filter := Some filter;
                    flt_type := FilterLog |}.

Definition eth_getFilterChanges (filterId : N) : M (list Update) :=
  w <- get_world;;
  match filters w !! filterId with
  | Some filter =>
      let updates := flt_updates filter in
      modify (λ w, set_filters
                     (<[filterId := {| flt_updates := [];
                                       flt_filter := flt_filter filter;
                                       flt_type := flt_type filter |}]>
                        (filters w)) w);;;
      ret updates
  | None => throw (new_Error "filter not found")
  end.

Definition eth_uninstallFilter (filterId : N) : M bool :=
  w <- get_world;;
  match filters w !! filterId with
  | None => ret false
  | Some _ =>
      modify (λ w, set_filters (delete filterId (filters w)) w);;;
      ret true
  end.

Definition eth_call (transaction : RpcTransaction) (blockNumber : BlockRef)
  : M Buffer :=
  w <- get_world;;
  let bc := blockchain w in
  parentBlock <- blocks_get blockNumber;;
  match parentBlock with
  | None => nullHeader
  | Some parentBlock =>
      let parentHeader := blk_header parentBlock in
      let options := options w in
      let gas := match rpc_gasLimit transaction with
                 | None =>
                     match rpc_gas transaction with
                     | Some g => g
                     | None => callGasLimit options
                     end
                 | Some g => g
                 end in
      let data := match rpc_data transaction with
                  | None => rpc_input transaction
                  | Some d => Some d
                  end in
      let block :=
        {| rb_number := hd_number parentHeader;
           rb_parentHash := hd_parentHash parentHeader;
           rb_coinbase := coinbase bc;
           rb_gasLimit := gas;
           rb_gasUsed := hd_gasUsed parentHeader;
           rb_timestamp := hd_timestamp parentHeader;
           rb_difficulty := difficulty options;
           rb_totalDifficulty := hd_totalDifficulty parentHeader |} in
      let simulatedTransaction :=
        {| sim_gas := gas;
           sim_from := default (coinbase bc) (rpc_from transaction);
           sim_to := rpc_to transaction;
           sim_gasPrice := default 0%N (rpc_gasPrice transaction);
           sim_value := rpc_value transaction;
           sim_data := data;
           sim_block := block |} in
      simulateTransaction simulatedTransaction parentBlock
  end.

End Engine.

(** ** A concrete engine

    One instance of the collaborators and a few engine states, used to run
    the API on concrete inputs. *)

Module Sample.

(** The root of a node set: here, the keys it holds, one after another. *)
Definition keysRoot (m : gmap Buffer TrieValue) : Root :=
  (map_to_list m).*1 ≫= id.

Definition revertError (tx : Transaction) : RuntimeError :=
  {| exc_name := "RuntimeError";
     exc_message := "VM Exception while processing transaction: revert";
     exc_data := {| ed_hash := tx_hash tx; ed_programCounter := 0;
                    ed_reason := None; ed_message := "revert" |} |}.

(** A small interpreter: a transaction without gas is refused; one whose
    data starts with [0xff] reverts; one whose gas is below 21000 runs out
    of gas; every execution that is not refused bumps the nonce of the
    sender in the state it runs against. *)
Definition interpreter (a : RunArgs) (t : Trie) : option (ExecResult * Trie) :=
  let tx := run_tx a in
  match tx_gas tx with
  | None => None
  | Some g =>
      let sender := default [] (tx_from tx) in
      let old := match Trie_get sender t with
                 | Some (AccountValue acc) => acc
                 | _ => {| acc_nonce := 0; acc_balance := 0;
                           acc_stateRoot := []; acc_codeHash := [] |}
                 end in
      let contents :=
        <[sender := AccountValue
                      {| acc_nonce := acc_nonce old + 1;
                         acc_balance := acc_balance old;
                         acc_stateRoot := acc_stateRoot old;
                         acc_codeHash := acc_codeHash old |}]>
          (Trie_contents t) in
      let t' := {| trie_root := keysRoot contents;
                   trie_db := <[keysRoot contents := contents]> (trie_db t) |} in
      let reverts := match tx_data tx with
                     | Some (xff :: _) => true
                     | _ => false
                     end in
      Some ({| res_returnValue := [];
               res_gasUsed := N.min g 21000;
               res_exception :=
                 if reverts then Some (revertError tx) else None;
               res_outOfGas := (g <? 21000)%N;
               res_logs := [] |}, t')
  end.

Definition digits (n : N) : string := pretty n.

#[export] Instance collaborators : Collaborators := {|
  rootOf := keysRoot;
  runTx := interpreter;
  hashHeader := λ h, "0xb" +:+ digits (hd_number h);
  signAndHash := λ tx _, "0xa" +:+ digits (default 0%N (tx_nonce tx));
  VM_EXCEPTION := "VM Exception while processing transaction: ";
  VM_EXCEPTIONS :=
    "Multiple VM Exceptions while processing transactions: : " +:+ nl +:+ nl;
  BlockLogs_filter := λ addresses _ bl,
    filter (λ l, log_address l ∈ addresses) (bl_logs bl);
  parseFilterRange := λ _ latest, (0%N, latest);
  headerNotFound := Some (new_Error "header not found")
|}.

Definition alice : Address := [x0a].
Definition bob : Address := [x0b].

Definition genesis : Block :=
  let header := {| hd_number := 0; hd_parentHash := EmptyString;
                   hd_stateRoot := keysRoot ∅; hd_miner := [];
                   hd_gasUsed := 0; hd_timestamp := 0;
                   hd_totalDifficulty := 0 |} in
  {| blk_header := header; blk_hash := hashHeader header;
     blk_transactions := [] |}.

Definition transfer (data : option Buffer) (nonce : N) : Transaction :=
  {| tx_from := Some alice; tx_to := Some bob; tx_nonce := Some nonce;
     tx_gas := Some 21000%N; tx_gasPrice := Some 0%N; tx_value := None;
     tx_data := data; tx_hash := "0xa" +:+ digits nonce;
     tx_execException := None |}.

(** A call object from the given sender to [bob], everything else left
    out. *)
Definition callFrom (sender : option Address) : RpcTransaction :=
  {| rpc_from := sender; rpc_to := Some bob; rpc_gas := None;
     rpc_gasLimit := None; rpc_gasPrice := None; rpc_value := None;
     rpc_data := None; rpc_input := None; rpc_nonce := None |}.

(** A chain holding the genesis block only, with the given pool. *)
Definition chain (p : list Transaction) : Blockchain :=
  {| heap := {[ 1%positive :=
                 {| trie_root := keysRoot ∅;
                    trie_db := {[ keysRoot ∅ := ∅ ]} |} ]};
     trie := 1%positive; coinbase := []; blocks := [genesis]; pool := p;
     transactions := ∅; transactionReceipts := ∅; snapshots := ∅;
     snapshotCounter := 0; clock := 100; status := Mining;
     inFlight := None |}.

Definition world (strict : bool) (p : list Transaction) : World :=
  {| options := {| vmErrorsOnRPCResponse := strict;
                   legacyInstamine := false; blockTime := 0;
                   callGasLimit := 1000000; blockGasLimit := 6000000;
                   defaultTransactionGasLimit := Some 90000%N;
                   gasPrice := 0; difficulty := 1 |};
     wallet := {| knownAccounts := {[ alice; bob ]};
                  unlockedAccounts := {[ alice := [x01] ]} |};
     blockchain := chain p;
     filters := ∅; lastId := 0; logger := [] |}.

End Sample.

(** * Further methods of the API *)

Definition set_gasPrice (p : N) (o : Options) : Options :=
  {| vmErrorsOnRPCResponse := vmErrorsOnRPCResponse o;
     legacyInstamine := legacyInstamine o; blockTime := blockTime o;
     callGasLimit := callGasLimit o; blockGasLimit := blockGasLimit o;
     defaultTransactionGasLimit := defaultTransactionGasLimit o;
     gasPrice := p; difficulty := difficulty o |}.

Definition set_options (o : Options) (w : World) : World :=
  {| options := o; wallet := wallet w; blockchain := blockchain w;
     filters := filters w; lastId := lastId w; logger := logger w |}.

Definition set_coinbase (a : Address) (bc : Blockchain) : Blockchain :=
  {| heap := heap bc; trie := trie bc; coinbase := a; blocks := blocks bc;
     pool := pool bc; transactions := transactions bc;
     transactionReceipts := transactionReceipts bc;
     snapshots := snapshots bc; snapshotCounter := snapshotCounter bc;
     clock := clock bc; status := status bc; inFlight := inFlight bc |}.

(** What these methods use but do not define: the serialization of a signed
    transaction, the log index of the chain, the raw key/value store of the
    trie (where contract code is kept, under its hash) and the hash of the
    empty code, which the account class gives to an account without
    code. *)
Class Codecs := {
  serialized : Transaction → string;
  blockLogs_getLogs : option FilterArgs → Blockchain → Outcome (list Log);
  Trie_getRaw : Trie → Buffer → Outcome Buffer;
  KECCAK256_NULL : Buffer
}.

(** [eth_getTransactionByHash] answers with a mined transaction, which
    carries its block, or with a pending one. *)
Inductive TransactionByHash :=
  | MinedTransaction (tx : Transaction) (blockNumber : N)
  | PendingTransaction (tx : Transaction).

Section FurtherMethods.
Context {collab : Collaborators} {codecs : Codecs}.

(** *** [miner] and [eth] settings *)

Definition miner_setGasPrice (number : N) : M bool :=
  modify (λ w, set_options (set_gasPrice number (options w)) w);;;
  ret true.

Definition eth_gasPrice : M N :=
  reads (λ w, gasPrice (options w)).

Definition miner_setEtherbase (address : Address) : M bool :=
  modify_bc (set_coinbase address);;;
  ret true.

Definition eth_coinbase : M Address :=
  reads (λ w, coinbase (blockchain w)).

Definition eth_mining : M bool := isStarted.

(** [blocks.latest] is the block at the head of the chain. *)
Definition eth_blockNumber : M N :=
  w <- get_world;;
  match last (blocks (blockchain w)) with
  | Some latest => ret (hd_number (blk_header latest))
  | None =>
      throw (new_TypeError
               "Cannot read properties of undefined (reading 'header')")
  end.

(** *** Blocks and transactions *)

Definition eth_getBlockTransactionCountByNumber (number : BlockRef)
  : M (option N) :=
  rawBlock <- blocks_getRaw number;;
  match rawBlock with
  | Some rawBlock =>
      data <- rlpDecode rawBlock;;
      ret (Some (N.of_nat (length (blk_transactions data))))
  | None => ret None
  end.

Definition eth_getTransactionByHash (transactionHash : Hash)
  : M (option TransactionByHash) :=
  let hashBuffer := transactionHash in
  transaction <- transactions_get hashBuffer;;
  match transaction with
  | None =>
      tx <- transactionPool_find hashBuffer;;
      ret (match tx with
           | Some tx => Some (PendingTransaction tx)
           | None => None
           end)
  | Some transaction =>
      ret (Some (MinedTransaction transaction.1 transaction.2))
  end.

(** *** Code *)

Definition eth_getCode (address : Address) (blockNumber : BlockRef)
  : M Buffer :=
  bc <- reads blockchain;;
  trieCopy <- Trie_copy (trie bc);;
  block <- blocks_getRaw blockNumber;;
  match block with
  | None => throw (new_Error "header not found")
  | Some block =>
      blockData <- rlpDecode block;;
      let blockStateRoot := hd_stateRoot (blk_header blockData) in
      Trie_update trieCopy (Trie_setRoot blockStateRoot);;;
      addressData <- getFromTrie trieCopy address;;
      addressData <- rlpDecode addressData;;
      let codeHash := match addressData with
                      | Some (AccountValue a) => Some (acc_codeHash a)
                      | _ => None
                      end in
      match codeHash with
      | None => ret []
      | Some codeHash =>
          null <- undeclared "KECCAK256_NULL";;
          if bool_decide (null = codeHash) then ret []
          else
            t <- Trie_read trieCopy id;;
            lift (Trie_getRaw t codeHash)
      end
  end.

(** *** Logs of a filter *)

Definition eth_getLogs (filter : option FilterArgs) : M (list Log) :=
  bc <- reads blockchain;;
  lift (blockLogs_getLogs filter bc).

Definition eth_getFilterLogs (filterId : N) : M (list Log) :=
  w <- get_world;;
  match filters w !! filterId with
  | Some filter =>
      match flt_type filter with
      | FilterLog => eth_getLogs (flt_filter filter)
      | _ => throw (new_Error "filter not found")
      end
  | None => throw (new_Error "filter not found")
  end.

(** *** Signing *)

Definition eth_signTransaction (transaction : RpcTransaction) : M string :=
  let tx := TransactionFactory_fromRpc transaction in
  match tx_from tx with
  | None => throw (new_Error "from not found; is required")
  | Some fromString =>
      w <- get_world;;
      let wallet := wallet w in
      let isKnownAccount := bool_decide (fromString ∈ knownAccounts wallet) in
      match unlockedAccounts wallet !! fromString with
      | None =>
          let msg := if isKnownAccount
                     then "authentication needed: password or unlock"
                     else "sender account not recognized" in
          throw (new_Error msg)
      | Some secretKey =>
          let tx := tx_with_hash (signAndHash tx (Some secretKey)) tx in
          ret (serialized tx)
      end
  end.

(** *** Setting a nonce *)

(** Modelled from the spec: the state manager is not part of [api.ts].  It
    reads and writes the account records of section 3 in the state the VM
    commits to; an account that was never created reads as the empty
    account. *)
Definition emptyAccount : Account :=
  {| acc_nonce := 0; acc_balance := 0; acc_stateRoot := EMPTY_TRIE_ROOT;
     acc_codeHash := KECCAK256_NULL |}.

Definition stateManager_getAccount (address : Address) : M Account :=
  bc <- reads blockchain;;
  Trie_read (vm bc)
    (λ t, match Trie_get address t with
          | Some (AccountValue a) => a
          | _ => emptyAccount
          end).

Definition stateManager_putAccount (address : Address) (account : Account)
  : M unit :=
  bc <- reads blockchain;;
  Trie_update (vm bc) (Trie_put address (AccountValue account)).

Definition account_with_nonce (n : N) (a : Account) : Account :=
  {| acc_nonce := n; acc_balance := acc_balance a;
     acc_stateRoot := acc_stateRoot a; acc_codeHash := acc_codeHash a |}.

(** [blockchain.mine(0)] takes no transaction from the pool and commits
    one block, which is empty. *)
Definition evm_setAccountNonce (address : Address) (nonce : N) : M bool :=
  let buffer := address in
  account <- stateManager_getAccount buffer;;
  let account := account_with_nonce nonce account in
  stateManager_putAccount buffer account;;;
  mine 0 None;;;
  ret true.

End FurtherMethods.

Module SampleCodecs.

#[export] Instance codecs : Codecs := {|
  serialized := λ tx, "0xf8" +:+ tx_hash tx;
  blockLogs_getLogs := λ _ bc, Resolved [];
  Trie_getRaw := λ _ key, Resolved key;
  KECCAK256_NULL := [xc5; xd2]
|}.

(** An engine whose genesis state holds an account of [alice] with
    funds. *)
Definition fundedState : gmap Buffer TrieValue :=
  {[ Sample.alice :=
       AccountValue {| acc_nonce := 0; acc_balance := 1000000000;
                       acc_stateRoot := Sample.keysRoot ∅;
                       acc_codeHash := [xc5; xd2] |} ]}.

Definition fundedGenesis : Block :=
  let header := {| hd_number := 0; hd_parentHash := EmptyString;
                   hd_stateRoot := Sample.keysRoot fundedState;
                   hd_miner := []; hd_gasUsed := 0; hd_timestamp := 0;
                   hd_totalDifficulty := 0 |} in
  {| blk_header := header; blk_hash := "0xb0"; blk_transactions := [] |}.

Definition fundedWorld : World :=
  let w := Sample.world false [] in
  set_blockchain
    (set_blocks [fundedGenesis]
       (set_heap
          {[ 1%positive :=
               {| trie_root := Sample.keysRoot fundedState;
                  trie_db := {[ Sample.keysRoot fundedState := fundedState;
                                Sample.keysRoot ∅ := ∅ ]} |} ]}
          (blockchain w)))
    w.

End SampleCodecs.

(** * Vocabulary of the properties *)

Section Vocabulary.
Context {collab : Collaborators}.

(** A batch none of whose transactions has an execution exception. *)
Definition clean (batch : list Transaction) : Prop :=
  ∀ tx, tx ∈ batch → tx_execException tx = None.



(** What holds of the variables of [assertExceptionalTransactions] after
    the transactions [seen] have been visited. *)
Definition assertInv (seen : list Transaction) (v : AssertVars) : Prop :=
  (baseError v = None ∧ clean seen) ∨
  (∃ es, Js.truthy (baseError v) = true ∧ errors v = Some es ∧
     ¬ clean seen ∧
     ∀ tx e, tx ∈ seen → tx_execException tx = Some e →
       (∃ s, s ∈ es ∧ Js.occurs_in (exc_message e) s) ∧
       (∃ d, data v !! ed_hash (exc_data e) = Some d ∧
             ed_hash d = ed_hash (exc_data e))).

(** The batch the next mining operation of [evm_mine] returns. *)
Definition batchOf (timestamp : option N) (w : World) : list Transaction :=
  match result_of (mine (-1) timestamp w) with
  | Resolved txs => txs
  | Rejected _ => []
  end.

(** The state after [k] mining operations of [evm_mine]. *)
Fixpoint afterMining (timestamp : option N) (k : nat) (w : World) : World :=
  match k with
  | O => w
  | S k' => afterMining timestamp k' (world_of (mine (-1) timestamp w))
  end.

(** How many blocks a call of [evm_mine] is asked for, and with which
    timestamp. *)
Definition blocksAsked (arg : MineArg) : nat :=
  match arg with
  | OptionsArg _ blocks => Z.to_nat (default 1%Z blocks)
  | _ => 1
  end.

Definition timestampOf (arg : MineArg) : option N :=
  match arg with
  | NoArg => None
  | TimestampArg t => Some t
  | OptionsArg timestamp _ => timestamp
  end.

(** The manual mine operation as the interface of section 6 has it:
    [mine(count, timestamp?) → committed-block-count], asked for [n] blocks,
    commits [n] blocks and returns that number. *)
Definition minesAndReturnsCount (timestamp : option N) (n : nat) (w : World)
  : Prop :=
  let r := evm_mine (OptionsArg timestamp (Some (Z.of_nat n))) w in
  length (blocks (blockchain (world_of r)))
    = length (blocks (blockchain w)) + n ∧
  result_of r = Resolved (Quantity_toString (N.of_nat n)).

(** One step in the life of the filter table: an event published on the
    bus, or a poll of a filter. *)
Inductive FilterOp :=
  | Publish (ev : ChainEvent)
  | Poll (filterId : N).

(** Runs the steps in order and collects what the polls of filter [id]
    returned, poll by poll. *)
Fixpoint runFilterOps (id : N) (ops : list FilterOp) (w : World)
  : list (list Update) * World :=
  match ops with
  | [] => ([], w)
  | Publish ev :: ops' => runFilterOps id ops' (world_of (emit ev w))
  | Poll i :: ops' =>
      let r := eth_getFilterChanges i w in
      let rest := runFilterOps id ops' (world_of r) in
      match result_of r with
      | Resolved updates =>
          if bool_decide (i = id) then (updates :: rest.1, rest.2) else rest
      | Rejected _ => rest
      end
  end.

(** What the listener of filter [f] adds to its buffer for the event [ev]. *)
Definition newUpdates (ev : ChainEvent) (w : World) (f : Filter) : list Update :=
  drop (length (flt_updates f)) (flt_updates (deliver ev w f)).

(** Every update delivered to filter [id] during the steps, in order. *)
Fixpoint deliveredTo (id : N) (ops : list FilterOp) (w : World) : list Update :=
  match ops with
  | [] => []
  | Publish ev :: ops' =>
      from_option (newUpdates ev w) [] (filters w !! id)
      ++ deliveredTo id ops' (world_of (emit ev w))
  | Poll i :: ops' =>
      deliveredTo id ops' (world_of (eth_getFilterChanges i w))
  end.

(** The filter with its buffer emptied. *)
Definition drained (f : Filter) : Filter :=
  {| flt_updates := []; flt_filter := flt_filter f; flt_type := flt_type f |}.

(** The block reference resolves to no committed block. *)
Definition noSuchNumber (number : BlockRef) (w : World) : Prop :=
  blocks (blockchain w)
    !! N.to_nat (getEffectiveNumber number (blockchain w)) = None.

Definition noSuchHash (hash : Hash) (w : World) : Prop :=
  ∀ b, b ∈ blocks (blockchain w) → blk_hash b ≠ hash.

(** No mined transaction has this hash. *)
Definition notMined (hash : Hash) (w : World) : Prop :=
  transactions (blockchain w) !! hash = None.

(** Calls that can follow one another between snapshots. *)
Inductive EvmOp :=
  | OpSnapshot
  | OpRevert (id : N)
  | OpMine.

(** One call: the snapshot id it returned, if it is [evm_snapshot], and the
    state it leaves. *)
Definition evmStep (op : EvmOp) (w : World) : option N * World :=
  match op with
  | OpSnapshot =>
      match evm_snapshot w with
      | (Resolved id, w') => (Some id, w')
      | (Rejected _, w') => (None, w')
      end
  | OpRevert id => (None, world_of (evm_revert id w))
  | OpMine => (None, world_of (evm_mine NoArg w))
  end.

(** The ids returned by the [evm_snapshot] calls of a sequence, in order. *)
Fixpoint issuedIds (ops : list EvmOp) (w : World) : list N :=
  match ops with
  | [] => []
  | op :: ops' =>
      match (evmStep op w).1 with
      | Some id => id :: issuedIds ops' (evmStep op w).2
      | None => issuedIds ops' (evmStep op w).2
      end
  end.

Fixpoint afterEvmOps (ops : list EvmOp) (w : World) : World :=
  match ops with
  | [] => w
  | op :: ops' => afterEvmOps ops' (evmStep op w).2
  end.

(** The world with another store of trie objects. *)
Definition with_heap (h : gmap Ref Trie) (w : World) : World :=
  set_blockchain (set_heap h (blockchain w)) w.

(** The [generateVM] closure of [eth_estimateGas]. *)
Definition generateVM : M Ref := (b <- reads blockchain;; VM_copy (vm b)).

(** The sender of a call object is missing, or locked (known to the wallet
    but not unlocked), or not recognized (neither known nor unlocked). *)
Definition senderMissing (t : RpcTransaction) : Prop := rpc_from t = None.

Definition senderLocked (t : RpcTransaction) (w : World) : Prop :=
  ∃ a, rpc_from t = Some a ∧ a ∈ knownAccounts (wallet w) ∧
       unlockedAccounts (wallet w) !! a = None.

Definition senderNotRecognized (t : RpcTransaction) (w : World) : Prop :=
  ∃ a, rpc_from t = Some a ∧ (a ∉ knownAccounts (wallet w)) ∧
       unlockedAccounts (wallet w) !! a = None.

(** The validation of section 4.2, for a transaction whose gas limit and
    gas price are set. *)
Definition passesPoolValidation (tx : Transaction) (w : World) : Prop :=
  ∃ sender,
    tx_from tx = Some sender ∧
    (let bc := blockchain w in
     let account := accountAt (latestStateRoot bc) sender bc in
     let expected := from_option acc_nonce 0%N account in
     let balance := from_option acc_balance 0%N account in
     let gas := default 0%N (tx_gas tx) in
     let price := default 0%N (tx_gasPrice tx) in
     (expected ≤ default expected (tx_nonce tx))%N ∧
     (gasPrice (options w) ≤ price)%N ∧
     (gas ≤ blockGasLimit (options w))%N ∧
     (gas * price + default 0%N (tx_value tx) ≤ balance)%N).

(** The transaction [eth_sendTransaction] hands to the pool when the gas
    limit is [g]: the call object with the gas limit and the default gas
    price filled in. *)
Definition prepared (t : RpcTransaction) (g : N) (w : World) : Transaction :=
  let tx := tx_with_gas g (TransactionFactory_fromRpc t) in
  match tx_gasPrice tx with
  | None => tx_with_gasPrice (gasPrice (options w)) tx
  | Some _ => tx
  end.

(** The gas limit is known without running the estimator: given in the
    call object, or taken from the configured default. *)
Definition gasLimitIs (t : RpcTransaction) (g : N) (w : World) : Prop :=
  tx_gas (TransactionFactory_fromRpc t) = Some g ∨
  (tx_gas (TransactionFactory_fromRpc t) = None ∧
   defaultTransactionGasLimit (options w) = Some g).

End Vocabulary.

(** * Vocabulary of the further properties *)

(** The three ways of installing a filter. *)
Inductive FilterRequest :=
  | NewBlockFilter
  | NewPendingTransactionFilter
  | NewFilter (filter : FilterArgs).

Section FurtherVocabulary.
Context {collab : Collaborators} {codecs : Codecs}.

Definition installFilter (req : FilterRequest) : M N :=
  match req with
  | NewBlockFilter => eth_newBlockFilter
  | NewPendingTransactionFilter => eth_newPendingTransactionFilter
  | NewFilter filter => eth_newFilter filter
  end.

(** Every registered filter has an id the counter has already passed. *)
Definition filterIdsIssued (w : World) : Prop :=
  ∀ j, is_Some (filters w !! j) → (j ≤ lastId w)%N.

(** The state after the events have been published, in order. *)
Definition publishAll (evs : list ChainEvent) (w : World) : World :=
  foldl (λ w ev, world_of (emit ev w)) w evs.

(** Blocks are numbered by their place in the chain. *)
Definition contiguous (w : World) : Prop :=
  ∀ i b, blocks (blockchain w) !! i = Some b →
         hd_number (blk_header b) = N.of_nat i.

(** The error of a batch whose only exception is [e]. *)
Definition singleError (e : RuntimeError) : JsError :=
  {| err_kind := PlainError;
     err_message := VM_EXCEPTION +:+ exc_message e;
     err_data := {[ ed_hash (exc_data e) := exc_data e ]} |}.

(** One call of [evm_mine] after another. *)
Definition evm_mine_twice (a1 a2 : MineArg) : M string :=
  evm_mine a1;;; evm_mine a2.

End FurtherVocabulary.

Section LookupVocabulary.
Context {collab : Collaborators}.

(** A transaction with this hash waits in the pool. *)
Definition pending (hash : Hash) (w : World) : Prop :=
  Exists (λ tx, tx_hash tx = hash) (pool (blockchain w)).

(** The conditions under which [eth_getTransactionReceipt] logs its
    notice: the transaction is not mined but waits in the pool, and the
    engine mines at once, not in legacy mode, and is started. *)
Definition noticeDue (hash : Hash) (w : World) : Prop :=
  notMined hash w ∧ pending hash w ∧
  (blockTime (options w) ≤ 0)%Z ∧ legacyInstamine (options w) = false ∧
  status (blockchain w) = Mining.

(** The number of transactions of a block in its JSON form. *)
Definition json_count (json : BlockJSON) : N :=
  N.of_nat (length (json_transactions json)).

End LookupVocabulary.

(** The call object with another sender. *)
Definition rpc_with_from (sender : option Address) (t : RpcTransaction)
  : RpcTransaction :=
  {| rpc_from := sender; rpc_to := rpc_to t; rpc_gas := rpc_gas t;
     rpc_gasLimit := rpc_gasLimit t; rpc_gasPrice := rpc_gasPrice t;
     rpc_value := rpc_value t; rpc_data := rpc_data t;
     rpc_input := rpc_input t; rpc_nonce := rpc_nonce t |}.

(** * Properties *)

(** ** Text *)

Module JsFacts.
Import Js.

Lemma append_cons (x : ascii) (a b : string) :
  String x a +:+ b = String x (a +:+ b).
Proof. reflexivity. Qed.

Lemma append_empty_l (a : string) : EmptyString +:+ a = a.
Proof. reflexivity. Qed.

Lemma append_assoc (a b c : string) : (a +:+ b) +:+ c = a +:+ b +:+ c.
Proof.
  induction a as [|x a IH]; [done|].
  by rewrite !append_cons, IH.
Qed.

Lemma append_empty_r (a : string) : a +:+ EmptyString = a.
Proof.
  induction a as [|x a IH]; [done|].
  by rewrite append_cons, IH.
Qed.

Lemma occurs_in_refl (m : string) : occurs_in m m.
Proof. exists EmptyString, EmptyString. by rewrite append_empty_l, append_empty_r. Qed.

Lemma occurs_in_app_l (m s t : string) : occurs_in m s → occurs_in m (s +:+ t).
Proof.
  intros (pre & post & ->). exists pre, (post +:+ t).
  by rewrite !append_assoc.
Qed.

Lemma occurs_in_app_r (m s t : string) : occurs_in m s → occurs_in m (t +:+ s).
Proof.
  intros (pre & post & ->). exists (t +:+ pre), post.
  by rewrite !append_assoc.
Qed.

Lemma occurs_in_trans (a b c : string) :
  occurs_in a b → occurs_in b c → occurs_in a c.
Proof.
  intros (p1 & q1 & ->) (p2 & q2 & ->).
  exists (p2 +:+ p1), (q1 +:+ q2). by rewrite !append_assoc.
Qed.

Lemma occurs_in_join (sep m : string) (l : list string) :
  m ∈ l → occurs_in m (join sep l).
Proof.
  unfold join. induction l as [|x l IH]; intros Hin.
  - by apply elem_of_nil in Hin.
  - apply elem_of_cons in Hin as [->|Hin].
    + destruct l as [|y l]; simpl.
      * apply occurs_in_refl.
      * apply occurs_in_app_l, occurs_in_refl.
    + destruct l as [|y l]; [by apply elem_of_nil in Hin|].
      change (String.concat sep (x :: y :: l))
        with (x +:+ sep +:+ String.concat sep (y :: l)).
      by apply occurs_in_app_r, occurs_in_app_r, IH.
Qed.

End JsFacts.

Lemma RuntimeError_toString_message (e : RuntimeError) :
  Js.occurs_in (exc_message e) (RuntimeError_toString e).
Proof.
  unfold RuntimeError_toString.
  destruct (exc_name e) as [|c nm] eqn:Hn; [apply JsFacts.occurs_in_refl|].
  destruct (exc_message e) as [|d msg] eqn:Hm.
  - exists (String c nm), EmptyString. by rewrite JsFacts.append_empty_r.
  - apply JsFacts.occurs_in_app_r, JsFacts.occurs_in_app_r, JsFacts.occurs_in_refl.
Qed.

(** ** Running the monad *)

Ltac run :=
  unfold bind, ret, throw, modify_bc, modify, reads, get_world, lift, catch,
    detached, result_of, world_of in *;
  simpl in *.

(** One step of a computation whose first action is described by the
    equation [lem]. *)
Tactic Notation "step" uconstr(lem) :=
  unfold bind at 1; rewrite lem; cbv beta iota.

(** ** The block producer *)

Section Mining.
Context {collab : Collaborators}.

Lemma drain_nil (m : Z) : drain m [] = ([], []).
Proof. unfold drain. destruct (m <? 0)%Z; by rewrite ?take_nil, ?drop_nil. Qed.

(** A mining operation always commits exactly one block, holding the
    transactions it resolves with, and touches neither the options nor the
    wallet; on an empty pool the block is empty. *)
Lemma mine_commit (m : Z) (ts : option N) (w : World) :
  ∃ txs b w',
    mine m ts w = (Resolved txs, w') ∧
    options w' = options w ∧ wallet w' = wallet w ∧
    blocks (blockchain w') = blocks (blockchain w) ++ [b] ∧
    blk_transactions b = txs ∧
    (pool (blockchain w) = [] → txs = [] ∧ pool (blockchain w') = []).
Proof.
  unfold mine, startMining, finishMining, emit. run.
  destruct (drain m (pool (blockchain w))) as [batch rest] eqn:Hd. simpl.
  match goal with
  | |- context [processBatch ?rb batch ?t] =>
      destruct (processBatch rb batch t) as [[included skipped] final] eqn:Hp
  end.
  simpl. eexists _, _, _. split; [done|]. simpl.
  do 4 (split; [done|]).
  intros Hnil. rewrite Hnil, drain_nil in Hd. simplify_eq.
  simpl in Hp. by simplify_eq.
Qed.

(** Mining does not touch the snapshot manager. *)
Lemma mine_snapshots (m : Z) (ts : option N) (w : World) :
  snapshots (blockchain (world_of (mine m ts w))) = snapshots (blockchain w) ∧
  snapshotCounter (blockchain (world_of (mine m ts w)))
  = snapshotCounter (blockchain w).
Proof.
  unfold mine, startMining, finishMining, emit. run.
  destruct (drain m (pool (blockchain w))) as [batch rest] eqn:Hd. simpl.
  match goal with
  | |- context [processBatch ?rb batch ?t] =>
      destruct (processBatch rb batch t) as [[included skipped] final] eqn:Hp
  end.
  done.
Qed.

Lemma mine_resolves (ts : option N) (w : World) :
  mine (-1) ts w = (Resolved (batchOf ts w), world_of (mine (-1) ts w)).
Proof.
  unfold batchOf, result_of, world_of.
  by destruct (mine_commit (-1) ts w) as (txs & b & w' & -> & _).
Qed.

Lemma mine_options (ts : option N) (w : World) :
  options (world_of (mine (-1) ts w)) = options w.
Proof.
  unfold world_of.
  by destruct (mine_commit (-1) ts w) as (txs & b & w' & -> & Ho & _).
Qed.

Lemma afterMining_options (ts : option N) (k : nat) (w : World) :
  options (afterMining ts k w) = options w.
Proof.
  revert w. induction k as [|k IH]; intros w; simpl; [done|].
  by rewrite IH, mine_options.
Qed.

Lemma afterMining_blocks (ts : option N) (k : nat) (w : World) :
  length (blocks (blockchain (afterMining ts k w)))
  = length (blocks (blockchain w)) + k.
Proof.
  revert w. induction k as [|k IH]; intros w; simpl; [lia|].
  rewrite IH. unfold world_of.
  destruct (mine_commit (-1) ts w) as (txs & b & w' & -> & _ & _ & Hb & _).
  simpl. rewrite Hb, length_app. simpl. lia.
Qed.

End Mining.

(** ** Strict failure reporting *)

Section StrictFailureReporting.
Context {collab : Collaborators}.

Lemma truthy_Some (s : string) : s ≠ EmptyString → Js.truthy (Some s) = true.
Proof. by destruct s. Qed.

Lemma not_clean_app (seen : list Transaction) (tx : Transaction) :
  ¬ clean seen ∨ is_Some (tx_execException tx) → ¬ clean (seen ++ [tx]).
Proof.
  intros [Hn | [e He]] Hc.
  - apply Hn. intros tx' Hin. apply Hc, elem_of_app. by left.
  - rewrite (Hc tx) in He; [done|]. apply elem_of_app. right. by left.
Qed.

Lemma assert_callback_inv (seen : list Transaction) (v : AssertVars)
    (tx : Transaction) :
  VM_EXCEPTION ≠ EmptyString → VM_EXCEPTIONS ≠ EmptyString →
  assertInv seen v →
  ∃ v', assert_callback v tx = Resolved v' ∧ assertInv (seen ++ [tx]) v'.
Proof.
  intros H1 H2 Hinv. unfold assert_callback.
  destruct (tx_execException tx) as [e|] eqn:He.
  - destruct Hinv as [[Hb Hclean] | (es & Ht & Hes & Hnc & Hall)].
    + rewrite Hb. simpl. eexists. split; [done|]. right. simpl.
      exists [exc_message e]. split; [by apply truthy_Some|]. split; [done|].
      split; [apply not_clean_app; right; by rewrite He|].
      intros tx' e' [Hin | ->%list_elem_of_singleton]%elem_of_app He'.
      * by rewrite (Hclean _ Hin) in He'.
      * rewrite He in He'. injection He' as <-. split.
        -- exists (exc_message e).
           split; [by left | apply JsFacts.occurs_in_refl].
        -- exists (exc_data e). by rewrite lookup_insert_eq.
    + rewrite Ht, Hes. eexists. split; [done|]. right. simpl.
      eexists. split; [by apply truthy_Some|]. split; [done|].
      split; [apply not_clean_app; by left|].
      intros tx' e' [Hin | ->%list_elem_of_singleton]%elem_of_app He'.
      * destruct (Hall _ _ Hin He') as [(s & Hs & Hocc) (d & Hd & Hk)]. split.
        -- exists s. split; [|done]. apply elem_of_app. by left.
        -- destruct (decide (ed_hash (exc_data e) = ed_hash (exc_data e')))
             as [Heq|Hne].
           ++ rewrite <- Heq. exists (exc_data e).
              by rewrite lookup_insert_eq.
           ++ exists d. by rewrite lookup_insert_ne.
      * rewrite He in He'. injection He' as <-. split.
        -- eexists. split; [apply elem_of_app; right; by left|].
           apply JsFacts.occurs_in_app_r, JsFacts.occurs_in_app_r,
             JsFacts.occurs_in_app_l, RuntimeError_toString_message.
        -- exists (exc_data e). by rewrite lookup_insert_eq.
  - exists v. split; [done|].
    destruct Hinv as [[Hb Hclean] | (es & Ht & Hes & Hnc & Hall)].
    + left. split; [done|].
      intros tx' [Hin | ->%list_elem_of_singleton]%elem_of_app; auto.
    + right. exists es. split; [done|]. split; [done|].
      split; [apply not_clean_app; by left|].
      intros tx' e' [Hin | ->%list_elem_of_singleton]%elem_of_app He'.
      * eauto.
      * by rewrite He in He'.
Qed.

Lemma forEach_assert_inv (rest seen : list Transaction) (v : AssertVars) :
  VM_EXCEPTION ≠ EmptyString → VM_EXCEPTIONS ≠ EmptyString →
  assertInv seen v →
  ∃ v', forEach assert_callback rest v = Resolved v' ∧
        assertInv (seen ++ rest) v'.
Proof.
  intros H1 H2. revert seen v.
  induction rest as [|tx rest IH]; intros seen v Hinv; simpl.
  - exists v. by rewrite app_nil_r.
  - destruct (assert_callback_inv seen v tx H1 H2 Hinv) as (v1 & -> & Hinv1).
    destruct (IH _ _ Hinv1) as (v' & Hv' & Hinv').
    exists v'. split; [done|]. by rewrite <- app_assoc in Hinv'.
Qed.

Lemma assertInv_initial :
  assertInv [] {| baseError := None; errors := None; data := ∅ |}.
Proof. left. split; [done|]. intros tx Hin. by apply elem_of_nil in Hin. Qed.

Lemma forEach_assert_clean (txs : list Transaction) (v : AssertVars) :
  clean txs → forEach assert_callback txs v = Resolved v.
Proof.
  induction txs as [|tx txs IH]; intros Hclean; [done|].
  simpl. unfold assert_callback at 1.
  rewrite (Hclean tx) by left.
  apply IH. intros tx' Hin. apply Hclean. by right.
Qed.

(** A batch without exceptions passes the assertion. *)
Lemma assertExceptionalTransactions_clean (txs : list Transaction) :
  clean txs → assertExceptionalTransactions txs = Resolved tt.
Proof.
  intros Hclean. unfold assertExceptionalTransactions.
  by rewrite forEach_assert_clean.
Qed.

(** A batch with an exception makes the assertion throw one error, which
    carries the message and the data of every exception of the batch. *)
Lemma assertExceptionalTransactions_throws (txs : list Transaction) :
  VM_EXCEPTION ≠ EmptyString → VM_EXCEPTIONS ≠ EmptyString →
  ¬ clean txs →
  ∃ err, assertExceptionalTransactions txs = Rejected err ∧
    ∀ tx e, tx ∈ txs → tx_execException tx = Some e →
      Js.occurs_in (exc_message e) (err_message err) ∧
      ∃ d, err_data err !! ed_hash (exc_data e) = Some d ∧
           ed_hash d = ed_hash (exc_data e).
Proof.
  intros H1 H2 Hnc. unfold assertExceptionalTransactions.
  destruct (forEach_assert_inv txs [] _ H1 H2 assertInv_initial)
    as (v & -> & [[Hb Hc] | (es & Ht & Hes & _ & Hall)]); [done|].
  rewrite Ht, Hes. destruct (baseError v) as [b|]; [|done].
  eexists. split; [done|]. simpl.
  intros tx e Hin He.
  destruct (Hall tx e Hin He) as [(s & Hs & Hocc) Hd]. split; [|done].
  apply JsFacts.occurs_in_app_r.
  eapply JsFacts.occurs_in_trans; [done|].
  by apply JsFacts.occurs_in_join.
Qed.

(** The loop of [evm_mine] runs to its end when no batch has an
    exception (or when failures are not reported). *)
Lemma mineLoop_completes (strict : bool) (ts : option N) (n : nat) (w : World) :
  (strict = true → ∀ j, j < n → clean (batchOf ts (afterMining ts j w))) →
  mineLoop strict ts n w = (Resolved tt, afterMining ts n w).
Proof.
  revert w. induction n as [|n IH]; intros w Hclean; [done|].
  simpl. unfold bind at 1. rewrite mine_resolves.
  unfold bind at 1.
  assert ((if strict
           then lift (assertExceptionalTransactions (batchOf ts w))
           else ret tt) (world_of (mine (-1) ts w))
          = (Resolved tt, world_of (mine (-1) ts w))) as ->.
  { destruct strict; [|done]. unfold lift.
    rewrite assertExceptionalTransactions_clean; [done|].
    apply (Hclean eq_refl 0). lia. }
  apply IH. intros Hs j Hj. apply (Hclean Hs (S j)). lia.
Qed.


(** [evm_mine] is its loop, run for the number of blocks asked, followed
    by the constant it returns. *)
Lemma evm_mine_as_loop (arg : MineArg) (w : World) :
  evm_mine arg w =
  match mineLoop (vmErrorsOnRPCResponse (options w)) (timestampOf arg)
          (blocksAsked arg) w with
  | (Resolved _, w') => (Resolved "0x0", w')
  | (Rejected e, w') => (Rejected e, w')
  end.
Proof.
  unfold evm_mine, bind at 1, get_world.
  destruct arg as [|t|timestamp blocks]; simpl.
  - unfold bind at 1 3.
    destruct (mine (-1) None w) as [[txs|e] w1]; [|done].
    unfold bind at 1 2.
    by destruct (vmErrorsOnRPCResponse (options w));
      [destruct (lift (assertExceptionalTransactions txs) w1) as [[[]|e] w2]|].
  - unfold bind at 1 3.
    destruct (mine (-1) (Some t) w) as [[txs|e] w1]; [|done].
    unfold bind at 1 2.
    by destruct (vmErrorsOnRPCResponse (options w));
      [destruct (lift (assertExceptionalTransactions txs) w1) as [[[]|e] w2]|].
  - unfold bind at 1.
    by destruct (mineLoop _ _ _ w) as [[[]|e] w1].
Qed.


End StrictFailureReporting.

(** ** Manual mining *)

Section ManualMining.
Context {collab : Collaborators}.

Lemma batchOf_empty_pool (ts : option N) (w : World) :
  pool (blockchain w) = [] → batchOf ts w = [].
Proof.
  intros Hnil. unfold batchOf, result_of.
  destruct (mine_commit (-1) ts w) as (txs & b & w' & -> & _ & _ & _ & _ & He).
  by destruct (He Hnil).
Qed.

Lemma afterMining_S (ts : option N) (k : nat) (w : World) :
  afterMining ts (S k) w
  = world_of (mine (-1) ts (afterMining ts k w)).
Proof.
  revert w. induction k as [|k IH]; intros w; [done|].
  change (afterMining ts (S (S k)) w)
    with (afterMining ts (S k) (world_of (mine (-1) ts w))).
  by rewrite IH.
Qed.

(** The chain after [k] mining operations: [k] new blocks, the [j]-th of
    which holds the batch of the [j]-th operation. *)
Lemma afterMining_chain (ts : option N) (k : nat) (w : World) :
  ∃ newBlocks,
    blocks (blockchain (afterMining ts k w))
    = blocks (blockchain w) ++ newBlocks ∧
    length newBlocks = k ∧
    ∀ j b, newBlocks !! j = Some b →
           blk_transactions b = batchOf ts (afterMining ts j w).
Proof.
  induction k as [|k (bs & Hbs & Hlen & Hall)].
  - exists []. simpl. rewrite app_nil_r. split; [done|]. split; [done|].
    intros j b Hj. by rewrite lookup_nil in Hj.
  - rewrite afterMining_S. unfold batchOf, world_of, result_of in *.
    destruct (mine_commit (-1) ts (afterMining ts k w))
      as (txs & b & w' & Hm & _ & _ & Hb & Htx & _).
    rewrite Hm. simpl. exists (bs ++ [b]).
    rewrite Hb, Hbs, <- app_assoc. split; [done|].
    split; [rewrite length_app; simpl; lia|].
    intros j b' Hj. destruct (decide (j < length bs)) as [Hlt|Hge].
    + rewrite lookup_app_l in Hj by done. by apply Hall.
    + rewrite lookup_app_r in Hj by lia.
      destruct (j - length bs) as [|i] eqn:Hi; [|by destruct i].
      simpl in Hj. injection Hj as <-.
      assert (j = k) as -> by lia. by rewrite Hm.
Qed.

(** C4 (amended). [evm_mine] with a [blocks] option of [n], which defaults
    to 1, runs exactly [n] mining operations, each committing one block,
    an empty one when the pool is exhausted, and resolves with the constant
    ["0x0"]; this, provided the loop is not cut short by strict failure
    reporting, that is, provided reporting is disabled or no mined batch
    has an execution exception. *)
Theorem evm_mine_mines_the_blocks_asked
    (timestamp : option N) (count : option Z) (w : World) :
  let n := Z.to_nat (default 1%Z count) in
  (vmErrorsOnRPCResponse (options w) = true →
   ∀ j, j < n → clean (batchOf timestamp (afterMining timestamp j w))) →
  evm_mine (OptionsArg timestamp count) w
    = (Resolved "0x0", afterMining timestamp n w) ∧
  ∃ newBlocks,
    blocks (blockchain (afterMining timestamp n w))
    = blocks (blockchain w) ++ newBlocks ∧
    length newBlocks = n ∧
    ∀ j b, newBlocks !! j = Some b →
      blk_transactions b = batchOf timestamp (afterMining timestamp j w) ∧
      (pool (blockchain (afterMining timestamp j w)) = [] →
       blk_transactions b = []).
Proof.
  intros n Hclean. split.
  - rewrite evm_mine_as_loop. simpl. by rewrite mineLoop_completes.
  - destruct (afterMining_chain timestamp n w) as (bs & Hbs & Hlen & Hall).
    exists bs. split; [done|]. split; [done|].
    intros j b Hj. split; [by apply Hall|].
    intros Hnil. rewrite (Hall j b Hj). by apply batchOf_empty_pool.
Qed.

End ManualMining.

(** ** Filters *)

Section Filters.
Context {collab : Collaborators}.

Lemma deliver_updates (ev : ChainEvent) (w : World) (f : Filter) :
  flt_updates (deliver ev w f) = flt_updates f ++ newUpdates ev w f.
Proof.
  unfold newUpdates.
  assert (∀ us, flt_updates (push us f) = flt_updates f ++ us) as Hpush by done.
  assert (flt_updates f = flt_updates f ++ drop (length (flt_updates f))
                                             (flt_updates f)) as Hid
    by (by rewrite drop_all, app_nil_r).
  assert (∀ us, flt_updates (push us f)
                = flt_updates f ++ drop (length (flt_updates f))
                                     (flt_updates (push us f))) as Hadd
    by (intros us; by rewrite Hpush, drop_app_length).
  destruct ev as [b|bl|tx]; simpl.
  - unfold on_block. by destruct (flt_type f).
  - unfold on_blockLogs.
    destruct (flt_type f); try done.
    destruct (flt_filter f) as [fa|]; [|done].
    destruct (parseFilterRange fa _) as [fromBlock toBlock].
    by destruct (_ && _).
  - unfold on_pendingTransaction. by destruct (flt_type f).
Qed.

(** A poll of a registered filter resolves with its buffer and leaves the
    filter registered with an empty buffer; nothing else changes. *)
Lemma eth_getFilterChanges_registered (id : N) (w : World) (f : Filter) :
  filters w !! id = Some f →
  eth_getFilterChanges id w
  = (Resolved (flt_updates f), set_filters (<[id := drained f]> (filters w)) w).
Proof. intros Hf. unfold eth_getFilterChanges. run. by rewrite Hf. Qed.

Lemma eth_getFilterChanges_unknown (id : N) (w : World) :
  filters w !! id = None →
  eth_getFilterChanges id w = (Rejected (new_Error "filter not found"), w).
Proof. intros Hf. unfold eth_getFilterChanges. run. by rewrite Hf. Qed.

(** Polling one filter does not touch another. *)
Lemma eth_getFilterChanges_other (i id : N) (w : World) :
  i ≠ id →
  filters (world_of (eth_getFilterChanges i w)) !! id = filters w !! id.
Proof.
  intros Hne. destruct (filters w !! i) as [g|] eqn:Hg.
  - rewrite (eth_getFilterChanges_registered _ _ _ Hg). simpl.
    by rewrite lookup_insert_ne.
  - by rewrite (eth_getFilterChanges_unknown _ _ Hg).
Qed.

(** Every update delivered to a filter is handed out by exactly one poll, in
    order: what the polls returned so far, followed by what is still
    buffered, is what was buffered at the start followed by what was
    delivered since. *)
Lemma polls_partition_deliveries (id : N) (ops : list FilterOp) :
  ∀ (w : World) (f : Filter),
    filters w !! id = Some f →
    ∃ f', filters (runFilterOps id ops w).2 !! id = Some f' ∧
          concat (runFilterOps id ops w).1 ++ flt_updates f'
          = flt_updates f ++ deliveredTo id ops w.
Proof.
  induction ops as [|[ev|i] ops IH]; intros w f Hf.
  - exists f. simpl. by rewrite app_nil_r.
  - cbn [runFilterOps deliveredTo].
    assert (filters (world_of (emit ev w)) !! id = Some (deliver ev w f)) as Hf1.
    { unfold emit. run. by rewrite lookup_fmap, Hf. }
    destruct (IH _ _ Hf1) as (f' & Hf' & Heq).
    exists f'. split; [done|].
    rewrite Heq, Hf, deliver_updates. simpl. by rewrite <- app_assoc.
  - cbn [runFilterOps deliveredTo]. destruct (decide (i = id)) as [->|Hne].
    + rewrite (eth_getFilterChanges_registered _ _ _ Hf).
      cbn [result_of world_of fst snd]. rewrite bool_decide_true by done.
      edestruct (IH (set_filters (<[id := drained f]> (filters w)) w) (drained f))
        as (f' & Hf' & Heq); [simpl; by rewrite lookup_insert_eq|].
      exists f'. split; [done|].
      cbn [fst snd concat]. by rewrite <- app_assoc, Heq.
    + pose proof (eth_getFilterChanges_other i id w Hne) as Hsame.
      rewrite Hf in Hsame.
      destruct (IH _ _ Hsame) as (f' & Hf' & Heq).
      exists f'.
      destruct (eth_getFilterChanges i w) as [[us|e] w1];
        cbn [result_of world_of fst snd] in *;
        rewrite ?bool_decide_false by done; done.
Qed.

(** Events that add nothing to the buffer of filter [id]. *)
Lemma quiet_events (id : N) (evs : list ChainEvent) (w : World) (f : Filter) :
  filters w !! id = Some f →
  deliveredTo id (Publish <$> evs) w = [] →
  ∃ f', filters (runFilterOps id (Publish <$> evs) w).2 !! id = Some f' ∧
        flt_updates f' = flt_updates f.
Proof.
  intros Hf Hquiet.
  destruct (polls_partition_deliveries id (Publish <$> evs) w f Hf)
    as (f' & Hf' & Heq).
  exists f'. split; [done|].
  rewrite Hquiet, app_nil_r in Heq. rewrite <- Heq.
  assert (∀ w0, (runFilterOps id (Publish <$> evs) w0).1 = []) as ->; [|done].
  clear. induction evs as [|ev evs IH]; intros w0; [done|]. simpl. apply IH.
Qed.

(** C5. For a registered filter, [eth_getFilterChanges] returns the events
    accumulated since the previous poll and clears the buffer in the same
    step; a second poll, with no matching event published in between,
    returns the empty list; and over any sequence of events and polls every
    delivered event is returned by exactly one poll. *)
Theorem eth_getFilterChanges_drains_once
    (id : N) (w : World) (f : Filter) (evs : list ChainEvent)
    (ops : list FilterOp) :
  filters w !! id = Some f →
  let polled := eth_getFilterChanges id w in
  result_of polled = Resolved (flt_updates f) ∧
  filters (world_of polled) !! id = Some (drained f) ∧
  (deliveredTo id (Publish <$> evs) (world_of polled) = [] →
   result_of (eth_getFilterChanges id
                (runFilterOps id (Publish <$> evs) (world_of polled)).2)
   = Resolved []) ∧
  ∃ f', filters (runFilterOps id ops w).2 !! id = Some f' ∧
        concat (runFilterOps id ops w).1 ++ flt_updates f'
        = flt_updates f ++ deliveredTo id ops w.
Proof.
  intros Hf polled. subst polled.
  rewrite (eth_getFilterChanges_registered _ _ _ Hf).
  unfold result_of, world_of. simpl.
  split; [done|]. split; [by rewrite lookup_insert_eq|].
  split; [|by apply polls_partition_deliveries].
  intros Hquiet.
  edestruct (quiet_events id evs
               (set_filters (<[id := drained f]> (filters w)) w) (drained f))
    as (f' & Hf' & Hu); [simpl; by rewrite lookup_insert_eq | done |].
  by rewrite (eth_getFilterChanges_registered _ _ _ Hf'), Hu.
Qed.

End Filters.

(** ** Lookups of blocks, transactions and receipts *)

Section Lookups.
Context {collab : Collaborators}.

Lemma find_hash_None (hash : Hash) (l : list Block) :
  (∀ b, b ∈ l → blk_hash b ≠ hash) →
  List.find (λ b, bool_decide (blk_hash b = hash)) l = None.
Proof.
  induction l as [|b l IH]; intros Hno; [done|]. simpl.
  rewrite bool_decide_false by (apply Hno; by left).
  apply IH. intros b' Hin. apply Hno. by right.
Qed.

(** For a missing block [blocks.get] rejects or resolves with [null]; in
    both cases it leaves the state alone. *)
Lemma missingBlock_outcome (w : World) :
  (∃ e, missingBlock w = (Rejected e, w)) ∨ missingBlock w = (Resolved None, w).
Proof.
  unfold missingBlock. destruct headerNotFound as [e|]; [left; by exists e|by right].
Qed.

Lemma blocks_get_missing (number : BlockRef) (w : World) :
  noSuchNumber number w → blocks_get number w = missingBlock w.
Proof.
  intros Hno. unfold blocks_get, blocks_getRaw, getRawByBlockNumber. run.
  by rewrite Hno.
Qed.

Lemma blocks_get_found (number : BlockRef) (w : World) (b : Block) :
  blocks (blockchain w)
    !! N.to_nat (getEffectiveNumber number (blockchain w)) = Some b →
  blocks_get number w = (Resolved (Some b), w).
Proof.
  intros Hb. unfold blocks_get, blocks_getRaw, getRawByBlockNumber. run.
  by rewrite Hb.
Qed.

Lemma blocks_getByHash_missing (hash : Hash) (w : World) :
  noSuchHash hash w → blocks_getByHash hash w = missingBlock w.
Proof.
  intros Hno. unfold blocks_getByHash. run.
  by rewrite find_hash_None.
Qed.

Lemma eth_getBlockByNumber_missing (number : BlockRef) (full : bool) (w : World) :
  noSuchNumber number w →
  eth_getBlockByNumber number full w = (Resolved None, w).
Proof.
  intros Hno. unfold eth_getBlockByNumber, bind, catch.
  rewrite (blocks_get_missing _ _ Hno).
  by destruct (missingBlock_outcome w) as [[e ->] | ->].
Qed.

Lemma eth_getBlockByHash_missing (hash : Hash) (full : bool) (w : World) :
  noSuchHash hash w →
  eth_getBlockByHash hash full w = (Resolved None, w).
Proof.
  intros Hno. unfold eth_getBlockByHash, bind, catch.
  rewrite (blocks_getByHash_missing _ _ Hno).
  by destruct (missingBlock_outcome w) as [[e ->] | ->].
Qed.

Lemma eth_getTransactionReceipt_not_mined (hash : Hash) (w : World) :
  notMined hash w →
  result_of (eth_getTransactionReceipt hash w) = Resolved None.
Proof.
  intros Hno. unfold eth_getTransactionReceipt, transactions_get,
    transactionReceipts_get, isStarted, transactionPool_find. run.
  rewrite Hno. simpl.
  destruct (_ && _); [|done].
  by destruct (List.find _ _).
Qed.

(** C8. For a block number or hash that resolves to no committed block,
    [eth_getBlockByNumber] and [eth_getBlockByHash] resolve with [null]
    instead of throwing, and for the hash of a transaction that has not
    been mined [eth_getTransactionReceipt] resolves with [null]. *)
Theorem missing_lookups_return_null
    (number : BlockRef) (hash txHash : Hash) (full : bool) (w : World) :
  (noSuchNumber number w →
   eth_getBlockByNumber number full w = (Resolved None, w)) ∧
  (noSuchHash hash w →
   eth_getBlockByHash hash full w = (Resolved None, w)) ∧
  (notMined txHash w →
   result_of (eth_getTransactionReceipt txHash w) = Resolved None).
Proof.
  split; [apply eth_getBlockByNumber_missing|].
  split; [apply eth_getBlockByHash_missing|].
  apply eth_getTransactionReceipt_not_mined.
Qed.

(** C10. [eth_getTransactionByBlockNumberAndIndex] reads [transactions] off
    the looked-up block without a null guard: for a block reference that
    resolves to no block it rejects with a [TypeError], whereas
    [eth_getTransactionByBlockHashAndIndex] resolves with [null] for a
    missing block. *)
Theorem transaction_by_block_and_index_missing_block
    (number : BlockRef) (hash : Hash) (index : N) (w : World) :
  (noSuchNumber number w →
   ∃ e, eth_getTransactionByBlockNumberAndIndex number index w
        = (Rejected e, w) ∧ err_kind e = TypeError) ∧
  (noSuchHash hash w →
   eth_getTransactionByBlockHashAndIndex hash index w = (Resolved None, w)).
Proof.
  split; intros Hno.
  - unfold eth_getTransactionByBlockNumberAndIndex, bind at 1.
    rewrite (eth_getBlockByNumber_missing _ _ _ Hno).
    eexists. split; [done|done].
  - unfold eth_getTransactionByBlockHashAndIndex, bind at 1.
    by rewrite (eth_getBlockByHash_missing _ _ _ Hno).
Qed.

End Lookups.

(** ** The miner *)

Section Miner.
Context {collab : Collaborators}.

Lemma resume_while_mining (threads : N) (w : World) :
  status (blockchain w) = Mining → resume threads w = (Resolved None, w).
Proof. intros Hs. unfold resume. run. by rewrite Hs. Qed.

(** The status of the miner plays no part in the completion of a mining
    operation: it is carried through unchanged. *)
Lemma finishMining_status (s : MinerStatus) (w : World) :
  finishMining (set_blockchain (set_status s (blockchain w)) w)
  = (result_of (finishMining w),
     set_blockchain
       (set_status s (blockchain (world_of (finishMining w))))
       (world_of (finishMining w))).
Proof.
  unfold finishMining, emit. run.
  destruct (inFlight (blockchain w)) as [[batch ts]|]; [|done].
  change (deref (trie (blockchain w)) (set_status s (blockchain w)))
    with (deref (trie (blockchain w)) (blockchain w)).
  match goal with
  | |- context [processBatch ?rb batch ?t] =>
      destruct (processBatch rb batch t) as [[included skipped] final]
  end.
  done.
Qed.

Lemma pause_world (w : World) :
  pause w = (Resolved tt,
             match status (blockchain w) with
             | Mining => set_blockchain (set_status Paused (blockchain w)) w
             | _ => w
             end).
Proof.
  unfold pause. run. destruct w as [o wa bc f i l].
  destruct bc as [h t c b p tr rc sn sc cl st fl]. simpl. by destruct st.
Qed.

(** C7. [miner_start] while the miner is already mining changes nothing and
    resolves with [true]; [miner_stop] resolves with [true], takes a mining
    miner to paused, never leaves it mining, and does not touch the
    operation in flight, which completes with the same transactions and
    the same chain as it would have without the stop. *)
Theorem miner_start_reentrant_and_stop_pauses (threads : N) (w : World) :
  (status (blockchain w) = Mining →
   miner_start threads w = (Resolved true, w)) ∧
  result_of (miner_stop w) = Resolved true ∧
  (status (blockchain w) = Mining →
   status (blockchain (world_of (miner_stop w))) = Paused) ∧
  status (blockchain (world_of (miner_stop w))) ≠ Mining ∧
  inFlight (blockchain (world_of (miner_stop w))) = inFlight (blockchain w) ∧
  result_of (finishMining (world_of (miner_stop w)))
    = result_of (finishMining w) ∧
  blocks (blockchain (world_of (finishMining (world_of (miner_stop w)))))
    = blocks (blockchain (world_of (finishMining w))).
Proof.
  split.
  { intros Hs. unfold miner_start, bind at 1, get_world.
    destruct (legacyInstamine (options w)).
    - unfold bind at 1 2. by rewrite (resume_while_mining _ _ Hs).
    - unfold bind at 1, detached. by rewrite (resume_while_mining _ _ Hs). }
  unfold miner_stop, bind, ret. rewrite pause_world.
  cbn [result_of world_of fst snd].
  destruct (status (blockchain w)) eqn:Hs;
    rewrite ?finishMining_status; cbn [result_of world_of fst snd];
    repeat split; try done; by rewrite ?Hs.
Qed.

End Miner.

(** ** Snapshots *)

Section Snapshots.
Context {collab : Collaborators}.

Lemma evm_snapshot_spec (w : World) :
  ∃ w', evm_snapshot w = (Resolved (snapshotCounter (blockchain w) + 1)%N, w') ∧
        snapshotCounter (blockchain w') = (snapshotCounter (blockchain w) + 1)%N ∧
        ∀ j, (j ≤ snapshotCounter (blockchain w))%N →
             snapshots (blockchain w') !! j = snapshots (blockchain w) !! j.
Proof.
  unfold evm_snapshot, snapshot. run. eexists. split; [done|]. simpl.
  split; [done|]. intros j Hj. rewrite lookup_insert_ne; [done|lia].
Qed.

Lemma evm_revert_unknown (id : N) (w : World) :
  snapshots (blockchain w) !! id = None →
  evm_revert id w = (Resolved false, w).
Proof. intros Hno. unfold evm_revert, revert. run. by rewrite Hno. Qed.

Lemma evm_revert_known (id : N) (w : World) (s : Snapshot) :
  snapshots (blockchain w) !! id = Some s →
  evm_revert id w
  = (Resolved true, set_blockchain (restore id s (blockchain w)) w).
Proof. intros Hs. unfold evm_revert, revert. run. by rewrite Hs. Qed.

Lemma restore_snapshots (id j : N) (s : Snapshot) (bc : Blockchain) :
  snapshotCounter (restore id s bc) = snapshotCounter bc ∧
  ((id ≤ j)%N → snapshots (restore id s bc) !! j = None) ∧
  (snapshots bc !! j = None → snapshots (restore id s bc) !! j = None).
Proof.
  unfold restore. simpl. split; [done|]. split.
  - intros Hj. apply map_lookup_filter_None. right. intros x _. simpl. lia.
  - intros Hno. apply map_lookup_filter_None. by left.
Qed.

Lemma evm_mine_world (w : World) :
  world_of (evm_mine NoArg w) = world_of (mine (-1) None w).
Proof.
  unfold evm_mine, bind at 1, get_world. simpl. unfold bind at 1.
  destruct (mine (-1) None w) as [[txs|e] w1]; [|done].
  unfold bind at 1.
  by destruct (vmErrorsOnRPCResponse (options w));
    [unfold lift;
     destruct (assertExceptionalTransactions txs) as [[]|e]|].
Qed.

(** A step never lowers the counter, an issued id is the new value of the
    counter, and an id at most the counter that names no snapshot keeps
    naming none. *)
Lemma evmStep_spec (op : EvmOp) (w : World) :
  (snapshotCounter (blockchain w)
   ≤ snapshotCounter (blockchain (evmStep op w).2))%N ∧
  (∀ id, (evmStep op w).1 = Some id →
         (snapshotCounter (blockchain w) < id)%N ∧
         id = snapshotCounter (blockchain (evmStep op w).2)) ∧
  (∀ j, (j ≤ snapshotCounter (blockchain w))%N →
        snapshots (blockchain w) !! j = None →
        snapshots (blockchain (evmStep op w).2) !! j = None).
Proof.
  destruct op as [|id|]; cbn [evmStep].
  - destruct (evm_snapshot_spec w) as (w' & -> & Hc & Hs).
    cbn [fst snd]. rewrite Hc.
    split; [lia|]. split.
    + intros id [= <-]. split; [lia|done].
    + intros j Hj Hno. by rewrite Hs.
  - destruct (snapshots (blockchain w) !! id) as [s|] eqn:Hs.
    + rewrite (evm_revert_known _ _ _ Hs). cbn [world_of snd blockchain set_blockchain].
      destruct (restore_snapshots id id s (blockchain w)) as (Hc & _).
      rewrite Hc. split; [lia|]. split; [done|].
      intros j Hj Hno. by apply restore_snapshots.
    + rewrite (evm_revert_unknown _ _ Hs). simpl. split; [lia|done].
  - cbn [fst snd]. rewrite evm_mine_world.
    destruct (mine_snapshots (-1) None w) as [Hs Hc].
    rewrite Hs, Hc. split; [lia|done].
Qed.

Lemma issuedIds_above (ops : list EvmOp) :
  ∀ w id, id ∈ issuedIds ops w → (snapshotCounter (blockchain w) < id)%N.
Proof.
  induction ops as [|op ops IH]; intros w id Hin; [by apply elem_of_nil in Hin|].
  simpl in Hin. destruct (evmStep_spec op w) as (Hmono & Hissued & _).
  destruct (evmStep op w).1 as [i|] eqn:Hi.
  - apply elem_of_cons in Hin as [->|Hin].
    + by apply Hissued.
    + apply IH in Hin. lia.
  - apply IH in Hin. lia.
Qed.

(** The ids returned by [evm_snapshot] increase strictly along any sequence
    of calls. *)
Lemma issuedIds_increasing (ops : list EvmOp) :
  ∀ w i1 i2 a b,
    i1 < i2 → issuedIds ops w !! i1 = Some a → issuedIds ops w !! i2 = Some b →
    (a < b)%N.
Proof.
  induction ops as [|op ops IH]; intros w i1 i2 a b Hlt H1 H2; [done|].
  simpl in H1, H2. destruct (evmStep_spec op w) as (Hmono & Hissued & _).
  destruct (evmStep op w).1 as [i|] eqn:Hi; [|by eapply IH].
  destruct i1 as [|i1].
  - simpl in H1. injection H1 as <-.
    destruct i2 as [|i2]; [lia|]. simpl in H2.
    apply list_elem_of_lookup_2, issuedIds_above in H2.
    destruct (Hissued i eq_refl) as [_ ->]. done.
  - destruct i2 as [|i2]; [lia|]. simpl in H1, H2.
    eapply (IH _ i1 i2); [lia|done..].
Qed.

(** An id that has been issued and names no snapshot never names one
    again. *)
Lemma consumed_forever (ops : list EvmOp) :
  ∀ w j,
    (j ≤ snapshotCounter (blockchain w))%N →
    snapshots (blockchain w) !! j = None →
    snapshots (blockchain (afterEvmOps ops w)) !! j = None.
Proof.
  induction ops as [|op ops IH]; intros w j Hj Hno; [done|].
  simpl. destruct (evmStep_spec op w) as (Hmono & _ & Hkeep).
  apply IH; [lia|by apply Hkeep].
Qed.

(** C2. The ids returned by [evm_snapshot] increase strictly; [evm_revert]
    of an unknown id returns [false] and changes nothing; a successful
    [evm_revert k] deletes snapshot [k] and every snapshot with a greater
    id, so that a revert to any [j >= k] right after it returns [false],
    and a revert to any id [j >= k] issued so far returns [false] after
    any further snapshots, reverts and mined blocks. *)
Theorem snapshot_ids_increase_and_revert_consumes
    (w : World) (ops : list EvmOp) (k j : N) :
  (∀ i1 i2 a b,
     i1 < i2 → issuedIds ops w !! i1 = Some a →
     issuedIds ops w !! i2 = Some b → (a < b)%N) ∧
  (snapshots (blockchain w) !! k = None →
   evm_revert k w = (Resolved false, w)) ∧
  (is_Some (snapshots (blockchain w) !! k) →
   let w' := world_of (evm_revert k w) in
   result_of (evm_revert k w) = Resolved true ∧
   ((k ≤ j)%N →
    snapshots (blockchain w') !! j = None ∧
    result_of (evm_revert j w') = Resolved false) ∧
   ((k ≤ j ≤ snapshotCounter (blockchain w))%N →
    result_of (evm_revert j (afterEvmOps ops w')) = Resolved false)).
Proof.
  split; [apply issuedIds_increasing|].
  split; [apply evm_revert_unknown|].
  intros [s Hs] w'. subst w'. rewrite (evm_revert_known _ _ _ Hs).
  cbn [result_of world_of fst snd].
  destruct (restore_snapshots k j s (blockchain w)) as (Hc & Hgone & _).
  split; [done|]. split.
  - intros Hj. split; [by apply Hgone|].
    by rewrite evm_revert_unknown by (by apply Hgone).
  - intros [Hkj Hjc].
    rewrite evm_revert_unknown; [done|].
    apply consumed_forever; cbn [blockchain set_blockchain];
      [by rewrite Hc | by apply Hgone].
Qed.

End Snapshots.

(** ** The trie store: private copies and the shared handle *)

Section TrieStore.
Context {collab : Collaborators}.

Lemma fresh_unallocated (bc : Blockchain) :
  heap bc !! fresh (dom (heap bc)) = None.
Proof. apply not_elem_of_dom, is_fresh. Qed.

Lemma fresh_not_trie (bc : Blockchain) (shared : Trie) :
  heap bc !! trie bc = Some shared → fresh (dom (heap bc)) ≠ trie bc.
Proof.
  intros Hs Heq. pose proof (fresh_unallocated bc) as Hf.
  rewrite Heq, Hs in Hf. done.
Qed.

Lemma with_heap_id (w : World) : with_heap (heap (blockchain w)) w = w.
Proof. destruct w as [o wa bc f i l]. by destruct bc. Qed.

Lemma with_heap_twice (h1 h2 : gmap Ref Trie) (w : World) :
  with_heap h2 (with_heap h1 w) = with_heap h2 w.
Proof. reflexivity. Qed.

Lemma heap_with_heap (h : gmap Ref Trie) (w : World) :
  heap (blockchain (with_heap h w)) = h.
Proof. reflexivity. Qed.

Lemma trie_with_heap (h : gmap Ref Trie) (w : World) :
  trie (blockchain (with_heap h w)) = trie (blockchain w).
Proof. reflexivity. Qed.

Lemma blocks_with_heap (h : gmap Ref Trie) (w : World) :
  blocks (blockchain (with_heap h w)) = blocks (blockchain w).
Proof. reflexivity. Qed.

Lemma deref_with_heap (r : Ref) (h : gmap Ref Trie) (w : World) :
  deref r (blockchain (with_heap h w)) = default Trie_empty (h !! r).
Proof. reflexivity. Qed.

Lemma getEffectiveNumber_with_heap (number : BlockRef)
    (h : gmap Ref Trie) (w : World) :
  getEffectiveNumber number (blockchain (with_heap h w))
  = getEffectiveNumber number (blockchain w).
Proof. by destruct number as [[]|]. Qed.

(** The primitives of the store, as equations. *)
Lemma Trie_copy_eq (r : Ref) (w : World) :
  Trie_copy r w
  = (Resolved (fresh (dom (heap (blockchain w)))),
     with_heap (<[fresh (dom (heap (blockchain w))) := deref r (blockchain w)]>
                  (heap (blockchain w))) w).
Proof. reflexivity. Qed.

Lemma Trie_update_eq (r : Ref) (f : Trie → Trie) (w : World) :
  Trie_update r f w
  = (Resolved tt,
     with_heap (<[r := f (deref r (blockchain w))]> (heap (blockchain w))) w).
Proof. reflexivity. Qed.

Lemma Trie_read_eq {A} (r : Ref) (f : Trie → A) (w : World) :
  Trie_read r f w = (Resolved (f (deref r (blockchain w))), w).
Proof. reflexivity. Qed.

Lemma Trie_discard_eq (r : Ref) (w : World) :
  Trie_discard r w
  = (Resolved tt, with_heap (delete r (heap (blockchain w))) w).
Proof. reflexivity. Qed.

Lemma reads_eq {A} (f : World → A) (w : World) :
  reads f w = (Resolved (f w), w).
Proof. reflexivity. Qed.

Lemma blocks_getRaw_eq (number : BlockRef) (w : World) :
  blocks_getRaw number w
  = (Resolved (blocks (blockchain w)
                 !! N.to_nat (getEffectiveNumber number (blockchain w))), w).
Proof. reflexivity. Qed.

(** Allocating a copy of the shared trie leaves what [blockchain.trie]
    points to as it was. *)
Lemma deref_trie_after_copy (bc : Blockchain) (w : World) :
  bc = blockchain w →
  deref (trie bc)
    (blockchain
       (with_heap (<[fresh (dom (heap bc)) := deref (trie bc) bc]> (heap bc))
          w))
  = deref (trie bc) bc.
Proof.
  intros ->. rewrite deref_with_heap.
  destruct (decide (fresh (dom (heap (blockchain w))) = trie (blockchain w)))
    as [Heq|Hne].
  - by rewrite Heq, lookup_insert_eq.
  - by rewrite lookup_insert_ne.
Qed.

(** What [evm_setStorageAt] does: a copy, the lookup of the block, and a
    throw. *)
Lemma evm_setStorageAt_run
    (address position storage : Buffer) (blockNumber : BlockRef)
    (w : World) :
  let bc := blockchain w in
  evm_setStorageAt address position storage blockNumber w
  = (Rejected
       match blocks bc !! N.to_nat (getEffectiveNumber blockNumber bc) with
       | Some _ => new_ReferenceError "rlpDecode is not defined"
       | None => new_Error "header not found"
       end,
     with_heap (<[fresh (dom (heap bc)) := deref (trie bc) bc]> (heap bc)) w).
Proof.
  intros bc. unfold evm_setStorageAt.
  step reads_eq. step Trie_copy_eq. step blocks_getRaw_eq.
  rewrite getEffectiveNumber_with_heap, blocks_with_heap. fold bc.
  by destruct (blocks bc !! _).
Qed.

(** C9 (the code fails before its write). [evm_setStorageAt] allocates its
    private copy of the trie and looks the block up; for a block that does
    not exist it throws "header not found", and for every block that
    exists it throws a [ReferenceError], because [rlpDecode], which it
    calls on the block, is not declared.  So the write through
    [blockchain.trie] that follows in the text is never reached: all the
    call leaves behind is the private copy, a new object, and what
    [blockchain.trie] points to is as it was. *)
Theorem evm_setStorageAt_throws_before_its_write
    (address position storage : Buffer) (blockNumber : BlockRef)
    (w : World) :
  let bc := blockchain w in
  let privateCopy := fresh (dom (heap bc)) in
  let w' := with_heap (<[privateCopy := deref (trie bc) bc]> (heap bc)) w in
  heap bc !! privateCopy = None ∧
  trie (blockchain w') = trie bc ∧
  deref (trie bc) (blockchain w') = deref (trie bc) bc ∧
  evm_setStorageAt address position storage blockNumber w
  = (Rejected
       match blocks bc !! N.to_nat (getEffectiveNumber blockNumber bc) with
       | Some _ => new_ReferenceError "rlpDecode is not defined"
       | None => new_Error "header not found"
       end, w').
Proof.
  intros bc privateCopy w'.
  split; [apply fresh_unallocated|]. split; [done|].
  split; [by apply deref_trie_after_copy|].
  apply evm_setStorageAt_run.
Qed.

(** *** Speculative execution *)

Lemma VM_runTx_eq (v : Ref) (runArgs : RunArgs) (w : World) :
  VM_runTx v runArgs w
  = match runTx runArgs (deref v (blockchain w)) with
    | Some (res, t') =>
        (Resolved (Some res), with_heap (<[v := t']> (heap (blockchain w))) w)
    | None => (Resolved None, w)
    end.
Proof.
  unfold VM_runTx. step Trie_read_eq. cbv [id].
  destruct (runTx runArgs (deref v (blockchain w))) as [[res t']|]; [|done].
  by step Trie_update_eq.
Qed.

(** Allocating an object, overwriting it any number of times and dropping
    it gives back the store one started from. *)
Lemma discard_fresh (h : gmap Ref Trie) (r : Ref) (t : Trie) :
  h !! r = None → delete r (<[r := t]> h) = h.
Proof. apply delete_insert_id. Qed.

(** A run on a private copy: the copy is allocated, pointed somewhere, run
    against and discarded; the world is what it was, and the outcome is
    that of the interpreter on the copied state. *)
Lemma run_on_private_copy {A} (src : Ref) (f : Trie → Trie)
    (runArgs : RunArgs) (k : option ExecResult → M A) (w : World) :
  (v <- Trie_copy src;;
   Trie_update v f;;;
   result <- VM_runTx v runArgs;;
   Trie_discard v;;;
   k result) w
  = k (fst <$> runTx runArgs (f (deref src (blockchain w)))) w.
Proof.
  pose proof (fresh_unallocated (blockchain w)) as Hfresh.
  set (r := fresh (dom (heap (blockchain w)))) in *.
  step Trie_copy_eq. fold r. step Trie_update_eq.
  rewrite with_heap_twice, deref_with_heap, heap_with_heap.
  rewrite (lookup_insert_eq (heap (blockchain w)) r).
  cbn [default from_option id].
  rewrite (insert_insert_eq (heap (blockchain w)) r).
  step VM_runTx_eq.
  rewrite deref_with_heap, heap_with_heap.
  rewrite (lookup_insert_eq (heap (blockchain w)) r).
  cbn [default from_option id].
  destruct (runTx runArgs (f (deref src (blockchain w)))) as [[res t']|];
    cbv beta iota.
  - rewrite with_heap_twice, (insert_insert_eq (heap (blockchain w)) r).
    step Trie_discard_eq.
    by rewrite with_heap_twice, heap_with_heap, discard_fresh, with_heap_id.
  - step Trie_discard_eq.
    by rewrite with_heap_twice, heap_with_heap, discard_fresh, with_heap_id.
Qed.

Lemma simulateTransaction_frame (transaction : SimulatedTransaction)
    (parentBlock : Block) (w : World) :
  world_of (simulateTransaction transaction parentBlock w) = w.
Proof.
  unfold simulateTransaction. step reads_eq.
  rewrite run_on_private_copy.
  destruct (fst <$> runTx _ _) as [res|]; [|done].
  by destruct (res_exception res).
Qed.

Lemma bind_assoc {A B C} (m : M A) (f : A → M B) (k : B → M C) (w : World) :
  bind (bind m f) k w = bind m (λ x, bind (f x) k) w.
Proof. unfold bind. by destruct (m w) as [[a|e] w']. Qed.

(** The same without the re-pointing of the copy. *)
Lemma run_on_fresh_copy {A} (src : Ref) (runArgs : RunArgs)
    (k : option ExecResult → M A) (w : World) :
  (v <- Trie_copy src;;
   result <- VM_runTx v runArgs;;
   Trie_discard v;;;
   k result) w
  = k (fst <$> runTx runArgs (deref src (blockchain w))) w.
Proof.
  pose proof (fresh_unallocated (blockchain w)) as Hfresh.
  set (r := fresh (dom (heap (blockchain w)))) in *.
  step Trie_copy_eq. fold r.
  step VM_runTx_eq.
  rewrite deref_with_heap.
  rewrite (lookup_insert_eq (heap (blockchain w)) r).
  cbn [default from_option id].
  destruct (runTx runArgs (deref src (blockchain w))) as [[res t']|];
    cbv beta iota.
  - rewrite with_heap_twice, heap_with_heap,
      (insert_insert_eq (heap (blockchain w)) r).
    step Trie_discard_eq.
    by rewrite with_heap_twice, heap_with_heap, discard_fresh, with_heap_id.
  - step Trie_discard_eq.
    by rewrite with_heap_twice, heap_with_heap, discard_fresh, with_heap_id.
Qed.

Lemma trial_frame (runArgs : RunArgs) (g : N) (w : World) :
  trial generateVM runArgs g w
  = (Resolved (fst <$> runTx (runArgs_with_gas g runArgs)
                         (deref (trie (blockchain w)) (blockchain w))), w).
Proof.
  unfold trial, generateVM, VM_copy, vm.
  rewrite bind_assoc. step reads_eq.
  by rewrite run_on_fresh_copy.
Qed.

Lemma binarySearch_frame (runArgs : RunArgs) (fuel : nat) :
  ∀ lo hi w, world_of (binarySearch fuel generateVM runArgs lo hi w) = w.
Proof.
  induction fuel as [|fuel IH]; intros lo hi w; [done|].
  simpl. destruct (lo + 1 <? hi)%N; [|done].
  step trial_frame.
  destruct (ranOutOfGas _); apply IH.
Qed.

Lemma estimateGas_frame (runArgs : RunArgs) (w : World) :
  world_of (estimateGas generateVM runArgs w) = w.
Proof.
  unfold estimateGas. step trial_frame.
  destruct (fst <$> runTx _ _) as [res|]; [|done].
  destruct (res_exception res); [done|].
  destruct (res_outOfGas res); [done|].
  apply binarySearch_frame.
Qed.

Lemma blocks_get_frame (number : BlockRef) (w : World) :
  ∃ o, blocks_get number w = (o, w).
Proof.
  unfold blocks_get. step blocks_getRaw_eq.
  destruct (blocks (blockchain w) !! _) as [b|]; [by eexists|].
  unfold missingBlock. destruct headerNotFound; by eexists.
Qed.

Lemma eth_call_frame (transaction : RpcTransaction) (blockNumber : BlockRef)
    (w : World) :
  world_of (eth_call transaction blockNumber w) = w.
Proof.
  unfold eth_call, bind at 1, get_world, bind at 1.
  destruct (blocks_get_frame blockNumber w) as [[[b|]|e] ->]; try done.
  apply simulateTransaction_frame.
Qed.

Lemma eth_estimateGas_frame (transaction : RpcTransaction)
    (blockNumber : BlockRef) (w : World) :
  world_of (eth_estimateGas transaction blockNumber w) = w.
Proof.
  unfold eth_estimateGas, bind at 1, get_world, bind at 1.
  destruct (blocks_get_frame blockNumber w) as [[[b|]|e] ->]; try done.
  apply estimateGas_frame.
Qed.

(** C1. [eth_call] and [eth_estimateGas] run against a private copy of the
    state and leave the engine, and with it the committed state, exactly as
    it was: whatever the call object and the block reference, the balance,
    the nonce and the storage of any account read afterwards are what they
    were before the call. *)
Theorem call_and_estimateGas_leave_state_untouched
    (transaction : RpcTransaction) (blockNumber : BlockRef) (w : World)
    (address position : Buffer) (readAt : BlockRef) :
  let afterCall := world_of (eth_call transaction blockNumber w) in
  let afterEstimate := world_of (eth_estimateGas transaction blockNumber w) in
  afterCall = w ∧ afterEstimate = w ∧
  (∀ w', w' = afterCall ∨ w' = afterEstimate →
     heap (blockchain w') = heap (blockchain w) ∧
     trie (blockchain w') = trie (blockchain w) ∧
     result_of (eth_getBalance address readAt w')
       = result_of (eth_getBalance address readAt w) ∧
     result_of (eth_getTransactionCount address readAt w')
       = result_of (eth_getTransactionCount address readAt w) ∧
     result_of (eth_getStorageAt address position readAt w')
       = result_of (eth_getStorageAt address position readAt w)).
Proof.
  intros afterCall afterEstimate.
  assert (afterCall = w) as Hcall by apply eth_call_frame.
  assert (afterEstimate = w) as Hestimate by apply eth_estimateGas_frame.
  split; [done|]. split; [done|].
  intros w' [-> | ->]; by rewrite ?Hcall, ?Hestimate.
Qed.

End TrieStore.

(** ** Submitting transactions *)

Section Submission.
Context {collab : Collaborators}.

(** The pool either rejects a transaction and changes nothing, or appends
    it, publishes it and returns its hash; it never touches the chain. *)
Lemma queueTransaction_outcome (tx : Transaction) (key : option Buffer)
    (w : World) :
  (∃ e, queueTransaction tx key w = (Rejected e, w)) ∨
  (∃ queued w',
     queueTransaction tx key w = (Resolved (tx_hash queued), w') ∧
     pool (blockchain w') = pool (blockchain w) ++ [queued] ∧
     blocks (blockchain w') = blocks (blockchain w) ∧
     transactions (blockchain w') = transactions (blockchain w) ∧
     transactionReceipts (blockchain w') = transactionReceipts (blockchain w) ∧
     inFlight (blockchain w') = inFlight (blockchain w)).
Proof.
  unfold queueTransaction, emit. run.
  destruct (tx_from tx) as [sender|]; [|left; by eexists].
  destruct (default _ (tx_nonce tx) <? _)%N; [left; by eexists|].
  destruct (default 0 (tx_gasPrice tx) <? _)%N; [left; by eexists|].
  destruct (blockGasLimit (options w) <? _)%N; [left; by eexists|].
  destruct (from_option acc_balance 0 _ <? _)%N; [left; by eexists|].
  right.
  match goal with
  | |- context [EvPendingTransaction ?q] => exists q
  end.
  eexists. split; [reflexivity|]. by simpl.
Qed.

Lemma queueTransaction_accepts (tx : Transaction) (key : option Buffer)
    (w : World) :
  passesPoolValidation tx w →
  ∃ h, result_of (queueTransaction tx key w) = Resolved h.
Proof.
  intros (sender & Hfrom & Hnonce & Hprice & Hgas & Hfunds).
  unfold queueTransaction, emit. run. rewrite Hfrom.
  rewrite (proj2 (N.ltb_ge _ _) Hnonce), (proj2 (N.ltb_ge _ _) Hprice),
    (proj2 (N.ltb_ge _ _) Hgas), (proj2 (N.ltb_ge _ _) Hfunds).
  by eexists.
Qed.

(** Submission fails before anything is queued when the sender is missing
    or is not unlocked. *)
Lemma eth_sendTransaction_refuses (t : RpcTransaction) (w : World) :
  (senderMissing t →
   eth_sendTransaction t w
   = (Rejected (new_Error "from not found; is required"), w)) ∧
  (senderLocked t w →
   eth_sendTransaction t w
   = (Rejected (new_Error "authentication needed: password or unlock"), w)) ∧
  (senderNotRecognized t w →
   eth_sendTransaction t w
   = (Rejected (new_Error "sender account not recognized"), w)).
Proof.
  unfold eth_sendTransaction, senderMissing, senderLocked, senderNotRecognized.
  cbn [TransactionFactory_fromRpc tx_from].
  split; [by intros ->|]. split.
  - intros (a & -> & Hknown & Hlocked). run. rewrite Hlocked.
    rewrite bool_decide_false by (by intros [x Hx]). simpl.
    by rewrite bool_decide_true.
  - intros (a & -> & Hknown & Hlocked). run. rewrite Hlocked.
    rewrite bool_decide_false by (by intros [x Hx]). simpl.
    by rewrite bool_decide_false.
Qed.

(** Whatever the call object, a submission that resolves has queued the
    transaction whose hash it returns and has mined nothing. *)
Lemma eth_sendTransaction_resolves_queued (t : RpcTransaction) (w w' : World)
    (h : Hash) :
  eth_sendTransaction t w = (Resolved h, w') →
  ∃ queued,
    tx_hash queued = h ∧
    pool (blockchain w') = pool (blockchain w) ++ [queued] ∧
    blocks (blockchain w') = blocks (blockchain w) ∧
    transactions (blockchain w') = transactions (blockchain w) ∧
    transactionReceipts (blockchain w') = transactionReceipts (blockchain w).
Proof.
  unfold eth_sendTransaction.
  destruct (tx_from (TransactionFactory_fromRpc t)) as [a|]; [|by run].
  unfold bind at 1, get_world.
  destruct (bool_decide (is_Some (unlockedAccounts (wallet w) !! a)));
    [|by run].
  cbn [negb].
  assert (∀ tx key,
            queueTransaction tx key w = (Resolved h, w') →
            ∃ queued,
              tx_hash queued = h ∧
              pool (blockchain w') = pool (blockchain w) ++ [queued] ∧
              blocks (blockchain w') = blocks (blockchain w) ∧
              transactions (blockchain w') = transactions (blockchain w) ∧
              transactionReceipts (blockchain w')
              = transactionReceipts (blockchain w)) as Hqueue.
  { intros tx key Hq.
    destruct (queueTransaction_outcome tx key w)
      as [[e He] | (queued & w1 & Hq1 & Hp & Hb & Ht & Hr & _)].
    - rewrite He in Hq. discriminate Hq.
    - rewrite Hq1 in Hq. injection Hq as <- <-. by exists queued. }
  destruct (tx_gas (TransactionFactory_fromRpc t)) as [g|].
  - unfold bind at 1, ret. apply Hqueue.
  - destruct (defaultTransactionGasLimit (options w)) as [d|].
    + unfold bind at 1, ret. apply Hqueue.
    + unfold bind at 1 2.
      pose proof (eth_estimateGas_frame t (ByTag LATEST) w) as Hframe.
      destruct (eth_estimateGas t (ByTag LATEST) w) as [[g|e] w1];
        simpl in Hframe; subst w1; [|discriminate].
      unfold ret. apply Hqueue.
Qed.

(** A submission from an unlocked sender whose gas limit is known and which
    passes the validation of the pool resolves. *)
Lemma eth_sendTransaction_accepts (t : RpcTransaction) (w : World)
    (sender : Address) (g : N) :
  rpc_from t = Some sender →
  is_Some (unlockedAccounts (wallet w) !! sender) →
  gasLimitIs t g w →
  passesPoolValidation (prepared t g w) w →
  ∃ h, result_of (eth_sendTransaction t w) = Resolved h.
Proof.
  intros Hfrom Hunlocked Hgas Hvalid.
  unfold eth_sendTransaction.
  replace (tx_from (TransactionFactory_fromRpc t)) with (Some sender) by done.
  unfold bind at 1, get_world.
  rewrite bool_decide_true by done. cbn [negb].
  assert (∀ tx,
            tx = tx_with_gas g (TransactionFactory_fromRpc t) →
            ∃ h, result_of
                   (queueTransaction
                      match tx_gasPrice tx with
                      | Some _ => tx
                      | None => tx_with_gasPrice (gasPrice (options w)) tx
                      end (unlockedAccounts (wallet w) !! sender) w)
                 = Resolved h) as Hq.
  { intros tx ->. apply queueTransaction_accepts.
    unfold prepared in Hvalid.
    by destruct (tx_gasPrice (tx_with_gas g (TransactionFactory_fromRpc t))). }
  destruct Hgas as [Hg | [Hg Hd]]; rewrite Hg.
  - unfold bind at 1, ret. apply Hq.
    destruct (TransactionFactory_fromRpc t); simpl in *. by subst.
  - rewrite Hd. unfold bind at 1, ret. by apply Hq.
Qed.

(** C6. [eth_sendTransaction] from a sender that is missing, locked or not
    recognized rejects at once with the matching error and leaves the
    engine, hence the pool, as it was; a submission that resolves returns
    the hash of the transaction it has appended to the pool, with no block
    mined and no receipt made; and a submission from an unlocked sender
    that passes the validation of the pool does resolve. *)
Theorem eth_sendTransaction_validates_then_queues
    (t : RpcTransaction) (w : World) :
  (senderMissing t →
   eth_sendTransaction t w
   = (Rejected (new_Error "from not found; is required"), w)) ∧
  (senderLocked t w →
   eth_sendTransaction t w
   = (Rejected (new_Error "authentication needed: password or unlock"), w)) ∧
  (senderNotRecognized t w →
   eth_sendTransaction t w
   = (Rejected (new_Error "sender account not recognized"), w)) ∧
  (∀ h w', eth_sendTransaction t w = (Resolved h, w') →
     ∃ queued,
       tx_hash queued = h ∧
       pool (blockchain w') = pool (blockchain w) ++ [queued] ∧
       blocks (blockchain w') = blocks (blockchain w) ∧
       transactions (blockchain w') = transactions (blockchain w) ∧
       transactionReceipts (blockchain w')
       = transactionReceipts (blockchain w)) ∧
  (∀ sender g,
     rpc_from t = Some sender →
     is_Some (unlockedAccounts (wallet w) !! sender) →
     gasLimitIs t g w →
     passesPoolValidation (prepared t g w) w →
     ∃ h, result_of (eth_sendTransaction t w) = Resolved h).
Proof.
  destruct (eth_sendTransaction_refuses t w) as (Hmissing & Hlocked & Hunknown).
  split; [done|]. split; [done|]. split; [done|]. split.
  - intros h w'. apply eth_sendTransaction_resolves_queued.
  - intros sender g. apply eth_sendTransaction_accepts.
Qed.

End Submission.

(** * Further properties *)

(** ** Storage positions *)

Section StoragePositions.
Context {collab : Collaborators}.


End StoragePositions.

(** ** More on manual mining *)

Section FurtherMining.
Context {collab : Collaborators}.

(** The block a mining operation commits is numbered by its place. *)
Lemma mine_commit_number (m : Z) (ts : option N) (w : World) :
  ∃ b, blocks (blockchain (world_of (mine m ts w)))
       = blocks (blockchain w) ++ [b] ∧
       hd_number (blk_header b) = N.of_nat (length (blocks (blockchain w))).
Proof.
  unfold mine, startMining, finishMining, emit. run.
  destruct (drain m (pool (blockchain w))) as [batch rest] eqn:Hd. simpl.
  match goal with
  | |- context [processBatch ?rb batch ?t] =>
      destruct (processBatch rb batch t) as [[included skipped] final] eqn:Hp
  end.
  simpl. by eexists.
Qed.

Lemma mineLoop_options (strict : bool) (ts : option N) (n : nat) (w : World) :
  options (world_of (mineLoop strict ts n w)) = options w.
Proof.
  revert w. induction n as [|n IH]; intros w; [done|].
  simpl. unfold bind at 1. rewrite mine_resolves.
  rewrite <- (mine_options ts w). unfold bind at 1.
  destruct strict; [|apply IH].
  unfold lift.
  destruct (assertExceptionalTransactions (batchOf ts w)) as [[]|e];
    [apply IH | done].
Qed.

(** A loop that completes has run all its mining operations. *)
Lemma mineLoop_resolved (strict : bool) (ts : option N) (n : nat)
    (w w' : World) (u : unit) :
  mineLoop strict ts n w = (Resolved u, w') → w' = afterMining ts n w.
Proof.
  revert w. induction n as [|n IH]; intros w; simpl.
  - unfold ret. by intros [= _ <-].
  - unfold bind at 1. rewrite mine_resolves. unfold bind at 1.
    destruct strict; [|apply IH].
    unfold lift.
    destruct (assertExceptionalTransactions (batchOf ts w)) as [[]|e];
      [apply IH | done].
Qed.

(** The loop for [n + m] blocks is the loop for [n] followed by the loop
    for [m]. *)
Lemma mineLoop_add (strict : bool) (ts : option N) (n m : nat) (w : World) :
  mineLoop strict ts (n + m) w
  = (mineLoop strict ts n;;; mineLoop strict ts m) w.
Proof.
  revert w. induction n as [|n IH]; intros w; [done|].
  cbn [Nat.add mineLoop]. unfold bind.
  destruct (mine (-1) ts w) as [[txs|e] w1]; [|done].
  destruct ((if strict then lift (assertExceptionalTransactions txs)
             else ret tt) w1) as [[[]|e] w2]; [|done].
  by rewrite IH.
Qed.

(** X2. The argument forms of [evm_mine] agree: no argument is the empty
    options object, a bare timestamp is the options object holding it, and
    both mine one block, as [blocks: 1] does; with a [blocks] count of
    zero or less nothing is mined and the state is left as it was. *)
Theorem evm_mine_argument_forms (w : World) :
  evm_mine NoArg w = evm_mine (OptionsArg None None) w ∧
  evm_mine NoArg w = evm_mine (OptionsArg None (Some 1%Z)) w ∧
  (∀ t, evm_mine (TimestampArg t) w
        = evm_mine (OptionsArg (Some t) None) w) ∧
  (∀ ts count, (count ≤ 0)%Z →
     evm_mine (OptionsArg ts (Some count)) w = (Resolved "0x0", w)).
Proof.
  split; [by rewrite !evm_mine_as_loop|].
  split; [by rewrite !evm_mine_as_loop|].
  split; [intros t; by rewrite !evm_mine_as_loop|].
  intros ts count Hcount. rewrite evm_mine_as_loop.
  cbn [blocksAsked default from_option id].
  by replace (Z.to_nat count) with 0 by lia.
Qed.

(** X3. Mining [n + m] blocks in one call of [evm_mine] is mining [n]
    blocks and then [m] blocks in two calls: the same outcome (also when
    strict failure reporting cuts the first call short) and the same final
    state. *)
Theorem evm_mine_blocks_compose (ts : option N) (n m : nat) (w : World) :
  evm_mine (OptionsArg ts (Some (Z.of_nat (n + m)))) w
  = evm_mine_twice (OptionsArg ts (Some (Z.of_nat n)))
      (OptionsArg ts (Some (Z.of_nat m))) w.
Proof.
  unfold evm_mine_twice, bind at 1. rewrite !evm_mine_as_loop.
  cbn [blocksAsked timestampOf default from_option id].
  rewrite !Nat2Z.id, mineLoop_add. unfold bind at 1.
  pose proof (mineLoop_options (vmErrorsOnRPCResponse (options w)) ts n w)
    as Ho.
  destruct (mineLoop (vmErrorsOnRPCResponse (options w)) ts n w)
    as [[[]|e] w1]; [|done].
  simpl in Ho. rewrite evm_mine_as_loop, Ho.
  cbn [blocksAsked timestampOf default from_option id].
  by rewrite Nat2Z.id.
Qed.

End FurtherMining.

(** ** The head of the chain *)

Section ChainHead.
Context {collab : Collaborators}.

Lemma mine_contiguous (ts : option N) (w : World) :
  contiguous w → contiguous (world_of (mine (-1) ts w)).
Proof.
  intros Hc i b. destruct (mine_commit_number (-1) ts w) as (b' & -> & Hn).
  intros Hi. destruct (decide (i < length (blocks (blockchain w)))) as [Hlt|Hge].
  - rewrite lookup_app_l in Hi by done. by apply Hc.
  - rewrite lookup_app_r in Hi by lia.
    destruct (i - length (blocks (blockchain w))) as [|j] eqn:Hj;
      [|by destruct j].
    simpl in Hi. injection Hi as <-. rewrite Hn. f_equal. lia.
Qed.

Lemma afterMining_contiguous (ts : option N) (k : nat) (w : World) :
  contiguous w → contiguous (afterMining ts k w).
Proof.
  revert w. induction k as [|k IH]; intros w Hc; [done|].
  simpl. by apply IH, mine_contiguous.
Qed.

(** On a chain numbered by place, the block number is the length of the
    chain less one. *)
Lemma eth_blockNumber_contiguous (w : World) (k : N) :
  contiguous w →
  result_of (eth_blockNumber w) = Resolved k →
  N.of_nat (length (blocks (blockchain w))) = (k + 1)%N.
Proof.
  intros Hc. unfold eth_blockNumber. run.
  destruct (last (blocks (blockchain w))) as [b|] eqn:Hlast; [|done].
  simpl. intros [= <-].
  rewrite last_lookup in Hlast. rewrite (Hc _ _ Hlast).
  apply lookup_lt_Some in Hlast. lia.
Qed.

Lemma eth_blockNumber_nonempty (w : World) (k : nat) :
  contiguous w →
  length (blocks (blockchain w)) = S k →
  eth_blockNumber w = (Resolved (N.of_nat k), w).
Proof.
  intros Hc Hlen. unfold eth_blockNumber. run.
  destruct (last (blocks (blockchain w))) as [b|] eqn:Hlast.
  - simpl. rewrite last_lookup, Hlen in Hlast. simpl in Hlast.
    by rewrite (Hc _ _ Hlast).
  - apply last_None in Hlast. by rewrite Hlast in Hlen.
Qed.

(** X4. On a chain whose blocks are numbered by their place, a call of
    [evm_mine] that resolves advances [eth_blockNumber] by exactly the
    number of blocks asked for. *)
Theorem eth_blockNumber_counts_mined_blocks
    (arg : MineArg) (w : World) (k : N) :
  contiguous w →
  result_of (eth_blockNumber w) = Resolved k →
  result_of (evm_mine arg w) = Resolved "0x0" →
  result_of (eth_blockNumber (world_of (evm_mine arg w)))
  = Resolved (k + N.of_nat (blocksAsked arg))%N.
Proof.
  intros Hc Hk. pose proof (eth_blockNumber_contiguous w k Hc Hk) as Hlen.
  rewrite evm_mine_as_loop.
  destruct (mineLoop _ _ _ w) as [[u|e] w1] eqn:Hloop; [|done].
  intros _. cbn [world_of snd].
  apply mineLoop_resolved in Hloop. subst w1.
  assert (length (blocks (blockchain
            (afterMining (timestampOf arg) (blocksAsked arg) w)))
          = S (N.to_nat k + blocksAsked arg)) as Hlen'.
  { rewrite afterMining_blocks. lia. }
  rewrite (eth_blockNumber_nonempty _ _
             (afterMining_contiguous _ _ _ Hc) Hlen').
  unfold result_of. cbn [fst]. f_equal. lia.
Qed.

End ChainHead.

(** ** More on strict failure reporting *)

Section FurtherReporting.
Context {collab : Collaborators}.

Lemma clean_dec (txs : list Transaction) : clean txs ∨ ¬ clean txs.
Proof.
  induction txs as [|tx txs [IH|IH]].
  - left. intros tx Hin. by apply elem_of_nil in Hin.
  - destruct (tx_execException tx) as [e|] eqn:He.
    + right. intros Hc. by rewrite (Hc tx) in He by left.
    + left. intros tx' [->|Hin]%elem_of_cons; auto.
  - right. intros Hc. apply IH. intros tx' Hin. apply Hc. by right.
Qed.

Lemma forEach_app {S A} (f : S → A → Outcome S) (l1 l2 : list A) (st : S) :
  forEach f (l1 ++ l2) st
  = match forEach f l1 st with
    | Resolved st' => forEach f l2 st'
    | Rejected e => Rejected e
    end.
Proof.
  revert st. induction l1 as [|x l1 IH]; intros st; [done|].
  simpl. by destruct (f st x).
Qed.

(** X5. [assertExceptionalTransactions] returns normally exactly for the
    batches without an execution exception; for a batch with a single
    exception it throws an error whose message is the constant
    [VM_EXCEPTION] followed by the message of the exception, and whose
    data holds the exception data under its hash and nothing else. *)
Theorem assertExceptionalTransactions_throws_iff_exception
    (txs : list Transaction) :
  VM_EXCEPTION ≠ EmptyString → VM_EXCEPTIONS ≠ EmptyString →
  (assertExceptionalTransactions txs = Resolved tt ↔ clean txs) ∧
  (∀ pre tx post e,
     txs = pre ++ tx :: post → clean pre → clean post →
     tx_execException tx = Some e →
     assertExceptionalTransactions txs = Rejected (singleError e)).
Proof.
  intros H1 H2. split.
  - split; [|apply assertExceptionalTransactions_clean].
    intros Hr. destruct (clean_dec txs) as [Hc|Hn]; [done|].
    destruct (assertExceptionalTransactions_throws txs H1 H2 Hn)
      as (err & Herr & _).
    by rewrite Herr in Hr.
  - intros pre tx post e -> Hpre Hpost He.
    unfold assertExceptionalTransactions.
    rewrite forEach_app, forEach_assert_clean by done.
    cbn [forEach]. unfold assert_callback at 1. rewrite He.
    cbn [baseError Js.truthy].
    rewrite forEach_assert_clean by done.
    cbn [baseError errors data].
    rewrite truthy_Some by done.
    unfold singleError, Js.join. cbn [concat].
    by rewrite insert_empty.
Qed.

End FurtherReporting.

(** ** More on filters *)

Section FurtherFilters.
Context {collab : Collaborators} {codecs : Codecs}.

Lemma emit_filters (ev : ChainEvent) (w : World) (id : N) :
  filters (world_of (emit ev w)) !! id = deliver ev w <$> filters w !! id.
Proof. unfold emit. run. apply lookup_fmap. Qed.

Lemma publishAll_uninstalled (evs : list ChainEvent) (w : World) (id : N) :
  filters w !! id = None → filters (publishAll evs w) !! id = None.
Proof.
  revert w. induction evs as [|ev evs IH]; intros w Hnone; [done|].
  change (publishAll (ev :: evs) w)
    with (publishAll evs (world_of (emit ev w))).
  apply IH. by rewrite emit_filters, Hnone.
Qed.

(** X6. [eth_uninstallFilter] tells whether the filter was registered and
    takes it, and only it, out of the table: afterwards polling it fails
    with "filter not found", uninstalling it again returns [false], and no
    event published later reaches it; the rest of the engine is as it
    was. *)
Theorem eth_uninstallFilter_removes_the_filter (id : N) (w : World) :
  let w' := world_of (eth_uninstallFilter id w) in
  result_of (eth_uninstallFilter id w)
    = Resolved (bool_decide (is_Some (filters w !! id))) ∧
  w' = set_filters (delete id (filters w)) w ∧
  eth_getFilterChanges id w' = (Rejected (new_Error "filter not found"), w') ∧
  eth_uninstallFilter id w' = (Resolved false, w') ∧
  ∀ evs, filters (publishAll evs w') !! id = None.
Proof.
  intros w'.
  assert (w' = set_filters (delete id (filters w)) w) as Hw'.
  { subst w'. unfold eth_uninstallFilter. run.
    destruct (filters w !! id) as [f|] eqn:Hf; simpl; [done|].
    rewrite delete_id by done. by destruct w. }
  assert (filters w' !! id = None) as Hnone.
  { rewrite Hw'. simpl. apply lookup_delete_eq. }
  split.
  { unfold eth_uninstallFilter, bind at 1, get_world.
    destruct (filters w !! id) as [f|] eqn:Hf.
    - by rewrite bool_decide_true by done.
    - by rewrite bool_decide_false by (by intros [x Hx]). }
  split; [done|].
  split; [by apply eth_getFilterChanges_unknown|].
  split.
  { unfold eth_uninstallFilter. run. by rewrite Hnone. }
  intros evs. by apply publishAll_uninstalled.
Qed.

End FurtherFilters.

Section FilterIds.
Context {collab : Collaborators} {codecs : Codecs}.

Lemma set_filters_id (w : World) : set_filters (filters w) w = w.
Proof. by destruct w. Qed.

(** What installing a filter does. *)
Lemma installFilter_run (req : FilterRequest) (w : World) :
  ∃ f, flt_updates f = [] ∧
       flt_type f = match req with
                    | NewBlockFilter => FilterBlock
                    | NewPendingTransactionFilter => FilterPendingTransaction
                    | NewFilter _ => FilterLog
                    end ∧
       flt_filter f = match req with
                      | NewFilter filter => Some filter
                      | _ => None
                      end ∧
       installFilter req w
       = (Resolved (lastId w + 1)%N,
          set_filters (<[(lastId w + 1)%N := f]> (filters w))
            (set_lastId (lastId w + 1)%N w)).
Proof.
  destruct req;
    (eexists; split; [|split; [|split; [|reflexivity]]]; reflexivity).
Qed.

(** X7. Installing a filter, of any of the three kinds, on a table whose
    ids were all issued by the counter, yields the next value of the
    counter, which no registered filter has; the new filter starts with
    nothing to report, the filters already registered are untouched, and
    the table is again one whose ids were issued by the counter. *)
Theorem new_filters_get_fresh_ids (req : FilterRequest) (w : World) :
  filterIdsIssued w →
  let id := (lastId w + 1)%N in
  let w' := world_of (installFilter req w) in
  result_of (installFilter req w) = Resolved id ∧
  filters w !! id = None ∧
  (∀ j, j ≠ id → filters w' !! j = filters w !! j) ∧
  eth_getFilterChanges id w' = (Resolved [], w') ∧
  filterIdsIssued w'.
Proof.
  intros Hissued id w'.
  destruct (installFilter_run req w) as (f & Hu & Ht & Hf & Hrun).
  subst w'. rewrite Hrun. cbn [result_of world_of fst snd]. fold id.
  split; [done|].
  assert (filters w !! id = None) as Hfresh.
  { destruct (filters w !! id) as [g|] eqn:Hg; [|done].
    assert (id ≤ lastId w)%N by (apply Hissued; by rewrite Hg).
    subst id. lia. }
  split; [done|].
  split; [intros j Hj; simpl; by rewrite lookup_insert_ne|].
  split.
  - rewrite (eth_getFilterChanges_registered id _ f)
      by (simpl; by rewrite lookup_insert_eq).
    rewrite Hu. f_equal. cbn [filters set_filters set_lastId].
    rewrite insert_insert_eq.
    assert (drained f = f) as -> by (destruct f; simpl in *; by subst).
    done.
  - intros j [g Hg]. simpl in *.
    destruct (decide (j = id)) as [->|Hne]; [done|].
    rewrite lookup_insert_ne in Hg by done.
    assert (j ≤ lastId w)%N by (apply Hissued; by rewrite Hg).
    subst id. lia.
Qed.

(** X8. [eth_getFilterLogs] serves log filters only: for a filter
    installed by [eth_newFilter] it is [eth_getLogs] of the filter's
    arguments, for a block or pending-transaction filter it fails with
    "filter not found" although the filter is registered, as it does for
    an uninstalled filter; and it never changes the state, so the updates
    a filter has buffered stay there for [eth_getFilterChanges]. *)
Theorem eth_getFilterLogs_serves_log_filters_only
    (req : FilterRequest) (j : N) (w : World) :
  let id := (lastId w + 1)%N in
  let w' := world_of (installFilter req w) in
  eth_getFilterLogs id w'
    = match req with
      | NewFilter filter => eth_getLogs (Some filter) w'
      | _ => (Rejected (new_Error "filter not found"), w')
      end ∧
  world_of (eth_getFilterLogs j w) = w ∧
  (let gone := world_of (eth_uninstallFilter j w) in
   eth_getFilterLogs j gone = (Rejected (new_Error "filter not found"), gone)).
Proof.
  intros id w'. split; [|split].
  - destruct (installFilter_run req w) as (f & Hu & Ht & Hf & Hrun).
    subst w'. rewrite Hrun. cbn [world_of snd].
    unfold eth_getFilterLogs, bind at 1, get_world.
    cbn [filters set_filters]. rewrite lookup_insert_eq, Ht, Hf.
    by destruct req.
  - unfold eth_getFilterLogs, eth_getLogs. run.
    destruct (filters w !! j) as [f|]; [|done].
    by destruct (flt_type f).
  - intros gone.
    assert (filters gone !! j = None) as Hnone.
    { subst gone. unfold eth_uninstallFilter. run.
      destruct (filters w !! j) as [f|] eqn:Hf; simpl; [|done].
      apply lookup_delete_eq. }
    unfold eth_getFilterLogs, bind at 1, get_world. by rewrite Hnone.
Qed.

End FilterIds.

(** ** More on lookups *)

Section FurtherLookups.
Context {collab : Collaborators} {codecs : Codecs}.

Lemma find_hash_pending (hash : Hash) (l : list Transaction) :
  match List.find (λ tx, bool_decide (tx_hash tx = hash)) l with
  | Some tx => tx_hash tx = hash ∧ Exists (λ tx, tx_hash tx = hash) l
  | None => ¬ Exists (λ tx, tx_hash tx = hash) l
  end.
Proof.
  induction l as [|tx l IH]; simpl.
  - by intros ?%Exists_nil.
  - destruct (decide (tx_hash tx = hash)) as [Heq|Hne].
    + rewrite bool_decide_true by done. split; [done|]. by left.
    + rewrite bool_decide_false by done.
      destruct (List.find _ l) as [tx'|].
      * destruct IH as [? ?]. split; [done|]. by right.
      * by intros [?|?]%Exists_cons.
Qed.

Lemma latest_after_mine (ts : option N) (w : World) :
  ∃ b, blocks (blockchain (world_of (mine (-1) ts w)))
         !! N.to_nat (getEffectiveNumber (ByTag LATEST)
                        (blockchain (world_of (mine (-1) ts w))))
       = Some b ∧
       blk_transactions b = batchOf ts w.
Proof.
  unfold batchOf, result_of, world_of.
  destruct (mine_commit (-1) ts w) as (txs & b & w' & -> & _ & _ & Hb & Htx & _).
  cbn [fst snd getEffectiveNumber]. unfold latestNumber.
  exists b. split; [|done].
  rewrite Hb, length_app. cbn [length].
  replace (N.to_nat (N.of_nat (length (blocks (blockchain w)) + 1) - 1))
    with (length (blocks (blockchain w)) + 0) by lia.
  by rewrite lookup_app_r, Nat.add_comm, Nat.add_sub by lia.
Qed.

(** X9. [eth_getBlockTransactionCountByNumber] never returns a count.
    For a block that does not exist it resolves with [null], as
    [eth_getBlockByNumber] does; for every block that exists, the latest
    one after a mining operation for instance, it throws a
    [ReferenceError], because [rlpDecode], which it calls on the block, is
    not declared.  It never changes the state. *)
Theorem eth_getBlockTransactionCountByNumber_null_or_throws
    (number : BlockRef) (full : bool) (ts : option N) (w : World) :
  let mined := world_of (mine (-1) ts w) in
  match blocks (blockchain w)
          !! N.to_nat (getEffectiveNumber number (blockchain w)) with
  | None =>
      eth_getBlockTransactionCountByNumber number w = (Resolved None, w) ∧
      eth_getBlockByNumber number full w = (Resolved None, w)
  | Some _ =>
      eth_getBlockTransactionCountByNumber number w
      = (Rejected (new_ReferenceError "rlpDecode is not defined"), w)
  end ∧
  eth_getBlockTransactionCountByNumber (ByTag LATEST) mined
  = (Rejected (new_ReferenceError "rlpDecode is not defined"), mined).
Proof.
  intros mined. split.
  - destruct (blocks (blockchain w) !! _) as [b|] eqn:Hb.
    + unfold eth_getBlockTransactionCountByNumber.
      step blocks_getRaw_eq. by rewrite Hb.
    + split; [|by apply eth_getBlockByNumber_missing].
      unfold eth_getBlockTransactionCountByNumber.
      step blocks_getRaw_eq. by rewrite Hb.
  - destruct (latest_after_mine ts w) as (b & Hb & _).
    unfold eth_getBlockTransactionCountByNumber.
    step blocks_getRaw_eq. fold mined in Hb. by rewrite Hb.
Qed.

Lemma parseInt_Quantity (n : N) :
  Js.parseInt (Quantity_toString n) = Some 0%N.
Proof. reflexivity. Qed.

(** X26. [eth_getTransactionByBlockNumberAndIndex] does not look at the
    index it is given: the index is rendered as a hexadecimal quantity,
    ["0x..."], and read back with [parseInt(.., 10)], which stops at the
    [x] and yields 0.  So for every index the call behaves as for index 0,
    and for a block that exists it resolves with the first transaction of
    the block, or with [undefined] when the block has none. *)
Theorem eth_getTransactionByBlockNumberAndIndex_ignores_the_index
    (number : BlockRef) (index : N) (w : World) :
  eth_getTransactionByBlockNumberAndIndex number index w
  = eth_getTransactionByBlockNumberAndIndex number 0 w ∧
  ∀ b, blocks (blockchain w)
         !! N.to_nat (getEffectiveNumber number (blockchain w)) = Some b →
       eth_getTransactionByBlockNumberAndIndex number index w
       = (Resolved (FullTransaction <$> blk_transactions b !! 0), w).
Proof.
  unfold eth_getTransactionByBlockNumberAndIndex.
  rewrite !parseInt_Quantity. split; [done|].
  intros b Hb. unfold bind at 1.
  assert (eth_getBlockByNumber number true w
          = (Resolved (Some (Block_toJSON true b)), w)) as ->.
  { unfold eth_getBlockByNumber, bind, catch.
    by rewrite (blocks_get_found _ _ _ Hb). }
  unfold ret. cbn [Block_toJSON json_transactions].
  by rewrite list_lookup_fmap.
Qed.

(** X10. [eth_getTransactionByHash] looks in the database of mined
    transactions first and in the pool second, and changes nothing.  So a
    transaction that [eth_sendTransaction] has just queued, and that was
    not mined before, is found as a pending transaction with the hash the
    submission returned, while [eth_getTransactionReceipt] has no receipt
    for it yet. *)
Theorem eth_getTransactionByHash_finds_the_queued_transaction
    (t : RpcTransaction) (w w' : World) (h : Hash) :
  eth_sendTransaction t w = (Resolved h, w') →
  notMined h w →
  (∃ tx, tx_hash tx = h ∧
         eth_getTransactionByHash h w'
         = (Resolved (Some (PendingTransaction tx)), w')) ∧
  result_of (eth_getTransactionReceipt h w') = Resolved None.
Proof.
  intros Hsend Hnot.
  destruct (eth_sendTransaction_resolves_queued _ _ _ _ Hsend)
    as (queued & Hh & Hpool & _ & Htxs & _).
  assert (notMined h w') as Hnot' by (unfold notMined; by rewrite Htxs).
  split; [|by apply eth_getTransactionReceipt_not_mined].
  unfold eth_getTransactionByHash, transactions_get, transactionPool_find.
  run. rewrite Hnot'.
  pose proof (find_hash_pending h (pool (blockchain w'))) as Hfind.
  destruct (List.find _ _) as [tx|]; [by exists tx; destruct Hfind|].
  exfalso. apply Hfind. rewrite Hpool.
  apply Exists_app. right. by left.
Qed.

Lemma eth_getTransactionReceipt_world (hash : Hash) (w : World) :
  world_of (eth_getTransactionReceipt hash w)
  = match transactions (blockchain w) !! hash with
    | Some _ => w
    | None =>
        if (blockTime (options w) <=? 0)%Z
           && negb (legacyInstamine (options w))
           && match status (blockchain w) with Mining => true | _ => false end
        then match List.find (λ tx, bool_decide (tx_hash tx = hash))
                     (pool (blockchain w)) with
             | Some _ => set_logger (logger w ++ [notMinedNotice hash]) w
             | None => w
             end
        else w
    end.
Proof.
  unfold eth_getTransactionReceipt, transactions_get,
    transactionReceipts_get, isStarted, transactionPool_find.
  unfold bind at 1, reads at 1. unfold bind at 1, reads at 1.
  destruct (transactions (blockchain w) !! hash) as [[tx n]|] eqn:Hmined.
  - unfold bind at 1. cbn [snd].
    destruct (blocks_get_frame (ByNumber n) w) as [[o|e] ->]; [|done].
    by destruct (transactionReceipts (blockchain w) !! hash).
  - run. destruct (_ && _); [|done].
    by destruct (List.find _ _).
Qed.

(** X11. [eth_getTransactionReceipt] never changes the chain, the pool or
    the filters: the only trace it can leave is one notice appended to the
    log, and it leaves it exactly when the transaction is not mined but
    waits in the pool of an engine that mines at once, not in legacy mode,
    and is started. *)
Theorem eth_getTransactionReceipt_only_logs (hash : Hash) (w : World) :
  (noticeDue hash w ∧
   world_of (eth_getTransactionReceipt hash w)
   = set_logger (logger w ++ [notMinedNotice hash]) w) ∨
  (¬ noticeDue hash w ∧ world_of (eth_getTransactionReceipt hash w) = w).
Proof.
  rewrite eth_getTransactionReceipt_world.
  unfold noticeDue, notMined, pending.
  destruct (transactions (blockchain w) !! hash) as [[tx n]|] eqn:Hmined;
    [right; split; [by intros [? _] | done]|].
  pose proof (find_hash_pending hash (pool (blockchain w))) as Hfind.
  destruct (blockTime (options w) <=? 0)%Z eqn:Hbt;
    [apply Z.leb_le in Hbt | apply Z.leb_gt in Hbt];
    [|right; split; [intros (_ & _ & ? & _); lia | done]].
  destruct (legacyInstamine (options w)) eqn:Hlegacy;
    [right; split; [by intros (_ & _ & _ & ? & _) | done]|].
  destruct (status (blockchain w)) eqn:Hstatus;
    try (right; split; [by intros (_ & _ & _ & _ & ?) | done]).
  cbn [negb andb].
  destruct (List.find _ _) as [tx|].
  - left. by destruct Hfind.
  - right. split; [by intros (_ & ? & _) | done].
Qed.

End FurtherLookups.

(** ** More on the trie store *)

Section FurtherTrieStore.
Context {collab : Collaborators} {codecs : Codecs}.

(** What [eth_getStorageAt] does to the store when the block is found. *)
Lemma eth_getStorageAt_run
    (address position : Buffer) (blockNumber : BlockRef)
    (w : World) (block : Block) :
  let bc := blockchain w in
  blocks bc !! N.to_nat (getEffectiveNumber blockNumber bc) = Some block →
  let shared := deref (trie bc) bc in
  let privateCopy := fresh (dom (heap bc)) in
  let accountRoot :=
    decodeStateRoot
      (Trie_get address
         (Trie_setRoot (hd_stateRoot (blk_header block)) shared)) in
  eth_getStorageAt address position blockNumber w
  = (Resolved (decodeWord (Trie_get (padPosition position)
                             (Trie_setRoot accountRoot shared))),
     with_heap (<[privateCopy := Trie_setRoot accountRoot shared]> (heap bc))
       w).
Proof.
  intros bc Hblock shared privateCopy accountRoot.
  unfold eth_getStorageAt, getRawByBlockNumber.
  step reads_eq. step reads_eq. fold bc. rewrite Hblock.
  step Trie_copy_eq. step Trie_update_eq. step Trie_read_eq.
  step Trie_update_eq. step Trie_read_eq.
  rewrite !with_heap_twice, !deref_with_heap, !heap_with_heap.
  fold bc privateCopy shared.
  repeat (rewrite ?(insert_insert_eq (heap bc) privateCopy),
            ?(lookup_insert_eq (heap bc) privateCopy);
          progress cbn [default from_option id]).
  by rewrite ?(insert_insert_eq (heap bc) privateCopy).
Qed.

(** X12. [eth_getStorageAt] is a pure read of the committed state.  For a
    block that does not exist it fails with "header not found" and changes
    nothing.  Otherwise it resolves with the word stored at the padded
    position under the storage root of the account, itself read under the
    state root of the block; all it leaves behind is its private copy of
    the trie, a new object, so that [blockchain.trie] and every other
    object of the store are as they were. *)
Theorem eth_getStorageAt_reads_a_private_copy
    (address position : Buffer) (blockNumber : BlockRef) (w : World) :
  let bc := blockchain w in
  let shared := deref (trie bc) bc in
  let privateCopy := fresh (dom (heap bc)) in
  match blocks bc !! N.to_nat (getEffectiveNumber blockNumber bc) with
  | None =>
      eth_getStorageAt address position blockNumber w
      = (Rejected (new_Error "header not found"), w)
  | Some block =>
      let accountRoot :=
        decodeStateRoot
          (Trie_get address
             (Trie_setRoot (hd_stateRoot (blk_header block)) shared)) in
      let w' := world_of (eth_getStorageAt address position blockNumber w) in
      result_of (eth_getStorageAt address position blockNumber w)
      = Resolved (decodeWord (Trie_get (padPosition position)
                                (Trie_setRoot accountRoot shared))) ∧
      heap bc !! privateCopy = None ∧
      (∀ r, r ≠ privateCopy →
            heap (blockchain w') !! r = heap bc !! r) ∧
      w = with_heap (heap bc) w'
  end.
Proof.
  intros bc shared privateCopy.
  destruct (blocks bc !! _) as [block|] eqn:Hblock.
  - intros accountRoot w'. subst w'.
    rewrite (eth_getStorageAt_run _ _ _ _ _ Hblock).
    cbn [result_of world_of fst snd]. split; [done|].
    split; [apply fresh_unallocated|].
    split.
    + intros r Hr. rewrite heap_with_heap. by apply lookup_insert_ne.
    + rewrite with_heap_twice. symmetry. apply with_heap_id.
  - unfold eth_getStorageAt, getRawByBlockNumber.
    step reads_eq. step reads_eq. fold bc. by rewrite Hblock.
Qed.

End FurtherTrieStore.

Section StorageWrites.
Context {collab : Collaborators} {codecs : Codecs}.

(** What [eth_getStorageAt] returns depends on the chain and on the state
    [blockchain.trie] points to, and on nothing else. *)
Lemma eth_getStorageAt_result
    (address position : Buffer) (blockNumber : BlockRef) (w : World) :
  let bc := blockchain w in
  result_of (eth_getStorageAt address position blockNumber w)
  = match blocks bc !! N.to_nat (getEffectiveNumber blockNumber bc) with
    | None => Rejected (new_Error "header not found")
    | Some block =>
        let shared := deref (trie bc) bc in
        let accountRoot :=
          decodeStateRoot
            (Trie_get address
               (Trie_setRoot (hd_stateRoot (blk_header block)) shared)) in
        Resolved (decodeWord (Trie_get (padPosition position)
                                (Trie_setRoot accountRoot shared)))
    end.
Proof.
  intros bc. destruct (blocks bc !! _) as [block|] eqn:Hblock.
  - by rewrite (eth_getStorageAt_run _ _ _ _ _ Hblock).
  - unfold eth_getStorageAt, getRawByBlockNumber.
    step reads_eq. step reads_eq. fold bc. by rewrite Hblock.
Qed.

(** X13. A call of [evm_setStorageAt] changes nothing that
    [eth_getStorageAt] reads: whatever the account, the position and the
    block of the write, and whether it was rejected for a missing block or
    by the [ReferenceError], a read of any position of any account at any
    block returns afterwards what it returned before. *)
Theorem evm_setStorageAt_is_not_seen_by_eth_getStorageAt
    (address position storage address' position' : Buffer)
    (blockNumber blockNumber' : BlockRef) (w : World) :
  result_of (eth_getStorageAt address' position' blockNumber'
               (world_of (evm_setStorageAt address position storage
                            blockNumber w)))
  = result_of (eth_getStorageAt address' position' blockNumber' w).
Proof.
  rewrite evm_setStorageAt_run. cbn [world_of snd].
  rewrite !eth_getStorageAt_result. cbv zeta.
  rewrite getEffectiveNumber_with_heap, blocks_with_heap, trie_with_heap.
  by rewrite deref_trie_after_copy.
Qed.

End StorageWrites.

Section Code.
Context {collab : Collaborators} {codecs : Codecs}.

(** X14. [eth_getCode] never returns code.  It allocates a private copy
    of the trie and looks the block up; for a block that does not exist it
    throws "header not found", and for every block that exists it throws a
    [ReferenceError], because [rlpDecode], which it calls on the block, is
    not declared.  All it leaves behind is the private copy, a new object:
    what [blockchain.trie] points to is as it was. *)
Theorem eth_getCode_rejects_every_block
    (address : Address) (blockNumber : BlockRef) (w : World) :
  let bc := blockchain w in
  let privateCopy := fresh (dom (heap bc)) in
  let w' := with_heap (<[privateCopy := deref (trie bc) bc]> (heap bc)) w in
  heap bc !! privateCopy = None ∧
  deref (trie bc) (blockchain w') = deref (trie bc) bc ∧
  eth_getCode address blockNumber w
  = (Rejected
       match blocks bc !! N.to_nat (getEffectiveNumber blockNumber bc) with
       | Some _ => new_ReferenceError "rlpDecode is not defined"
       | None => new_Error "header not found"
       end, w').
Proof.
  intros bc privateCopy w'.
  split; [apply fresh_unallocated|].
  split; [by apply deref_trie_after_copy|].
  unfold eth_getCode.
  step reads_eq. step Trie_copy_eq. step blocks_getRaw_eq.
  rewrite getEffectiveNumber_with_heap, blocks_with_heap. fold bc.
  by destruct (blocks bc !! _).
Qed.

End Code.

Section Nonces.
Context {collab : Collaborators} {codecs : Codecs}.

(** [blockchain.mine(0)]: one empty block over the state the VM is in. *)
Lemma mine_zero (ts : option N) (w : World) :
  ∃ b w',
    mine 0 ts w = (Resolved [], w') ∧
    blocks (blockchain w') = blocks (blockchain w) ++ [b] ∧
    blk_transactions b = [] ∧
    hd_stateRoot (blk_header b)
    = trie_root (deref (trie (blockchain w)) (blockchain w)) ∧
    trie (blockchain w') = trie (blockchain w) ∧
    deref (trie (blockchain w')) (blockchain w')
    = deref (trie (blockchain w)) (blockchain w) ∧
    pool (blockchain w') = pool (blockchain w).
Proof.
  unfold mine, startMining, finishMining, emit. run.
  unfold drain. simpl. rewrite drop_0.
  eexists _, _. split; [done|]. simpl.
  do 4 (split; [done|]).
  split; [|done]. unfold deref. simpl. by rewrite lookup_insert_eq.
Qed.

Lemma latest_after_commit (bs : list Block) (b : Block) :
  (bs ++ [b]) !! N.to_nat (N.of_nat (length (bs ++ [b])) - 1) = Some b.
Proof.
  rewrite length_app. cbn [length].
  replace (N.to_nat (N.of_nat (length bs + 1) - 1)) with (length bs + 0)
    by lia.
  by rewrite lookup_app_r, Nat.add_comm, Nat.add_sub by lia.
Qed.

(** X15. [evm_setAccountNonce] returns [true] after committing one empty
    block over the state in which the account has the given nonce: right
    after it, [eth_getTransactionCount] of the address at [latest] is that
    nonce, while the balance of the account is the one the state manager
    held before the call; the pool is left as it was. *)
Theorem evm_setAccountNonce_sets_the_nonce
    (address : Address) (nonce : N) (w : World) :
  let w' := world_of (evm_setAccountNonce address nonce w) in
  result_of (evm_setAccountNonce address nonce w) = Resolved true ∧
  result_of (eth_getTransactionCount address (ByTag LATEST) w')
  = Resolved nonce ∧
  (∃ account,
     stateManager_getAccount address w = (Resolved account, w) ∧
     result_of (eth_getBalance address (ByTag LATEST) w')
     = Resolved (acc_balance account)) ∧
  (∃ b, blocks (blockchain w') = blocks (blockchain w) ++ [b] ∧
        blk_transactions b = []) ∧
  pool (blockchain w') = pool (blockchain w).
Proof.
  intros w'.
  set (bc := blockchain w).
  set (account := match Trie_get address (deref (trie bc) bc) with
                  | Some (AccountValue a) => a
                  | _ => emptyAccount
                  end).
  set (updated := Trie_put address
                    (AccountValue (account_with_nonce nonce account))
                    (deref (trie bc) bc)).
  set (w1 := with_heap (<[trie bc := updated]> (heap bc)) w).
  assert (stateManager_getAccount address w = (Resolved account, w)) as Hget
    by done.
  assert (stateManager_putAccount address
            (account_with_nonce nonce account) w = (Resolved tt, w1)) as Hput
    by done.
  assert (deref (trie (blockchain w1)) (blockchain w1) = updated) as Hderef.
  { subst w1. rewrite trie_with_heap, deref_with_heap. fold bc.
    by rewrite lookup_insert_eq. }
  destruct (mine_zero None w1)
    as (b & w2 & Hmine & Hblocks & Htxs & Hroot & Htrie & Hstate & Hpool).
  assert (evm_setAccountNonce address nonce w = (Resolved true, w2)) as Hrun.
  { unfold evm_setAccountNonce. unfold bind at 1. rewrite Hget.
    unfold bind at 1. rewrite Hput. unfold bind at 1. by rewrite Hmine. }
  subst w'. rewrite Hrun. cbn [result_of world_of fst snd].
  assert (accounts_get address (ByTag LATEST) w2
          = (Resolved (Some (account_with_nonce nonce account)), w2)) as Hacc.
  { unfold accounts_get. step blocks_getRaw_eq.
    cbn [getEffectiveNumber]. unfold latestNumber.
    rewrite Hblocks, latest_after_commit. unfold reads, ret.
    unfold accountAt. rewrite Hstate, Hroot, Hderef.
    unfold updated, Trie_put. cbn [trie_root trie_db].
    rewrite lookup_insert_eq. cbn [mbind option_bind].
    by rewrite lookup_insert_eq. }
  split; [done|].
  split.
  { unfold eth_getTransactionCount, accounts_getNonce, bind at 1.
    by rewrite Hacc. }
  split.
  { exists account. split; [done|].
    unfold eth_getBalance, accounts_getBalance, bind at 1.
    by rewrite Hacc. }
  split; [exists b; by rewrite Hblocks|].
  by rewrite Hpool.
Qed.

End Nonces.

(** ** Settings of the miner *)

Section MinerSettings.
Context {collab : Collaborators} {codecs : Codecs}.

Lemma queueTransaction_queued (tx : Transaction) (key : option Buffer)
    (w w' : World) (h : Hash) :
  queueTransaction tx key w = (Resolved h, w') →
  ∃ n, pool (blockchain w')
       = pool (blockchain w) ++ [tx_with_hash h (tx_with_nonce n tx)].
Proof.
  unfold queueTransaction, emit. run.
  destruct (tx_from tx) as [sender|]; [|done].
  destruct (default _ (tx_nonce tx) <? _)%N; [done|].
  destruct (default 0 (tx_gasPrice tx) <? _)%N; [done|].
  destruct (blockGasLimit (options w) <? _)%N; [done|].
  destruct (from_option acc_balance 0 _ <? _)%N; [done|].
  intros [= <- <-]. by eexists.
Qed.

(** The transaction a resolved submission has queued carries the hash
    returned, the sender, recipient and value of the call object, and its
    gas price, or the configured one when it has none. *)
Lemma eth_sendTransaction_queued_fields (t : RpcTransaction) (w w' : World)
    (h : Hash) :
  eth_sendTransaction t w = (Resolved h, w') →
  ∃ queued,
    pool (blockchain w') = pool (blockchain w) ++ [queued] ∧
    tx_hash queued = h ∧
    tx_gasPrice queued
    = Some (default (gasPrice (options w)) (rpc_gasPrice t)) ∧
    tx_from queued = rpc_from t ∧ tx_to queued = rpc_to t ∧
    tx_value queued = rpc_value t.
Proof.
  unfold eth_sendTransaction.
  destruct (tx_from (TransactionFactory_fromRpc t)) as [a|]; [|by run].
  unfold bind at 1, get_world.
  destruct (bool_decide (is_Some (unlockedAccounts (wallet w) !! a)));
    [|by run].
  cbn [negb].
  assert (∀ g key,
            queueTransaction
              match tx_gasPrice (tx_with_gas g (TransactionFactory_fromRpc t))
              with
              | Some _ => tx_with_gas g (TransactionFactory_fromRpc t)
              | None =>
                  tx_with_gasPrice (gasPrice (options w))
                    (tx_with_gas g (TransactionFactory_fromRpc t))
              end key w = (Resolved h, w') →
            ∃ queued,
              pool (blockchain w') = pool (blockchain w) ++ [queued] ∧
              tx_hash queued = h ∧
              tx_gasPrice queued
              = Some (default (gasPrice (options w)) (rpc_gasPrice t)) ∧
              tx_from queued = rpc_from t ∧ tx_to queued = rpc_to t ∧
              tx_value queued = rpc_value t) as Hqueue.
  { intros g key Hq.
    destruct (queueTransaction_queued _ _ _ _ _ Hq) as [n Hpool].
    eexists. split; [exact Hpool|].
    destruct t as [sender to gas gasLimit [p|] value data input nonce];
      by simpl. }
  destruct (tx_gas (TransactionFactory_fromRpc t)) as [g|] eqn:Hg.
  - unfold bind at 1, ret.
    replace (TransactionFactory_fromRpc t)
      with (tx_with_gas g (TransactionFactory_fromRpc t))
      by (destruct (TransactionFactory_fromRpc t); simpl in *; by subst).
    apply Hqueue.
  - destruct (defaultTransactionGasLimit (options w)) as [d|].
    + unfold bind at 1, ret. apply Hqueue.
    + unfold bind at 1 2.
      pose proof (eth_estimateGas_frame t (ByTag LATEST) w) as Hframe.
      destruct (eth_estimateGas t (ByTag LATEST) w) as [[g|e] w1];
        simpl in Hframe; subst w1; [|discriminate].
      unfold ret. apply Hqueue.
Qed.

(** X16. [miner_setGasPrice] returns [true] and changes the configured gas
    price only: afterwards [eth_gasPrice] returns the price set, and a
    transaction submitted without a gas price that [eth_sendTransaction]
    queues carries the price set. *)
Theorem miner_setGasPrice_sets_the_default_price
    (price : N) (t : RpcTransaction) (w w'' : World) (h : Hash) :
  let w' := world_of (miner_setGasPrice price w) in
  result_of (miner_setGasPrice price w) = Resolved true ∧
  w' = set_options (set_gasPrice price (options w)) w ∧
  eth_gasPrice w' = (Resolved price, w') ∧
  (rpc_gasPrice t = None →
   eth_sendTransaction t w' = (Resolved h, w'') →
   ∃ queued,
     pool (blockchain w'') = pool (blockchain w) ++ [queued] ∧
     tx_hash queued = h ∧ tx_gasPrice queued = Some price).
Proof.
  intros w'. split; [done|]. split; [done|]. split; [done|].
  intros Hnone Hsend.
  destruct (eth_sendTransaction_queued_fields _ _ _ _ Hsend)
    as (queued & Hpool & Hh & Hprice & _).
  exists queued. split; [done|]. split; [done|].
  by rewrite Hprice, Hnone.
Qed.

End MinerSettings.

Section Etherbase.
Context {collab : Collaborators} {codecs : Codecs}.

(** The block a mining operation commits names the coinbase as miner. *)
Lemma mine_commit_miner (m : Z) (ts : option N) (w : World) :
  ∃ b, blocks (blockchain (world_of (mine m ts w)))
       = blocks (blockchain w) ++ [b] ∧
       hd_miner (blk_header b) = coinbase (blockchain w).
Proof.
  unfold mine, startMining, finishMining, emit. run.
  destruct (drain m (pool (blockchain w))) as [batch rest] eqn:Hd. simpl.
  match goal with
  | |- context [processBatch ?rb batch ?t] =>
      destruct (processBatch rb batch t) as [[included skipped] final] eqn:Hp
  end.
  simpl. by eexists.
Qed.

Lemma mine_status (m : Z) (ts : option N) (w : World) :
  status (blockchain (world_of (mine m ts w))) = status (blockchain w).
Proof.
  unfold mine, startMining, finishMining, emit. run.
  destruct (drain m (pool (blockchain w))) as [batch rest] eqn:Hd. simpl.
  match goal with
  | |- context [processBatch ?rb batch ?t] =>
      destruct (processBatch rb batch t) as [[included skipped] final] eqn:Hp
  end.
  done.
Qed.

(** X17. [miner_setEtherbase] returns [true] and changes the coinbase
    only: afterwards [eth_coinbase] returns the address set, the next
    block mined names it as its miner, and [eth_call] and
    [eth_estimateGas] of a call object without a sender run as if it were
    the sender. *)
Theorem miner_setEtherbase_sets_the_coinbase
    (address : Address) (t : RpcTransaction) (number : BlockRef)
    (ts : option N) (w : World) :
  let w' := world_of (miner_setEtherbase address w) in
  result_of (miner_setEtherbase address w) = Resolved true ∧
  w' = set_blockchain (set_coinbase address (blockchain w)) w ∧
  eth_coinbase w' = (Resolved address, w') ∧
  (∃ b, blocks (blockchain (world_of (mine (-1) ts w')))
        = blocks (blockchain w) ++ [b] ∧
        hd_miner (blk_header b) = address) ∧
  eth_call (rpc_with_from None t) number w'
  = eth_call (rpc_with_from (Some address) t) number w' ∧
  eth_estimateGas (rpc_with_from None t) number w'
  = eth_estimateGas (rpc_with_from (Some address) t) number w'.
Proof.
  intros w'. split; [done|]. split; [done|]. split; [done|].
  split; [apply (mine_commit_miner (-1) ts w')|].
  split; [reflexivity|].
  unfold eth_estimateGas, bind, get_world.
  destruct (blocks_get number w') as [[[parent|]|e] w1]; reflexivity.
Qed.

(** Whatever the miner was doing, after [resume] it is mining. *)
Lemma resume_status (threads : N) (w : World) :
  status (blockchain (world_of (resume threads w))) = Mining.
Proof.
  set (w1 := set_blockchain (set_status Mining (blockchain w)) w).
  pose proof (mine_status (-1) None w1) as Hm.
  unfold resume, bind at 1, get_world.
  destruct (status (blockchain w)) eqn:Hs; [|done|];
    (unfold bind at 1, modify_bc, modify; fold w1;
     destruct (pool (blockchain w)); [done|];
     destruct (blockTime (options w) <=? 0)%Z; [|done];
     unfold bind at 1;
     by destruct (mine (-1) None w1) as [[txs|e] w2]).
Qed.

(** X18. [eth_mining] reports whether the miner is started and changes
    nothing: it is [true] after [miner_start], whether that call resolved
    or was rejected by strict failure reporting, and [false] after
    [miner_stop]. *)
Theorem eth_mining_follows_start_and_stop (threads : N) (w : World) :
  result_of (eth_mining (world_of (miner_start threads w))) = Resolved true ∧
  result_of (eth_mining (world_of (miner_stop w))) = Resolved false ∧
  world_of (eth_mining w) = w.
Proof.
  pose proof (resume_status threads w) as Hres.
  split; [|split; [|done]].
  - unfold eth_mining, isStarted, reads, result_of. cbn [fst].
    assert (status (blockchain (world_of (miner_start threads w))) = Mining)
      as ->; [|done].
    unfold miner_start, bind at 1, get_world.
    destruct (legacyInstamine (options w)).
    + unfold bind at 1 2.
      destruct (resume threads w) as [[[txs|]|e] w1]; simpl in Hres; try done.
      destruct (vmErrorsOnRPCResponse (options w)); [|done].
      unfold lift. by destruct (assertExceptionalTransactions txs) as [[]|e].
    + unfold bind at 1, detached. done.
  - unfold miner_stop, bind, ret. rewrite pause_world.
    unfold eth_mining, isStarted, reads, result_of, world_of. cbn [fst snd].
    by destruct (status (blockchain w)) eqn:Hs; simpl; rewrite ?Hs.
Qed.

End Etherbase.

(** ** Signing without sending *)

Section Signing.
Context {collab : Collaborators} {codecs : Codecs}.

(** X19. [eth_signTransaction] never changes the state, and it makes the
    same checks of the sender as [eth_sendTransaction]: whenever it
    rejects, [eth_sendTransaction] of the same call object rejects with
    the same error and queues nothing; and it resolves exactly when the
    call object names a sender whose key is unlocked. *)
Theorem eth_signTransaction_checks_the_sender_only
    (t : RpcTransaction) (w : World) :
  world_of (eth_signTransaction t w) = w ∧
  (∀ e, result_of (eth_signTransaction t w) = Rejected e →
        eth_sendTransaction t w = (Rejected e, w)) ∧
  ((∃ signed, result_of (eth_signTransaction t w) = Resolved signed) ↔
   (∃ sender, rpc_from t = Some sender ∧
              is_Some (unlockedAccounts (wallet w) !! sender))).
Proof.
  destruct (eth_sendTransaction_refuses t w) as (Hmissing & Hlocked & Hunknown).
  unfold senderMissing, senderLocked, senderNotRecognized in *.
  unfold eth_signTransaction.
  cbn [TransactionFactory_fromRpc tx_from].
  destruct (rpc_from t) as [sender|] eqn:Hfrom.
  - unfold bind, get_world.
    destruct (unlockedAccounts (wallet w) !! sender) as [key|] eqn:Hkey.
    + split; [done|]. split; [intros e He; discriminate He|].
      split; [|intros _; by eexists].
      intros _. exists sender. by rewrite Hkey.
    + split; [done|]. split.
      * intros e [= <-].
        destruct (decide (sender ∈ knownAccounts (wallet w))) as [Hk|Hk].
        -- rewrite bool_decide_true by done. apply Hlocked. by exists sender.
        -- rewrite bool_decide_false by done. apply Hunknown.
           by exists sender.
      * split; [by intros [signed Hs]|].
        intros (a & [= <-] & [x Hx]). by rewrite Hkey in Hx.
  - split; [done|]. split; [intros e [= <-]; by apply Hmissing|]. split.
    + by intros [signed Hs].
    + by intros (a & Ha & _).
Qed.

End Signing.

(** ** Snapshots and mining *)

Section SnapshotsAndMining.
Context {collab : Collaborators}.

(** However the loop of [evm_mine] ends, it has run some of the mining
    operations asked for, one after the other. *)
Lemma mineLoop_world (strict : bool) (ts : option N) (n : nat) (w : World) :
  ∃ k, k ≤ n ∧ world_of (mineLoop strict ts n w) = afterMining ts k w.
Proof.
  revert w. induction n as [|n IH]; intros w.
  - exists 0. by split.
  - cbn [mineLoop]. unfold bind at 1. rewrite mine_resolves.
    unfold bind at 1.
    destruct ((if strict
               then lift (assertExceptionalTransactions (batchOf ts w))
               else ret tt) (world_of (mine (-1) ts w)))
      as [[[]|e] w1] eqn:Hassert.
    + assert (w1 = world_of (mine (-1) ts w)) as ->.
      { destruct strict; [|by injection Hassert].
        unfold lift in Hassert. by injection Hassert. }
      destruct (IH (world_of (mine (-1) ts w))) as (k & Hk & Hw).
      exists (S k). split; [lia|]. by rewrite Hw.
    + assert (w1 = world_of (mine (-1) ts w)) as ->.
      { destruct strict; [|by injection Hassert].
        unfold lift in Hassert. by injection Hassert. }
      exists 1. split; [lia|done].
Qed.

Lemma afterMining_snapshots (ts : option N) (k : nat) (w : World) :
  snapshots (blockchain (afterMining ts k w)) = snapshots (blockchain w).
Proof.
  revert w. induction k as [|k IH]; intros w; [done|].
  cbn [afterMining]. rewrite IH. apply mine_snapshots.
Qed.

(** X20. [evm_revert] undoes [evm_mine]: reverting to a snapshot taken
    just before a call of [evm_mine], whatever its argument and its
    outcome, returns [true] and gives back the chain, the pool and the
    clock of the moment of the snapshot; the snapshot is used up, a second
    revert to it returns [false]. *)
Theorem evm_revert_undoes_evm_mine (arg : MineArg) (w : World) :
  let id := (snapshotCounter (blockchain w) + 1)%N in
  let w1 := world_of (evm_snapshot w) in
  let w2 := world_of (evm_mine arg w1) in
  let w3 := world_of (evm_revert id w2) in
  result_of (evm_snapshot w) = Resolved id ∧
  result_of (evm_revert id w2) = Resolved true ∧
  blocks (blockchain w3) = blocks (blockchain w) ∧
  pool (blockchain w3) = pool (blockchain w) ∧
  clock (blockchain w3) = clock (blockchain w) ∧
  result_of (evm_revert id w3) = Resolved false.
Proof.
  intros id w1 w2 w3.
  set (s := {| snap_head := length (blocks (blockchain w));
               snap_root := trie_root (deref (trie (blockchain w))
                                         (blockchain w));
               snap_pool := pool (blockchain w);
               snap_clock := clock (blockchain w) |}).
  assert (snapshots (blockchain w1) !! id = Some s
          ∧ blocks (blockchain w1) = blocks (blockchain w)) as [Hs1 Hb1].
  { subst w1. unfold evm_snapshot, snapshot. run.
    split; [apply lookup_insert_eq | done]. }
  assert (∃ k, w2 = afterMining (timestampOf arg) k w1) as [k Hw2].
  { subst w2. rewrite evm_mine_as_loop.
    destruct (mineLoop_world (vmErrorsOnRPCResponse (options w1))
                (timestampOf arg) (blocksAsked arg) w1) as (k & _ & Hk).
    exists k. rewrite <- Hk.
    by destruct (mineLoop _ _ _ w1) as [[[]|e] w']. }
  assert (snapshots (blockchain w2) !! id = Some s) as Hs2
    by (by rewrite Hw2, afterMining_snapshots).
  destruct (afterMining_chain (timestampOf arg) k w1)
    as (newBlocks & Hb2 & _).
  rewrite <- Hw2, Hb1 in Hb2.
  assert (w3 = set_blockchain (restore id s (blockchain w2)) w2) as Hw3
    by (subst w3; by rewrite (evm_revert_known _ _ _ Hs2)).
  split; [done|].
  split; [by rewrite (evm_revert_known _ _ _ Hs2)|].
  split.
  { rewrite Hw3. cbn [blockchain set_blockchain]. unfold restore.
    cbn [blocks set_snapshots set_clock set_transactions set_pool set_blocks
         snap_head s].
    rewrite Hb2. apply take_app_length. }
  split; [by rewrite Hw3|]. split; [by rewrite Hw3|].
  rewrite evm_revert_unknown; [done|].
  rewrite Hw3. cbn [blockchain set_blockchain].
  destruct (restore_snapshots id id s (blockchain w2)) as (_ & Hge & _).
  apply Hge. lia.
Qed.

End SnapshotsAndMining.

(** ** Filters and the chain *)

Section FiltersAndChain.
Context {collab : Collaborators} {codecs : Codecs}.

(** A mining operation hands the hash of the block it commits to every
    block filter. *)
Lemma mine_block_filters (m : Z) (ts : option N) (w : World) :
  ∃ b, blocks (blockchain (world_of (mine m ts w)))
       = blocks (blockchain w) ++ [b] ∧
       ∀ id f, filters w !! id = Some f → flt_type f = FilterBlock →
               filters (world_of (mine m ts w)) !! id
               = Some (push [UpdateHash (blk_hash b)] f).
Proof.
  unfold mine, startMining, finishMining, emit. run.
  destruct (drain m (pool (blockchain w))) as [batch rest] eqn:Hd. simpl.
  match goal with
  | |- context [processBatch ?rb batch ?t] =>
      destruct (processBatch rb batch t) as [[included skipped] final] eqn:Hp
  end.
  simpl. eexists. split; [done|].
  intros id f Hf Ht. rewrite !lookup_fmap, Hf. simpl.
  unfold on_blockLogs, on_block. rewrite Ht. simpl. by rewrite Ht.
Qed.

Lemma afterMining_block_filter (ts : option N) (k : nat) (w : World)
    (id : N) (f : Filter) :
  filters w !! id = Some f → flt_type f = FilterBlock →
  ∃ newBlocks f',
    blocks (blockchain (afterMining ts k w))
    = blocks (blockchain w) ++ newBlocks ∧
    filters (afterMining ts k w) !! id = Some f' ∧
    flt_updates f'
    = flt_updates f ++ ((λ b, UpdateHash (blk_hash b)) <$> newBlocks).
Proof.
  revert w f. induction k as [|k IH]; intros w f Hf Ht.
  - exists [], f. by rewrite !app_nil_r.
  - cbn [afterMining].
    destruct (mine_block_filters (-1) ts w) as (b & Hb & Hfs).
    destruct (IH _ _ (Hfs id f Hf Ht) Ht) as (bs & f' & Hbs & Hf' & Hu).
    exists (b :: bs), f'. rewrite Hbs, Hb, <- app_assoc.
    split; [done|]. split; [done|].
    rewrite Hu. cbn [push flt_updates fmap list_fmap].
    by rewrite <- app_assoc.
Qed.

(** X21. A block filter learns of every block mined after it was
    installed: whatever the argument and the outcome of a call of
    [evm_mine] that follows [eth_newBlockFilter], the next poll of the
    filter returns the hashes of exactly the blocks that call has
    committed, in chain order. *)
Theorem block_filter_reports_every_mined_block (arg : MineArg) (w : World) :
  let id := (lastId w + 1)%N in
  let w0 := world_of (eth_newBlockFilter w) in
  let w1 := world_of (evm_mine arg w0) in
  result_of (eth_newBlockFilter w) = Resolved id ∧
  ∃ newBlocks,
    blocks (blockchain w1) = blocks (blockchain w) ++ newBlocks ∧
    result_of (eth_getFilterChanges id w1)
    = Resolved ((λ b, UpdateHash (blk_hash b)) <$> newBlocks).
Proof.
  intros id w0 w1. split; [done|].
  assert (∃ k, w1 = afterMining (timestampOf arg) k w0) as [k Hw1].
  { subst w1. rewrite evm_mine_as_loop.
    destruct (mineLoop_world (vmErrorsOnRPCResponse (options w0))
                (timestampOf arg) (blocksAsked arg) w0) as (k & _ & Hk).
    exists k. rewrite <- Hk.
    by destruct (mineLoop _ _ _ w0) as [[[]|e] w']. }
  set (f := {| flt_updates := []; flt_filter := None;
               flt_type := FilterBlock |}).
  assert (filters w0 !! id = Some f) as Hf.
  { subst w0. unfold eth_newBlockFilter, registerFilter, getId. run.
    apply lookup_insert_eq. }
  destruct (afterMining_block_filter (timestampOf arg) k w0 id f Hf eq_refl)
    as (bs & f' & Hbs & Hf' & Hu).
  exists bs. rewrite Hw1. split; [by rewrite Hbs|].
  by rewrite (eth_getFilterChanges_registered _ _ _ Hf'), Hu.
Qed.

End FiltersAndChain.

(** ** Receipts of mined transactions *)

Section MinedTransactions.
Context {collab : Collaborators} {codecs : Codecs}.

(** Two tables filled from the same list under the same keys agree on the
    entry that fills a key. *)
Lemma foldr_insert_lookup {A V1 V2} (key : A → string)
    (v1 : A → V1) (v2 : A → V2) (l : list A)
    (m1 : gmap string V1) (m2 : gmap string V2) (x : A) :
  x ∈ l →
  ∃ y, y ∈ l ∧ key y = key x ∧
       foldr (λ a m, <[key a := v1 a]> m) m1 l !! key x = Some (v1 y) ∧
       foldr (λ a m, <[key a := v2 a]> m) m2 l !! key x = Some (v2 y).
Proof.
  induction l as [|a l IH]; intros Hin; [by apply elem_of_nil in Hin|].
  cbn [foldr]. destruct (decide (key a = key x)) as [Heq|Hne].
  - exists a. rewrite <- Heq, !lookup_insert_eq.
    split; [by left|done].
  - apply elem_of_cons in Hin as [->|Hin]; [done|].
    destruct (IH Hin) as (y & Hy & Hk & H1 & H2).
    exists y. rewrite !lookup_insert_ne by done.
    split; [by right|done].
Qed.

(** What a mining operation records of the transactions it includes. *)
Lemma mine_records (m : Z) (ts : option N) (w : World) :
  let number := N.of_nat (length (blocks (blockchain w))) in
  ∃ (included : list (Transaction * ExecResult)) b w',
    mine m ts w = (Resolved (included.*1), w') ∧
    blocks (blockchain w') = blocks (blockchain w) ++ [b] ∧
    blk_transactions b = included.*1 ∧
    transactions (blockchain w')
    = foldr (λ ir m, <[tx_hash ir.1 := (ir.1, number)]> m)
        (transactions (blockchain w)) included ∧
    transactionReceipts (blockchain w')
    = foldr (λ ir m, <[tx_hash ir.1 := receiptOf number ir.2]> m)
        (transactionReceipts (blockchain w)) included.
Proof.
  unfold mine, startMining, finishMining, emit. run.
  destruct (drain m (pool (blockchain w))) as [batch rest] eqn:Hd. simpl.
  match goal with
  | |- context [processBatch ?rb batch ?t] =>
      destruct (processBatch rb batch t) as [[included skipped] final] eqn:Hp
  end.
  simpl. by eexists included, _, _.
Qed.

(** X23. Every transaction of the batch a mining operation has mined has
    its receipt right away: [eth_getTransactionReceipt] of its hash
    resolves with a receipt of the new block, presented with that block,
    and [eth_getTransactionByHash] finds a mined transaction of that hash
    in that block. *)
Theorem mined_transactions_have_receipts
    (ts : option N) (w : World) (tx : Transaction) :
  let w' := world_of (mine (-1) ts w) in
  let number := N.of_nat (length (blocks (blockchain w))) in
  tx ∈ batchOf ts w →
  (∃ json b,
     result_of (eth_getTransactionReceipt (tx_hash tx) w')
     = Resolved (Some json) ∧
     rc_blockNumber (rj_receipt json) = number ∧
     rj_block json = Some b ∧
     blocks (blockchain w') = blocks (blockchain w) ++ [b] ∧
     tx_hash (rj_transaction json) = tx_hash tx) ∧
  (∃ mined,
     eth_getTransactionByHash (tx_hash tx) w'
     = (Resolved (Some (MinedTransaction mined number)), w') ∧
     tx_hash mined = tx_hash tx).
Proof.
  intros w' number Hin. subst w'. unfold batchOf, result_of, world_of in *.
  destruct (mine_records (-1) ts w)
    as (included & b & w' & Hmine & Hblocks & Hb & Htxs & Hrcs).
  rewrite Hmine in *. cbn [fst snd] in *.
  apply list_elem_of_fmap in Hin as (ir & -> & Hir).
  destruct (foldr_insert_lookup (λ ir, tx_hash ir.1)
              (λ ir, (ir.1, number)) (λ ir, receiptOf number ir.2)
              included (transactions (blockchain w))
              (transactionReceipts (blockchain w)) ir Hir)
    as (y & Hy & Hk & H1 & H2).
  cbn beta in *. fold number in Htxs, Hrcs.
  rewrite <- Htxs in H1. rewrite <- Hrcs in H2.
  assert (blocks_get (ByNumber number) w' = (Resolved (Some b), w')) as Hget.
  { apply blocks_get_found. cbn [getEffectiveNumber]. rewrite Hblocks.
    subst number. rewrite Nat2N.id.
    replace (length (blocks (blockchain w)))
      with (length (blocks (blockchain w)) + 0) at 1 by lia.
    by rewrite lookup_app_r, Nat.add_comm, Nat.add_sub by lia. }
  split.
  - exists {| rj_receipt := receiptOf number y.2; rj_block := Some b;
              rj_transaction := y.1 |}, b.
    split; [|done].
    unfold eth_getTransactionReceipt, transactions_get,
      transactionReceipts_get.
    unfold bind at 1, reads at 1. rewrite H1.
    unfold bind at 1, reads at 1. rewrite H2.
    unfold bind at 1. cbn [snd]. by rewrite Hget.
  - exists y.1. split; [|done].
    unfold eth_getTransactionByHash, transactions_get.
    unfold bind at 1, reads at 1. by rewrite H1.
Qed.

End MinedTransactions.

(** ** Speculative execution on a missing block *)

Section MissingParent.
Context {collab : Collaborators} {codecs : Codecs}.

(** X24. [eth_call] and [eth_estimateGas] against a block that does not
    exist never run the transaction: both reject, with the error of the
    block manager or, when that one answers [null], with a type error
    about the header of [null]; both reject with the same error, and the
    state is left as it was. *)
Theorem call_and_estimateGas_reject_a_missing_block
    (t : RpcTransaction) (number : BlockRef) (w : World) :
  noSuchNumber number w →
  ∃ e, eth_call t number w = (Rejected e, w) ∧
       eth_estimateGas t number w = (Rejected e, w) ∧
       (headerNotFound = None → err_kind e = TypeError) ∧
       (∀ e', headerNotFound = Some e' → e = e').
Proof.
  intros Hmissing.
  unfold eth_call, eth_estimateGas, bind, get_world.
  rewrite (blocks_get_missing _ _ Hmissing). unfold missingBlock.
  destruct headerNotFound as [e0|].
  - exists e0. split; [done|]. split; [done|].
    split; [done|]. by intros e' [= <-].
  - eexists. split; [reflexivity|]. split; [reflexivity|]. by split.
Qed.

End MissingParent.

(** ** Log filters *)

Section LogFilters.
Context {collab : Collaborators} {codecs : Codecs}.

(** A mining operation publishes the logs of the block it commits, under
    the number of that block, which is then the latest one. *)
Lemma mine_log_filters (m : Z) (ts : option N) (w : World) :
  ∃ bl, bl_blockNumber bl = N.of_nat (length (blocks (blockchain w))) ∧
        ∀ id f, filters w !! id = Some f → flt_type f = FilterLog →
                filters (world_of (mine m ts w)) !! id
                = Some (on_blockLogs
                          (latestNumber (blockchain (world_of (mine m ts w))))
                          bl f).
Proof.
  unfold mine, startMining, finishMining, emit. run.
  destruct (drain m (pool (blockchain w))) as [batch rest] eqn:Hd. simpl.
  match goal with
  | |- context [processBatch ?rb batch ?t] =>
      destruct (processBatch rb batch t) as [[included skipped] final] eqn:Hp
  end.
  simpl.
  eexists {| bl_blockNumber := _; bl_logs := _ |}. split; [reflexivity|].
  intros id f Hf Ht. rewrite !lookup_fmap, Hf. simpl.
  unfold on_block. by rewrite Ht.
Qed.

Lemma latestNumber_after_mine (m : Z) (ts : option N) (w : World) :
  latestNumber (blockchain (world_of (mine m ts w)))
  = N.of_nat (length (blocks (blockchain w))).
Proof.
  unfold latestNumber.
  destruct (mine_commit_number m ts w) as (b & -> & _).
  rewrite length_app. simpl. lia.
Qed.

(** X25. A log filter installed by [eth_newFilter] is handed, for the
    block a following [evm_mine] commits, the logs of that block that
    match its addresses and topics, provided the number of the block lies
    in the range of the filter, which is worked out anew when the block
    arrives, with that block as the latest; outside the range it is
    handed nothing. *)
Theorem log_filter_reports_matching_logs (filter : FilterArgs) (w : World) :
  let id := (lastId w + 1)%N in
  let w0 := world_of (eth_newFilter filter w) in
  let w1 := world_of (evm_mine NoArg w0) in
  let number := N.of_nat (length (blocks (blockchain w))) in
  let range := parseFilterRange filter number in
  result_of (eth_newFilter filter w) = Resolved id ∧
  ∃ bl, bl_blockNumber bl = number ∧
        result_of (eth_getFilterChanges id w1)
        = Resolved
            (if (range.1 <=? number)%N && (number <=? range.2)%N
             then UpdateLog <$>
                    BlockLogs_filter (fa_address filter) (fa_topics filter) bl
             else []).
Proof.
  intros id w0 w1 number range. split; [done|].
  set (f := {| flt_updates := []; flt_filter := Some filter;
               flt_type := FilterLog |}).
  assert (filters w0 !! id = Some f) as Hf.
  { subst w0. unfold eth_newFilter, registerFilter, getId. run.
    apply lookup_insert_eq. }
  destruct (mine_log_filters (-1) None w0) as (bl & Hnumber & Hfs).
  exists bl. split; [done|].
  subst w1. rewrite evm_mine_world.
  rewrite (eth_getFilterChanges_registered _ _ _ (Hfs id f Hf eq_refl)).
  cbn [result_of fst]. f_equal.
  unfold on_blockLogs. cbn [f flt_type flt_filter].
  rewrite Hnumber, latestNumber_after_mine.
  change (N.of_nat (length (blocks (blockchain w0)))) with number.
  fold range. destruct range as [fromBlock toBlock]. cbn [fst snd].
  by destruct ((fromBlock <=? number)%N && (number <=? toBlock)%N).
Qed.

End LogFilters.

(** * Concrete runs

    The properties above, applied to the sample engine, and the runs that
    settle what the engine does where a statement does not hold. *)

Module Runs.
Import Sample.


Lemma evm_mine_mines_the_blocks_asked_witness :
  let w := world false [transfer None 0] in
  evm_mine (OptionsArg None (Some 2%Z)) w
    = (Resolved "0x0", afterMining None 2 w) ∧
  ∃ newBlocks,
    blocks (blockchain (afterMining None 2 w))
    = blocks (blockchain w) ++ newBlocks ∧
    length newBlocks = 2 ∧
    ∀ j b, newBlocks !! j = Some b →
      blk_transactions b = batchOf None (afterMining None j w) ∧
      (pool (blockchain (afterMining None j w)) = [] →
       blk_transactions b = []).
Proof.
  intros w.
  apply (evm_mine_mines_the_blocks_asked None (Some 2%Z) w).
  intros Hstrict. discriminate Hstrict.
Defined.

(** Asked for two blocks on an idle chain, [evm_mine] commits two blocks
    and resolves with ["0x0"], which is not the number 2; asked for three
    with strict failure reporting and a reverting transaction in the pool,
    it commits one block and rejects. *)
Lemma evm_mine_count_counterexample :
  ¬ minesAndReturnsCount None 2 (world false []) ∧
  ¬ minesAndReturnsCount None 3 (world true [transfer (Some [xff]) 0]).
Proof.
  split.
  - intros [_ Hresult]. vm_compute in Hresult. discriminate Hresult.
  - intros [Hblocks _]. vm_compute in Hblocks. discriminate Hblocks.
Defined.

(** A block filter is registered, a block is mined, and the filter is
    polled; a pending transaction published in between is no match for
    it. *)
Lemma eth_getFilterChanges_drains_once_witness :
  let w := world_of (mine (-1) None
                       (world_of (eth_newBlockFilter (world false [])))) in
  let f := {| flt_updates := [UpdateHash "0xb1"]; flt_filter := None;
              flt_type := FilterBlock |} in
  let evs := [EvPendingTransaction (transfer None 0)] in
  let ops := [Publish (EvBlock genesis); Poll 1%N; Poll 1%N] in
  filters w !! 1%N = Some f ∧
  result_of (eth_getFilterChanges 1 w) = Resolved [UpdateHash "0xb1"] ∧
  filters (world_of (eth_getFilterChanges 1 w)) !! 1%N = Some (drained f) ∧
  result_of (eth_getFilterChanges 1
               (runFilterOps 1 (Publish <$> evs)
                  (world_of (eth_getFilterChanges 1 w))).2)
  = Resolved [] ∧
  ∃ f', filters (runFilterOps 1 ops w).2 !! 1%N = Some f' ∧
        concat (runFilterOps 1 ops w).1 ++ flt_updates f'
        = flt_updates f ++ deliveredTo 1 ops w.
Proof.
  intros w f evs ops.
  assert (filters w !! 1%N = Some f) as Hf by (vm_compute; reflexivity).
  destruct (eth_getFilterChanges_drains_once 1 w f evs ops Hf)
    as (Hpoll & Hdrained & Hquiet & Honce).
  split; [exact Hf|]. split; [exact Hpoll|]. split; [exact Hdrained|].
  split; [|exact Honce].
  apply Hquiet. vm_compute. reflexivity.
Defined.

Lemma missing_lookups_return_null_witness :
  let w := world false [] in
  eth_getBlockByNumber (ByNumber 7) true w = (Resolved None, w) ∧
  eth_getBlockByHash "0xdead" true w = (Resolved None, w) ∧
  result_of (eth_getTransactionReceipt "0xa9" w) = Resolved None.
Proof.
  intros w.
  destruct (missing_lookups_return_null (ByNumber 7) "0xdead" "0xa9" true w)
    as (Hnumber & Hhash & Hreceipt).
  split; [apply Hnumber; reflexivity|].
  split; [|apply Hreceipt; reflexivity].
  apply Hhash. intros b Hb.
  apply list_elem_of_singleton in Hb as ->. discriminate.
Defined.

Lemma transaction_by_block_and_index_missing_block_witness :
  let w := world false [] in
  (∃ e, eth_getTransactionByBlockNumberAndIndex (ByNumber 7) 0 w
        = (Rejected e, w) ∧ err_kind e = TypeError) ∧
  eth_getTransactionByBlockHashAndIndex "0xdead" 0 w = (Resolved None, w).
Proof.
  intros w.
  destruct (transaction_by_block_and_index_missing_block
              (ByNumber 7) "0xdead" 0 w) as (Hnumber & Hhash).
  split; [apply Hnumber; reflexivity|].
  apply Hhash. intros b Hb.
  apply list_elem_of_singleton in Hb as ->. discriminate.
Defined.

(** The sample miner is mining, with a batch in flight. *)
Lemma miner_start_reentrant_and_stop_pauses_witness :
  let w := world_of (startMining (-1) None (world false [transfer None 0])) in
  miner_start 1 w = (Resolved true, w) ∧
  status (blockchain (world_of (miner_stop w))) = Paused.
Proof.
  intros w.
  destruct (miner_start_reentrant_and_stop_pauses 1 w)
    as (Hstart & _ & Hstop & _).
  split; [apply Hstart; reflexivity | apply Hstop; reflexivity].
Defined.

(** Two snapshots are taken, the first is reverted to, and both ids are
    spent, also after a third snapshot, whose id is greater than both. *)
Lemma snapshot_ids_increase_and_revert_consumes_witness :
  let w := afterEvmOps [OpSnapshot; OpSnapshot] (world false []) in
  let w' := world_of (evm_revert 1 w) in
  let ops := [OpSnapshot; OpRevert 2] in
  issuedIds ops w' = [3%N] ∧
  result_of (evm_revert 1 w) = Resolved true ∧
  result_of (evm_revert 7 w) = Resolved false ∧
  result_of (evm_revert 2 w') = Resolved false ∧
  result_of (evm_revert 2 (afterEvmOps ops w')) = Resolved false.
Proof.
  intros w w' ops.
  assert (is_Some (snapshots (blockchain w) !! 1%N)) as Hknown
    by (vm_compute; eauto).
  assert (snapshotCounter (blockchain w) = 2%N) as Hcounter
    by (vm_compute; reflexivity).
  destruct (snapshot_ids_increase_and_revert_consumes w ops 1 2)
    as (_ & _ & Hrevert).
  destruct (snapshot_ids_increase_and_revert_consumes w ops 7 7)
    as (_ & Hunknown & _).
  destruct (Hrevert Hknown) as (Htrue & Hnext & Hlater).
  split; [by vm_compute|].
  split; [exact Htrue|].
  split; [by rewrite Hunknown|].
  split; [apply Hnext; lia|].
  apply Hlater. rewrite Hcounter. lia.
Defined.

(** Slot 1 of an account is set at the latest block of the sample chain:
    the call is rejected, and the state [blockchain.trie] points to still
    has the state root of that block. *)
Lemma evm_setStorageAt_throws_before_its_write_witness :
  let w := world false [] in
  let r := evm_setStorageAt alice [x01] [x2a] (ByTag LATEST) w in
  let bc' := blockchain (world_of r) in
  result_of r = Rejected (new_ReferenceError "rlpDecode is not defined") ∧
  trie_root (deref (trie bc') bc') = hd_stateRoot (blk_header genesis) ∧
  Trie_get (padPosition [x01]) (deref (trie bc') bc') = None.
Proof.
  intros w r bc'.
  destruct (evm_setStorageAt_throws_before_its_write
              alice [x01] [x2a] (ByTag LATEST) w)
    as (_ & Htrie & Hshared & Hrun).
  subst bc' r. rewrite Hrun. cbn [result_of world_of fst snd].
  rewrite Htrie, Hshared. by split.
Defined.

(** On the sample engine [alice] is unlocked, [bob] is known but locked,
    and the address [0x0c] is unknown. *)
Lemma eth_sendTransaction_validates_then_queues_witness :
  let w := world false [] in
  eth_sendTransaction (callFrom None) w
    = (Rejected (new_Error "from not found; is required"), w) ∧
  eth_sendTransaction (callFrom (Some bob)) w
    = (Rejected (new_Error "authentication needed: password or unlock"), w) ∧
  eth_sendTransaction (callFrom (Some [x0c])) w
    = (Rejected (new_Error "sender account not recognized"), w) ∧
  ∃ h, result_of (eth_sendTransaction (callFrom (Some alice)) w) = Resolved h.
Proof.
  intros w.
  destruct (eth_sendTransaction_validates_then_queues (callFrom None) w)
    as (Hmissing & _).
  destruct (eth_sendTransaction_validates_then_queues (callFrom (Some bob)) w)
    as (_ & Hlocked & _).
  destruct (eth_sendTransaction_validates_then_queues (callFrom (Some [x0c])) w)
    as (_ & _ & Hunknown & _).
  destruct (eth_sendTransaction_validates_then_queues (callFrom (Some alice)) w)
    as (_ & _ & _ & _ & Haccepted).
  split; [apply Hmissing; reflexivity|].
  split.
  { apply Hlocked. exists bob. split; [reflexivity|]. split; [|reflexivity].
    apply elem_of_union. right. by apply elem_of_singleton. }
  split.
  { apply Hunknown. exists [x0c]. split; [reflexivity|]. split; [|reflexivity].
    intros [Hin | Hin]%elem_of_union; apply elem_of_singleton in Hin;
      discriminate Hin. }
  apply (Haccepted alice 90000%N).
  - reflexivity.
  - exists [x01]. reflexivity.
  - right. split; reflexivity.
  - exists alice. split; [reflexivity|]. repeat split; by vm_compute.
Defined.

(** The aggregated error of a batch with two reverted transactions: the
    first exception contributes its message, the second its hash and
    message, and the data maps both hashes. *)
Example assertExceptionalTransactions_two_reverts :
  let first := tx_with_execException
                 (Some (revertError (transfer (Some [xff]) 0)))
                 (transfer (Some [xff]) 0) in
  let second := tx_with_execException
                  (Some (revertError (transfer (Some [xff]) 2)))
                  (transfer (Some [xff]) 2) in
  ∃ err,
    assertExceptionalTransactions [first; transfer None 1; second]
      = Rejected err ∧
    err_message err
      = "Multiple VM Exceptions while processing transactions: : " +:+ nl +:+
        nl +:+ "VM Exception while processing transaction: revert" +:+ nl +:+
        "0xa2: RuntimeError: VM Exception while processing transaction: revert"
        +:+ nl ∧
    dom (err_data err) = {[ "0xa0"; "0xa2" ]}.
Proof.
  intros first second. eexists. split; [reflexivity|]. split; [reflexivity|].
  simpl. rewrite !dom_insert_L, dom_empty_L. set_solver.
Qed.

(** Positions are padded or cut to 32 bytes. *)
Example padPosition_short : length (padPosition [x01]) = 32.
Proof. reflexivity. Qed.

Example padPosition_long :
  padPosition (replicate 33 x07 ++ [x01]) = replicate 31 x07 ++ [x01].
Proof. reflexivity. Qed.

(** A call runs the interpreter, which bumps the nonce of the sender in the
    state it is given, and the canonical state still reads nonce zero. *)
Example eth_call_then_nonce :
  let w := world false [] in
  result_of (eth_call (callFrom (Some alice)) (ByTag LATEST) w) = Resolved [] ∧
  result_of (eth_getTransactionCount alice (ByTag LATEST)
               (world_of (eth_call (callFrom (Some alice)) (ByTag LATEST) w)))
  = Resolved 0%N ∧
  result_of (eth_getTransactionCount alice (ByTag LATEST)
               (world_of (evm_mine NoArg (world false [transfer None 0]))))
  = Resolved 1%N.
Proof. by vm_compute. Qed.

End Runs.

(** * Concrete runs of the further properties *)

Module FurtherRuns.
Import Sample.
Import SampleCodecs.

Lemma evm_mine_argument_forms_witness :
  let w := world false [transfer None 0] in
  evm_mine (OptionsArg None (Some (-3)%Z)) w = (Resolved "0x0", w).
Proof.
  intros w.
  destruct (evm_mine_argument_forms w) as (_ & _ & _ & Hnone).
  apply Hnone. lia.
Defined.

(** Three blocks on top of the genesis block. *)
Lemma eth_blockNumber_counts_mined_blocks_witness :
  let w := world false [transfer None 0] in
  let arg := OptionsArg None (Some 3%Z) in
  result_of (eth_blockNumber (world_of (evm_mine arg w))) = Resolved 3%N.
Proof.
  intros w arg.
  apply (eth_blockNumber_counts_mined_blocks arg w 0).
  - intros i b Hb. destruct i as [|i]; [|by destruct i].
    simpl in Hb. by injection Hb as <-.
  - reflexivity.
  - by vm_compute.
Defined.

Lemma assertExceptionalTransactions_throws_iff_exception_witness :
  let reverted := tx_with_execException
                    (Some (revertError (transfer (Some [xff]) 1)))
                    (transfer (Some [xff]) 1) in
  assertExceptionalTransactions [transfer None 0; reverted]
  = Rejected (singleError (revertError (transfer (Some [xff]) 1))) ∧
  assertExceptionalTransactions [transfer None 0] = Resolved tt.
Proof.
  intros reverted.
  assert (VM_EXCEPTION ≠ EmptyString) as H1 by done.
  assert (VM_EXCEPTIONS ≠ EmptyString) as H2 by done.
  assert (clean [transfer None 0]) as Hclean.
  { intros tx Hin. by apply list_elem_of_singleton in Hin as ->. }
  split.
  - destruct (assertExceptionalTransactions_throws_iff_exception
                [transfer None 0; reverted] H1 H2) as [_ Hsingle].
    apply (Hsingle [transfer None 0] reverted []); [done|done| |done].
    intros tx Hin. by apply elem_of_nil in Hin.
  - by apply (assertExceptionalTransactions_throws_iff_exception
                [transfer None 0] H1 H2).
Defined.

Lemma new_filters_get_fresh_ids_witness :
  let w := world_of (eth_newBlockFilter (world false [])) in
  let w' := world_of (installFilter NewPendingTransactionFilter w) in
  result_of (installFilter NewPendingTransactionFilter w) = Resolved 2%N ∧
  filters w' !! 1%N = filters w !! 1%N ∧
  eth_getFilterChanges 2 w' = (Resolved [], w').
Proof.
  intros w w'.
  assert (filterIdsIssued w) as Hissued.
  { assert (filters w
            = <[1%N := {| flt_updates := []; flt_filter := None;
                          flt_type := FilterBlock |}]> ∅) as Hfs
      by reflexivity.
    intros j [f Hf]. destruct (decide (j = 1%N)) as [->|Hne]; [done|].
    rewrite Hfs, lookup_insert_ne, lookup_empty in Hf by done.
    discriminate Hf. }
  destruct (new_filters_get_fresh_ids NewPendingTransactionFilter w Hissued)
    as (Hid & _ & Hothers & Hpoll & _).
  split; [exact Hid|]. split; [|exact Hpoll].
  apply Hothers. discriminate.
Defined.


(** A transaction is submitted on the sample engine and looked up while
    it waits in the pool. *)
Lemma eth_getTransactionByHash_finds_the_queued_transaction_witness :
  let w := world false [] in
  let w' := world_of (eth_sendTransaction (callFrom (Some alice)) w) in
  (∃ tx, tx_hash tx = "0xa0" ∧
         eth_getTransactionByHash "0xa0" w'
         = (Resolved (Some (PendingTransaction tx)), w')) ∧
  result_of (eth_getTransactionReceipt "0xa0" w') = Resolved None.
Proof.
  intros w w'.
  apply (eth_getTransactionByHash_finds_the_queued_transaction
           (callFrom (Some alice)) w w' "0xa0").
  - apply injective_projections; [by vm_compute | reflexivity].
  - reflexivity.
Defined.

(** On the sample engine, which mines at once and is started, asking for
    the receipt of a transaction that waits in the pool logs the notice. *)
Lemma eth_getTransactionReceipt_only_logs_witness :
  let w := world false [transfer None 0] in
  world_of (eth_getTransactionReceipt "0xa0" w)
  = set_logger (logger w ++ [notMinedNotice "0xa0"]) w.
Proof.
  intros w.
  destruct (eth_getTransactionReceipt_only_logs "0xa0" w)
    as [[_ Hlogged] | [Hnot _]]; [exact Hlogged|].
  exfalso. apply Hnot. split; [reflexivity|].
  split; [by left|]. split; [simpl; lia|]. by split.
Defined.

Lemma eth_getStorageAt_reads_a_private_copy_witness :
  let w := world false [] in
  let w' := world_of (eth_getStorageAt alice [x01] (ByTag LATEST) w) in
  result_of (eth_getStorageAt alice [x01] (ByTag LATEST) w) = Resolved [] ∧
  heap (blockchain w') !! 1%positive = heap (blockchain w) !! 1%positive ∧
  eth_getStorageAt alice [x01] (ByNumber 9) w
  = (Rejected (new_Error "header not found"), w).
Proof.
  intros w w'.
  pose proof (eth_getStorageAt_reads_a_private_copy
                alice [x01] (ByTag LATEST) w) as Hfound.
  pose proof (eth_getStorageAt_reads_a_private_copy
                alice [x01] (ByNumber 9) w) as Hmissing.
  cbv zeta in Hfound, Hmissing.
  assert (blocks (blockchain w)
            !! N.to_nat (getEffectiveNumber (ByTag LATEST) (blockchain w))
          = Some genesis) as Hlatest by reflexivity.
  assert (blocks (blockchain w)
            !! N.to_nat (getEffectiveNumber (ByNumber 9) (blockchain w))
          = None) as Hnine by reflexivity.
  rewrite Hlatest in Hfound. rewrite Hnine in Hmissing.
  destruct Hfound as (Hresult & _ & Hothers & _).
  split; [by rewrite Hresult|]. split; [|exact Hmissing].
  apply Hothers. by vm_compute.
Defined.

(** On the funded engine a submission without a gas price is queued at
    the price the miner was set to. *)
Lemma miner_setGasPrice_sets_the_default_price_witness :
  let w' := world_of (miner_setGasPrice 7 fundedWorld) in
  let w2 := world_of (eth_sendTransaction (callFrom (Some alice)) w') in
  eth_gasPrice w' = (Resolved 7%N, w') ∧
  ∃ queued,
    pool (blockchain w2) = pool (blockchain fundedWorld) ++ [queued] ∧
    tx_hash queued = "0xa0" ∧ tx_gasPrice queued = Some 7%N.
Proof.
  intros w' w2.
  destruct (miner_setGasPrice_sets_the_default_price
              7 (callFrom (Some alice)) fundedWorld w2 "0xa0")
    as (_ & _ & Hprice & Hqueued).
  split; [exact Hprice|].
  apply Hqueued; [reflexivity|].
  apply injective_projections; [by vm_compute | reflexivity].
Defined.

(** On the sample engine [alice] is unlocked and [bob] is locked. *)
Lemma eth_signTransaction_checks_the_sender_only_witness :
  let w := world false [] in
  eth_sendTransaction (callFrom (Some bob)) w
  = (Rejected (new_Error "authentication needed: password or unlock"), w) ∧
  ∃ signed,
    result_of (eth_signTransaction (callFrom (Some alice)) w)
    = Resolved signed.
Proof.
  intros w.
  destruct (eth_signTransaction_checks_the_sender_only
              (callFrom (Some bob)) w) as (_ & Hrejects & _).
  destruct (eth_signTransaction_checks_the_sender_only
              (callFrom (Some alice)) w) as (_ & _ & Hresolves).
  split; [apply Hrejects; by vm_compute|].
  apply Hresolves. exists alice. split; [reflexivity|].
  exists [x01]. reflexivity.
Defined.

(** The transaction waiting in the pool of the sample engine is mined into
    block 1. *)
Lemma mined_transactions_have_receipts_witness :
  let w := world false [transfer None 0] in
  let w' := world_of (mine (-1) None w) in
  (∃ json b,
     result_of (eth_getTransactionReceipt "0xa0" w') = Resolved (Some json) ∧
     rc_blockNumber (rj_receipt json) = 1%N ∧
     rj_block json = Some b ∧
     blocks (blockchain w') = blocks (blockchain w) ++ [b] ∧
     tx_hash (rj_transaction json) = "0xa0") ∧
  (∃ mined,
     eth_getTransactionByHash "0xa0" w'
     = (Resolved (Some (MinedTransaction mined 1)), w') ∧
     tx_hash mined = "0xa0").
Proof.
  intros w w'.
  apply (mined_transactions_have_receipts None w (transfer None 0)).
  assert (batchOf None w = [transfer None 0]) as -> by (by vm_compute).
  by left.
Defined.


(** The block manager of the sample engine rejects a missing block with
    "header not found". *)
Lemma call_and_estimateGas_reject_a_missing_block_witness :
  let w := world false [] in
  eth_call (callFrom (Some alice)) (ByNumber 9) w
  = (Rejected (new_Error "header not found"), w) ∧
  eth_estimateGas (callFrom (Some alice)) (ByNumber 9) w
  = (Rejected (new_Error "header not found"), w).
Proof.
  intros w.
  destruct (call_and_estimateGas_reject_a_missing_block
              (callFrom (Some alice)) (ByNumber 9) w eq_refl)
    as (e & Hcall & Hestimate & _ & Herror).
  rewrite (Herror (new_Error "header not found") eq_refl) in Hcall, Hestimate.
  by split.
Defined.


(** Two transactions are mined into block 1 of the sample chain; asked for
    the one at index 1, the method answers with the one at index 0. *)
Lemma eth_getTransactionByBlockNumberAndIndex_ignores_the_index_witness :
  let w := world_of (mine (-1) None
                       (world false [transfer None 0; transfer None 1])) in
  result_of (eth_getTransactionByBlockNumberAndIndex (ByTag LATEST) 1 w)
  = Resolved (Some (FullTransaction (transfer None 0))).
Proof.
  intros w.
  destruct (eth_getTransactionByBlockNumberAndIndex_ignores_the_index
              (ByTag LATEST) 1 w) as [_ Hfound].
  destruct (latest_after_mine None
              (world false [transfer None 0; transfer None 1]))
    as (b & Hb & Htxs).
  assert (batchOf None (world false [transfer None 0; transfer None 1])
          = [transfer None 0; transfer None 1]) as Hbatch by (by vm_compute).
  by rewrite (Hfound b Hb), Htxs, Hbatch.
Defined.

End FurtherRuns.
